(** * homebridge-eo-mini: the state-synchronisation core

    A shallow embedding of the two source files that carry the logic of the
    plugin:

    - [Api]: the [EoMiniApi] class of [api.ts] (auth session caching, the
      [request] executor and the typed client operations);
    - [Accessory]: the [ChargerAccessory] class of [platformAccessory.ts]
      (characteristic state, reconciliation, user commands), run on a small
      model of the JavaScript event loop: handlers run to completion,
      network calls stay in flight until the environment answers them,
      the command queue runs one task at a time.

    Time values are milliseconds since the epoch, in [Z]; JavaScript
    numbers that the code computes with are IEEE 754 binary64 values. *)

From Stdlib Require Import ZArith List String Bool Lia SpecFloat.
Import ListNotations.
Open Scope string_scope.
Open Scope Z_scope.

(* ===================================================================== *)
(** * The API client ([api.ts])                                           *)
(* ===================================================================== *)

Module Api.

(** A JavaScript number: an IEEE 754 binary64 value, with the arithmetic
    of the language (round to nearest, ties to even). *)
Definition Number : Type := spec_float.

Definition Number_mul (x y : Number) : Number := SFmul 53 1024 x y.
Definition Number_add (x y : Number) : Number := SFadd 53 1024 x y.

(** The number that an integer literal or an integral time value denotes. *)
Definition Number_of_Z (z : Z) : Number := binary_normalize 53 1024 z 0 false.

(** A [Date] object: its time value, a whole number of milliseconds since
    the epoch, or [None] for an Invalid Date (time value [NaN]). *)
Definition Date : Type := option Z.

(** The magnitude [m * 2^e] exceeds the integer [k]. *)
Definition exceeds (m : positive) (e : Z) (k : Z) : bool :=
  if 0 <=? e then k <? Z.pos m * 2 ^ e else k * 2 ^ (- e) <? Z.pos m.

(** [new Date(value)] for a number: the time value is [TimeClip(value)],
    which is [NaN] for a value that is not finite or whose magnitude
    exceeds 8.64e15, and else the value without its fraction. *)
Definition new_Date (value : Number) : Date :=
  match value with
  | S754_nan | S754_infinity _ => None
  | S754_zero _ => Some 0
  | S754_finite s m e =>
      if exceeds m e 8640000000000000 then None
      else
        let magnitude := Z.shiftl (Z.pos m) e in
        Some (if s then - magnitude else magnitude)
  end.

(** [a > b] for two [Date] objects: both are converted to their time
    values, and a comparison with [NaN] is false. *)
Definition Date_gt (a b : Date) : bool :=
  match a, b with
  | Some x, Some y => y <? x
  | _, _ => false
  end.

Arguments Number_mul : simpl never.
Arguments Number_add : simpl never.
Arguments Number_of_Z : simpl never.
Arguments new_Date : simpl never.

(** [ResponseToken]: the two fields the code reads.  A field is [None]
    when the parsed object does not have it. *)
Record ResponseToken := mkResponseToken {
  access_token : option string;
  expires_in : option Number
}.

(** [AuthSession] *)
Record AuthSession := mkAuthSession {
  token : string;
  expires : Date;
  header : list (string * string);
  raw : ResponseToken
}.

Inductive Method := GET | POST.

(** What [fetch] is given. *)
Record FetchInit := mkFetchInit {
  url : string;
  method : Method;
  headers : list (string * string);
  body : option string
}.

(** What [fetch] resolves to; [text] is what [resp.text()] gives. *)
Record FetchResponse := mkFetchResponse {
  ok : bool;
  status : Z;
  text : string
}.

(** [fetch] either resolves or rejects (network failure); either way it
    takes some time. *)
Inductive FetchOutcome :=
| Resolves (resp : FetchResponse) (latency : N)
| Rejects (latency : N).

(** The JavaScript runtime and the network the client runs against. *)
Class Runtime := {
  JSON : Type;
  JSON_parse : string -> option JSON;      (* [None]: SyntaxError *)
  as_ResponseToken : JSON -> ResponseToken;  (* the cast [as ResponseToken],
                                                of a parsed object *)
  empty_object : JSON;                       (* [{}] *)
  fetch : Z -> FetchInit -> FetchOutcome     (* at a time, for a request *)
}.

(** Thrown values. *)
Inductive Exception :=
| AuthError (message : string) (status : Z) (body : string)
| Error (message : string)
| FetchError.

(** Which [fetch] call site was reached. *)
Inductive Wire :=
| AuthFetch                                   (* the fetch of [auth] *)
| RequestFetch (m : Method) (url : string).   (* the fetch of [request] *)

(** The client object, the clock (the time value that [Date.now()] and
    [new Date()] read) and the log of fetches. *)
Record Client := mkClient {
  username : string;
  password : string;
  _authSession : option AuthSession;
  now : Z;
  wire : list Wire
}.

Inductive Completion (A : Type) :=
| Normal (a : A)
| Throw (e : Exception).
Arguments Normal {A} a.
Arguments Throw {A} e.

(** Computations on the client that may throw. *)
Definition M (A : Type) : Type := Client -> Completion A * Client.

Definition ret {A} (a : A) : M A := fun c => (Normal a, c).
Definition throw {A} (e : Exception) : M A := fun c => (Throw e, c).
Definition bind {A B} (m : M A) (k : A -> M B) : M B :=
  fun c => match m c with
           | (Normal a, c') => k a c'
           | (Throw e, c') => (Throw e, c')
           end.
Definition try_catch {A} (m : M A) (handler : Exception -> M A) : M A :=
  fun c => match m c with
           | (Normal a, c') => (Normal a, c')
           | (Throw e, c') => handler e c'
           end.
Definition read {A} (f : Client -> A) : M A := fun c => (Normal (f c), c).

Notation "x <- m ;; k" := (bind m (fun x => k))
  (at level 61, m at next level, right associativity).
Notation "m ;;; k" := (bind m (fun _ => k))
  (at level 61, right associativity).

Definition base : string := "https://eoappi.eocharging.com".

(** [Date.now()] and [new Date()] *)
Definition Date_now (c : Client) : Number := Number_of_Z (now c).
Definition new_Date_now (c : Client) : Date := Some (now c).

(** [get isAuthSessionValid] *)
Definition isAuthSessionValid (c : Client) : bool :=
  match _authSession c with
  | None => true
  | Some s => Date_gt (expires s) (new_Date_now c)
  end.

(** [get authSessionHeader] *)
Definition authSessionHeader (c : Client) : option (list (string * string)) :=
  if negb (isAuthSessionValid c) then None
  else match _authSession c with
       | None => None
       | Some s => Some (header s)
       end.

(** [set authSession(raw)]; callers have checked both fields.  A missing
    [expires_in] is [undefined], and [undefined * 1000] is [NaN]. *)
Definition set_authSession (raw : ResponseToken) : M unit :=
  fun c =>
    let tok := match access_token raw with Some t => t | None => "" end in
    let secs := match expires_in raw with Some n => n | None => S754_nan end in
    (Normal tt,
     mkClient (username c) (password c)
       (Some (mkAuthSession tok
                (new_Date
                   (Number_add (Date_now c)
                      (Number_mul secs (Number_of_Z 1000))))
                [("Authorization", "Bearer " ++ tok)] raw))
       (now c) (wire c)).

Section WithRuntime.
Context {rt : Runtime}.

(** [await fetch(...)] followed by [await resp.text()]. *)
Definition do_fetch (site : Wire) (init : FetchInit) : M FetchResponse :=
  fun c =>
    let sent := (wire c ++ [site])%list in
    match fetch (now c) init with
    | Resolves resp latency =>
        (Normal resp,
         mkClient (username c) (password c) (_authSession c)
           (now c + Z.of_N latency) sent)
    | Rejects latency =>
        (Throw FetchError,
         mkClient (username c) (password c) (_authSession c)
           (now c + Z.of_N latency) sent)
    end.

Definition falsy_string (s : option string) : bool :=
  match s with
  | None => true
  | Some x => if string_dec x "" then true else false
  end.

(** [!n] for a number: [undefined], zero of either sign and [NaN] are
    falsy. *)
Definition falsy_number (n : option Number) : bool :=
  match n with
  | None | Some (S754_zero _) | Some S754_nan => true
  | Some _ => false
  end.

(** [auth()] *)
Definition auth : M unit :=
  u <- read username ;;
  p <- read password ;;
  resp <- do_fetch AuthFetch
            (mkFetchInit (base ++ "/token") POST
               [("Content-Type", "application/x-www-form-urlencoded");
                ("Accept", "application/json")]
               (Some ("grant_type=password" ++ "&" ++ "username=" ++ u
                      ++ "&" ++ "password=" ++ p))) ;;
  let rawBody := text resp in
  if negb (ok resp) then
    throw (AuthError "Response not ok" (status resp) rawBody)
  else
    match JSON_parse rawBody with
    | None => throw (AuthError "Response not JSON" (status resp) rawBody)
    | Some parsed =>
        let body := as_ResponseToken parsed in
        if falsy_string (access_token body) then
          throw (AuthError "No access token" (status resp) rawBody)
        else if falsy_number (expires_in body) then
          throw (AuthError "No expiration time" (status resp) rawBody)
        else
          set_authSession body ;;;
          h <- read authSessionHeader ;;
          match h with
          | None =>
              throw (AuthError "No auth session header" (status resp) rawBody)
          | Some _ => ret tt
          end
    end.

(** [RequestOpts], with the defaults of the destructuring applied by
    [default_opts]. *)
Record RequestOpts := mkRequestOpts {
  expect : bool;
  opt_headers : list (string * string);
  opt_body : option string
}.

Definition default_opts : RequestOpts := mkRequestOpts true [] None.

(** [Response<T>] *)
Record Response := mkResponse {
  r_ok : bool;
  r_status : Z;
  r_body : JSON;
  r_rawBody : string
}.

(** Object spread: a later key overrides an earlier one in place. *)
Fixpoint assign (o : list (string * string)) (k v : string)
  : list (string * string) :=
  match o with
  | [] => [(k, v)]
  | (k', v') :: rest =>
      if string_dec k' k then (k', v) :: rest
      else (k', v') :: assign rest k v
  end.

Definition spread (o extra : list (string * string))
  : list (string * string) :=
  fold_left (fun acc kv => assign acc (fst kv) (snd kv)) extra o.

(** [request(method, endpoint, opts)] *)
Definition request (m : Method) (endpoint : string) (opts : RequestOpts)
  : M Response :=
  h <- read authSessionHeader ;;
  match h with
  | None => auth
  | Some _ => ret tt
  end ;;;
  h' <- read authSessionHeader ;;
  let auth_header := match h' with Some x => x | None => [] end in
  resp <- do_fetch (RequestFetch m (base ++ "/" ++ endpoint))
            (mkFetchInit (base ++ "/" ++ endpoint) m
               (spread
                  (spread [("Accept", "application/json");
                           ("Content-Type", "application/json")]
                     auth_header)
                  (opt_headers opts))
               (opt_body opts)) ;;
  let rawBody := text resp in
  if negb (ok resp) then throw (Error ("Request failed: " ++ rawBody))
  else if expect opts then
    match JSON_parse rawBody with
    | None => throw (Error ("Response not JSON: " ++ rawBody))
    | Some parsed => ret (mkResponse (ok resp) (status resp) parsed rawBody)
    end
  else ret (mkResponse (ok resp) (status resp) empty_object rawBody).

Definition form_opts (address : string) : RequestOpts :=
  mkRequestOpts false
    [("Content-Type", "application/x-www-form-urlencoded")]
    (Some ("id=" ++ address)).

(** [miniEnable(address)], [miniDisable(address)] *)
Definition miniEnable (address : string) : M unit :=
  request POST "api/mini/enable" (form_opts address) ;;; ret tt.

Definition miniDisable (address : string) : M unit :=
  request POST "api/mini/disable" (form_opts address) ;;; ret tt.

(** [session()] *)
Definition session : M JSON :=
  r <- request GET "api/session" default_opts ;;
  ret (r_body r).

(** [sessionAlive()] *)
Definition sessionAlive : M bool :=
  try_catch
    (request GET "api/session/alive" (mkRequestOpts false [] None) ;;;
     ret true)
    (fun _ => ret false).

(** [sessionUnpause()], [sessionPause()] *)
Definition sessionUnpause : M unit :=
  request POST "api/session/unpause" (mkRequestOpts false [] None) ;;;
  ret tt.

Definition sessionPause : M unit :=
  request POST "api/session/Pause" (mkRequestOpts false [] None) ;;;
  ret tt.

End WithRuntime.

(** The fetches a computation added to the log. *)
Definition sent_since (before after : Client) : list Wire :=
  skipn (List.length (wire before)) (wire after).

Definition is_AuthFetch (w : Wire) : bool :=
  match w with AuthFetch => true | RequestFetch _ _ => false end.

Definition auth_calls (l : list Wire) : nat :=
  List.length (filter is_AuthFetch l).

(** ** A sample runtime and sample clients *)

(** Every request is answered [200] with an empty object after 5 ms, and
    every parsed token grants ["tok"] for an hour. *)
Definition sample_runtime : Runtime := {|
  JSON := string;
  JSON_parse := fun s => Some s;
  as_ResponseToken :=
    fun _ => mkResponseToken (Some "tok") (Some (Number_of_Z 3600));
  empty_object := "{}";
  fetch := fun _ _ => Resolves (mkFetchResponse true 200 "{}") 5
|}.

Definition sample_session (expires : Z) : AuthSession :=
  mkAuthSession "old" (Some expires) [("Authorization", "Bearer old")]
    (mkResponseToken (Some "old") (Some (Number_of_Z 3600))).

Definition unauthenticated : Client := mkClient "user" "secret" None 1000 [].
Definition authenticated : Client :=
  mkClient "user" "secret" (Some (sample_session 5000)) 1000 [].
Definition expired : Client :=
  mkClient "user" "secret" (Some (sample_session 900)) 1000 [].

End Api.

(* ===================================================================== *)
(** * The accessory ([platformAccessory.ts])                              *)
(* ===================================================================== *)

Module Accessory.

(** [CharacteristicValue] as the handlers receive it at run time.  The
    casts [value as number] and [value as boolean] check nothing, so a
    stored state is a [CharacteristicValue] too.  Numbers are the integer
    codes of the host's enumerations. *)
Inductive CharacteristicValue :=
| VNum (n : Z)
| VBool (b : bool)
| VStr (s : string).

(** [===] *)
Definition strict_eq (a b : CharacteristicValue) : bool :=
  match a, b with
  | VNum x, VNum y => x =? y
  | VBool x, VBool y => Bool.eqb x y
  | VStr x, VStr y => String.eqb x y
  | _, _ => false
  end.

(** The host's enumerations ([platform.Characteristic], from the
    HomeKit accessory protocol library), with its published codes. *)
Module Characteristic.
Module LockCurrentState.
Definition UNSECURED : Z := 0.
Definition SECURED : Z := 1.
Definition JAMMED : Z := 2.
Definition UNKNOWN : Z := 3.
End LockCurrentState.
Module LockTargetState.
Definition UNSECURED : Z := 0.
Definition SECURED : Z := 1.
End LockTargetState.
Module ContactSensorState.
Definition CONTACT_DETECTED : Z := 0.
Definition CONTACT_NOT_DETECTED : Z := 1.
End ContactSensorState.
End Characteristic.

(** The keys of [this.states]. *)
Inductive StateKey :=
| LockCurrentState
| LockTargetState
| On
| ContactSensorState.

(** [this.states] *)
Record States := mkStates {
  st_LockCurrentState : CharacteristicValue;
  st_LockTargetState : CharacteristicValue;
  st_On : CharacteristicValue;
  st_ContactSensorState : CharacteristicValue
}.

(** [this.states[state]] *)
Definition get (k : StateKey) (s : States) : CharacteristicValue :=
  match k with
  | LockCurrentState => st_LockCurrentState s
  | LockTargetState => st_LockTargetState s
  | On => st_On s
  | ContactSensorState => st_ContactSensorState s
  end.

(** [this.states[state] = value] *)
Definition set (k : StateKey) (v : CharacteristicValue) (s : States) : States :=
  match k with
  | LockCurrentState =>
      mkStates v (st_LockTargetState s) (st_On s) (st_ContactSensorState s)
  | LockTargetState =>
      mkStates (st_LockCurrentState s) v (st_On s) (st_ContactSensorState s)
  | On =>
      mkStates (st_LockCurrentState s) (st_LockTargetState s) v
        (st_ContactSensorState s)
  | ContactSensorState =>
      mkStates (st_LockCurrentState s) (st_LockTargetState s) (st_On s) v
  end.

(** The first argument of [updateState]. *)
Inductive ServiceName := lock | outlet | contactSensor.

(** [ResponseMini] and [ResponseSession]: the fields the accessory reads. *)
Record ResponseMini := mkResponseMini {
  address : string;
  isDisabled : Z
}.

Record ResponseSession := mkResponseSession {
  IsPaused : bool
}.

(** The operations of [platform.client] the accessory invokes. *)
Module Client.
Inductive Call :=
| miniEnable (address : string)
| miniDisable (address : string)
| session
| sessionAlive
| sessionPause
| sessionUnpause.
End Client.

(** How the request behind a client call ends.  [session()] returns the
    parsed body ([None] for a JSON [null]); [sessionAlive()] turns a
    failed request into [false]; the others return nothing and reject
    when the request fails. *)
Inductive RequestOutcome :=
| RequestOk (body : option ResponseSession)
| RequestFailed.

Definition is_ok (o : RequestOutcome) : bool :=
  match o with RequestOk _ => true | RequestFailed => false end.

Inductive Status :=
| Pending
| Settled (o : RequestOutcome).

(** The three closures handed to [queue.add]. *)
Inductive Task :=
| CheckSessionTask
| LockCompletionTask (promise : nat) (value : CharacteristicValue)
| OutletCompletionTask (promise : nat).

(** The [await] at which the running task is suspended. *)
Inductive Suspended :=
| AwaitSession (call : nat)
| AwaitSessionAlive (call : nat)
| AwaitLockPromise (promise : nat) (value : CharacteristicValue)
| AwaitOutletPromise (promise : nat).

(** The call or promise a suspended task awaits. *)
Definition awaited (s : Suspended) : nat :=
  match s with
  | AwaitSession call | AwaitSessionAlive call => call
  | AwaitLockPromise promise _ | AwaitOutletPromise promise => promise
  end.

(** Modelled from the spec: [platform.queue], which [platform.ts] does not
    declare: a queue of the [p-queue] package with concurrency limit 1,
    that runs tasks in submission order, one at a time, and goes on with
    the next task when one rejects. *)
Record PQueue := mkPQueue {
  running : option Suspended;
  waiting : list Task
}.

(** [queue.size] and [queue.pending] *)
Definition size (q : PQueue) : Z := Z.of_nat (List.length (waiting q)).
Definition pending (q : PQueue) : Z :=
  match running q with Some _ => 1 | None => 0 end.

Inductive Level := debug | info | warn | error.

(** What the accessory does to the outside, in order. *)
Inductive Effect :=
| Log (l : Level) (message : string)
| LogState (k : StateKey) (from to : CharacteristicValue)
| UpdateCharacteristic (svc : ServiceName) (k : StateKey)
    (v : CharacteristicValue)
| SetValue (svc : ServiceName) (k : StateKey) (v : CharacteristicValue)
| ApiCall (id : nat) (c : Client.Call) (insideTask : bool)
| ApiSettled (id : nat) (ok : bool)
| TaskSettled (rejected : bool).

(** The accessory object with the part of the runtime it lives in:
    [accessory.context], the queue, the pending [setTimeout]s, the client
    calls made so far (a call's index is its identity, and the identity of
    the promise of the [do...] wrapper around it), whether the code that
    runs is a queue task, and the effects so far. *)
Record World := mkWorld {
  device : ResponseMini;
  session : option ResponseSession;
  sessionAlive : bool;
  lastUpdated : Z;
  states : States;
  resettingOutletOff : bool;
  context : ResponseMini * Z;
  queue : PQueue;
  timeouts : nat;
  calls : list (Client.Call * Status);
  inTask : bool;
  trace : list Effect
}.

Definition set_device (x : ResponseMini) (w : World) : World :=
  mkWorld x (session w) (sessionAlive w) (lastUpdated w) (states w)
    (resettingOutletOff w) (context w) (queue w) (timeouts w) (calls w)
    (inTask w) (trace w).
Definition set_session (x : option ResponseSession) (w : World) : World :=
  mkWorld (device w) x (sessionAlive w) (lastUpdated w) (states w)
    (resettingOutletOff w) (context w) (queue w) (timeouts w) (calls w)
    (inTask w) (trace w).
Definition set_sessionAlive (x : bool) (w : World) : World :=
  mkWorld (device w) (session w) x (lastUpdated w) (states w)
    (resettingOutletOff w) (context w) (queue w) (timeouts w) (calls w)
    (inTask w) (trace w).
Definition set_lastUpdated (x : Z) (w : World) : World :=
  mkWorld (device w) (session w) (sessionAlive w) x (states w)
    (resettingOutletOff w) (context w) (queue w) (timeouts w) (calls w)
    (inTask w) (trace w).
Definition set_states (x : States) (w : World) : World :=
  mkWorld (device w) (session w) (sessionAlive w) (lastUpdated w) x
    (resettingOutletOff w) (context w) (queue w) (timeouts w) (calls w)
    (inTask w) (trace w).
Definition set_resettingOutletOff (x : bool) (w : World) : World :=
  mkWorld (device w) (session w) (sessionAlive w) (lastUpdated w) (states w)
    x (context w) (queue w) (timeouts w) (calls w) (inTask w) (trace w).
Definition set_context (x : ResponseMini * Z) (w : World) : World :=
  mkWorld (device w) (session w) (sessionAlive w) (lastUpdated w) (states w)
    (resettingOutletOff w) x (queue w) (timeouts w) (calls w) (inTask w)
    (trace w).
Definition set_queue (x : PQueue) (w : World) : World :=
  mkWorld (device w) (session w) (sessionAlive w) (lastUpdated w) (states w)
    (resettingOutletOff w) (context w) x (timeouts w) (calls w) (inTask w)
    (trace w).
Definition set_timeouts (x : nat) (w : World) : World :=
  mkWorld (device w) (session w) (sessionAlive w) (lastUpdated w) (states w)
    (resettingOutletOff w) (context w) (queue w) x (calls w) (inTask w)
    (trace w).
Definition set_calls (x : list (Client.Call * Status)) (w : World) : World :=
  mkWorld (device w) (session w) (sessionAlive w) (lastUpdated w) (states w)
    (resettingOutletOff w) (context w) (queue w) (timeouts w) x (inTask w)
    (trace w).
Definition set_inTask (x : bool) (w : World) : World :=
  mkWorld (device w) (session w) (sessionAlive w) (lastUpdated w) (states w)
    (resettingOutletOff w) (context w) (queue w) (timeouts w) (calls w) x
    (trace w).
Definition emit (e : Effect) (w : World) : World :=
  mkWorld (device w) (session w) (sessionAlive w) (lastUpdated w) (states w)
    (resettingOutletOff w) (context w) (queue w) (timeouts w) (calls w)
    (inTask w) (trace w ++ [e])%list.

(** ** Methods of [ChargerAccessory] *)

(** [printStateInfo(state, value)] *)
Definition printStateInfo (k : StateKey) (v : CharacteristicValue)
  (w : World) : World :=
  emit (LogState k (get k (states w)) v) w.

(** [updateState(service, state, value, skipCharacteristicUpdate, forced)] *)
Definition updateState (service : ServiceName) (state : StateKey)
  (value : CharacteristicValue) (skipCharacteristicUpdate forced : bool)
  (w : World) : World :=
  if strict_eq value (get state (states w)) && negb forced then
    emit (Log debug "Ignoring update") w
  else
    let w := printStateInfo state value w in
    let w := set_states (set state value (states w)) w in
    if skipCharacteristicUpdate then w
    else emit (UpdateCharacteristic service state value) w.

(** [computeLockCurrentState()] *)
Definition computeLockCurrentState (w : World) : CharacteristicValue :=
  if isDisabled (device w) =? 1
  then VNum Characteristic.LockCurrentState.SECURED
  else VNum Characteristic.LockCurrentState.UNSECURED.

(** [computeOutletOn()] *)
Definition computeOutletOn (w : World) : CharacteristicValue :=
  match session w with
  | None => VBool false
  | Some s => VBool (negb (IsPaused s))
  end.

(** [computeContactSensorState()]: the value, and the line it logs. *)
Definition computeContactSensorState (w : World) : CharacteristicValue :=
  if sessionAlive w
  then VNum Characteristic.ContactSensorState.CONTACT_DETECTED
  else VNum Characteristic.ContactSensorState.CONTACT_NOT_DETECTED.

Definition computeContactSensorState_log (w : World) : World :=
  if sessionAlive w then emit (Log debug "Contact detected") w
  else emit (Log debug "Contact NOT detected") w.

(** [computeAll()] *)
Definition computeAll (w : World) : World :=
  let w := emit (Log debug "Computing all") w in
  let w := updateState lock LockCurrentState (computeLockCurrentState w)
             false false w in
  let w := updateState lock LockTargetState (computeLockCurrentState w)
             true false w in
  let w := updateState outlet On (computeOutletOn w) false false w in
  let w := computeContactSensorState_log w in
  updateState contactSensor ContactSensorState (computeContactSensorState w)
    false false w.

(** [getLockCurrentState()], [getLockTargetState()], [getOutletOn()],
    [getContactSensorState()] *)
Definition getLockCurrentState (w : World) := get LockCurrentState (states w).
Definition getLockTargetState (w : World) := get LockTargetState (states w).
Definition getOutletOn (w : World) := get On (states w).
Definition getContactSensorState (w : World) :=
  get ContactSensorState (states w).

(** Invoking a method of [platform.client]: the request starts at once. *)
Definition invoke (c : Client.Call) (w : World) : nat * World :=
  let id := List.length (calls w) in
  (id, emit (ApiCall id c (inTask w))
         (set_calls (calls w ++ [(c, Pending)])%list w)).

Inductive EnableOrDisable := Enable | Disable.
Inductive PauseOrUnpause := Pause | Unpause.

(** [doEnableOrDisable(action)] up to its [await]; the rest of it runs in
    [settle].  The result is the promise it returns. *)
Definition doEnableOrDisable (action : EnableOrDisable) (w : World)
  : nat * World :=
  let w := emit (Log info "Attempt to") w in
  match action with
  | Enable => invoke (Client.miniEnable (address (device w))) w
  | Disable => invoke (Client.miniDisable (address (device w))) w
  end.

(** [doPauseOrUnpause(action)] up to its [await]. *)
Definition doPauseOrUnpause (action : PauseOrUnpause) (w : World)
  : nat * World :=
  let w := emit (Log info "Attempt to") w in
  match action with
  | Pause => invoke Client.sessionPause w
  | Unpause => invoke Client.sessionUnpause w
  end.

(** ** The queue *)

(** The body of the task of [setLockTargetState], after [await promise]. *)
Definition lock_completion (fulfilled : bool) (value : CharacteristicValue)
  (w : World) : World :=
  if fulfilled then updateState lock LockCurrentState value false false w
  else
    let w := emit (Log error "Failed to enable/disable") w in
    updateState lock LockCurrentState
      (VNum Characteristic.LockCurrentState.UNKNOWN) false false w.

(** The body of the task of [setOutletOn], after [await promise]. *)
Definition outlet_completion (fulfilled : bool) (w : World) : World :=
  if fulfilled then w
  else emit (Log error "Failed to pause/unpause") w.

(** The body of the task of [checkSession], after its second [await]. *)
Definition session_completion (alive : bool) (w : World) : World :=
  computeAll (set_sessionAlive alive w).

(** Code that the queue runs. *)
Definition as_task (body : World -> World) (w : World) : World :=
  set_inTask false (body (set_inTask true w)).

Definition status_of (p : nat) (w : World) : Status :=
  match nth_error (calls w) p with
  | Some (_, s) => s
  | None => Pending
  end.

(** The queue starts the next task, when none runs.  A task that awaits a
    promise already settled goes on at once and ends, and the next one
    starts. *)
Fixpoint start_next (tasks : list Task) (w : World) : World :=
  match tasks with
  | [] => set_queue (mkPQueue None []) w
  | CheckSessionTask :: rest =>
      let (id, w) := invoke Client.session (set_inTask true w) in
      set_queue (mkPQueue (Some (AwaitSession id)) rest) (set_inTask false w)
  | LockCompletionTask p value :: rest =>
      match status_of p w with
      | Pending => set_queue (mkPQueue (Some (AwaitLockPromise p value)) rest) w
      | Settled o =>
          start_next rest
            (emit (TaskSettled false)
               (as_task (lock_completion (is_ok o) value) w))
      end
  | OutletCompletionTask p :: rest =>
      match status_of p w with
      | Pending => set_queue (mkPQueue (Some (AwaitOutletPromise p)) rest) w
      | Settled o =>
          start_next rest
            (emit (TaskSettled false)
               (as_task (outlet_completion (is_ok o)) w))
      end
  end.

(** [queue.add(task)] *)
Definition queue_add (t : Task) (w : World) : World :=
  match running (queue w) with
  | Some s => set_queue (mkPQueue (Some s) (waiting (queue w) ++ [t])%list) w
  | None => start_next (waiting (queue w) ++ [t])%list w
  end.

(** [checkSession()] *)
Definition checkSession (w : World) : World :=
  let w := emit (Log debug "Check session") w in
  queue_add CheckSessionTask w.

(** ** The handlers *)

(** [setLockTargetState(value)] *)
Definition setLockTargetState (value : CharacteristicValue) (w : World)
  : World :=
  if strict_eq value (get LockTargetState (states w))
     || strict_eq value (get LockCurrentState (states w))
  then emit (Log debug "Ignoring setLockTargetState") w
  else
    let w := updateState lock LockTargetState value false false w in
    if strict_eq value (VNum Characteristic.LockTargetState.SECURED) then
      let (promise, w) := doEnableOrDisable Disable w in
      queue_add (LockCompletionTask promise value) w
    else if strict_eq value (VNum Characteristic.LockTargetState.UNSECURED)
    then
      let (promise, w) := doEnableOrDisable Enable w in
      queue_add (LockCompletionTask promise value) w
    else emit (Log error "Unknown LockTargetState") w.

(** [setOutletOn(value)] *)
Definition setOutletOn (value : CharacteristicValue) (w : World) : World :=
  if negb (sessionAlive w) then
    if resettingOutletOff w then set_resettingOutletOff false w
    else
      let w := emit (Log warn "Session not alive") w in
      let w := set_resettingOutletOff true w in
      set_timeouts (S (timeouts w)) w
  else if strict_eq value (get On (states w)) then
    emit (Log debug "Ignoring setOutletOn") w
  else
    let w := updateState outlet On value false false w in
    if strict_eq value (VBool false) then
      let (promise, w) := doPauseOrUnpause Pause w in
      queue_add (OutletCompletionTask promise) w
    else if strict_eq value (VBool true) then
      let (promise, w) := doPauseOrUnpause Unpause w in
      queue_add (OutletCompletionTask promise) w
    else emit (Log error "Unknown On") w.

(** The host's [setValue] on the [On] characteristic of the outlet
    service: the value is published and the registered [onSet] handler,
    [setOutletOn], runs. *)
Definition setValue_On (v : CharacteristicValue) (w : World) : World :=
  setOutletOn v (emit (SetValue outlet On v) w).

(** The callback of the [setTimeout] of [setOutletOn]. *)
Definition timeout_callback (w : World) : World :=
  let w := updateState outlet On (VBool false) true false w in
  setValue_On (VBool false) w.

(** The callback of the [setInterval] of the constructor, at a time. *)
Definition interval_callback (now : Z) (w : World) : World :=
  if 0 <? size (queue w) + pending (queue w) then
    emit (Log debug "Skipping update (queue is not empty)") w
  else if snd (context w) <=? lastUpdated w then w
  else
    let w := emit (Log debug "Checking for updates") w in
    let w := set_device (fst (context w)) w in
    let w := set_lastUpdated now w in
    checkSession w.

(** ** The event loop *)

Fixpoint replace {A} (n : nat) (x : A) (l : list A) : list A :=
  match l, n with
  | [], _ => []
  | _ :: t, O => x :: t
  | h :: t, S m => h :: replace m x t
  end.

(** The task suspended on call [id] goes on. *)
Definition resume (id : nat) (o : RequestOutcome) (w : World) : World :=
  let rest := waiting (queue w) in
  match running (queue w) with
  | None => w
  | Some (AwaitSession c) =>
      if (c =? id)%nat then
        match o with
        | RequestOk body =>
            let w := set_session body (set_inTask true w) in
            let (id', w) := invoke Client.sessionAlive w in
            set_queue (mkPQueue (Some (AwaitSessionAlive id')) rest)
              (set_inTask false w)
        | RequestFailed => start_next rest (emit (TaskSettled true) w)
        end
      else w
  | Some (AwaitSessionAlive c) =>
      if (c =? id)%nat then
        start_next rest
          (emit (TaskSettled false)
             (as_task (session_completion (is_ok o)) w))
      else w
  | Some (AwaitLockPromise p value) =>
      if (p =? id)%nat then
        start_next rest
          (emit (TaskSettled false)
             (as_task (lock_completion (is_ok o) value) w))
      else w
  | Some (AwaitOutletPromise p) =>
      if (p =? id)%nat then
        start_next rest
          (emit (TaskSettled false)
             (as_task (outlet_completion (is_ok o)) w))
      else w
  end.

(** The request behind call [id] ends: the call settles, the rest of the
    [do...] wrapper runs, and the task awaiting it goes on. *)
Definition settle (id : nat) (o : RequestOutcome) (w : World) : World :=
  match nth_error (calls w) id with
  | Some (c, Pending) =>
      let w := set_calls (replace id (c, Settled o) (calls w)) w in
      let w := emit (ApiSettled id (is_ok o)) w in
      let w :=
        match c with
        | Client.session | Client.sessionAlive => w
        | _ => if is_ok o then emit (Log info "Complete to") w else w
        end in
      resume id o w
  | _ => w
  end.

(** What can happen to the accessory. *)
Inductive Event :=
| OnSetLockTargetState (value : CharacteristicValue)
| OnSetOutletOn (value : CharacteristicValue)
| IntervalTick (now : Z)
| TimeoutFires
| RequestEnds (id : nat) (o : RequestOutcome)
| ContextRefreshed (d : ResponseMini) (at_ : Z).

Definition step (w : World) (e : Event) : World :=
  match e with
  | OnSetLockTargetState v => setLockTargetState v w
  | OnSetOutletOn v => setOutletOn v w
  | IntervalTick now => interval_callback now w
  | TimeoutFires =>
      match timeouts w with
      | O => w
      | S n => timeout_callback (set_timeouts n w)
      end
  | RequestEnds id o => settle id o w
  | ContextRefreshed d t => set_context (d, t) w
  end.

Definition run (es : list Event) (w : World) : World := fold_left step es w.

(** The constructor, for the device and date of [accessory.context], at a
    time.  The platform has one charger, so the queue is empty and idle
    when the accessory is constructed. *)
Definition new_ChargerAccessory (d : ResponseMini) (contextUpdated now : Z)
  : World :=
  checkSession
    (mkWorld d None false now
       (mkStates (VNum Characteristic.LockCurrentState.UNSECURED)
          (VNum Characteristic.LockTargetState.UNSECURED)
          (VBool false)
          (VNum Characteristic.ContactSensorState.CONTACT_NOT_DETECTED))
       false (d, contextUpdated) (mkPQueue None []) O [] false []).

(** ** Observations on a trace *)

(** The effects a step added. *)
Definition added (before after : World) : list Effect :=
  skipn (List.length (trace before)) (trace after).

Definition is_notification (e : Effect) : bool :=
  match e with UpdateCharacteristic _ _ _ => true | _ => false end.

(** The notifications sent to the host services. *)
Definition notifications (l : list Effect) : list Effect :=
  filter is_notification l.

Definition is_ApiCall (e : Effect) : bool :=
  match e with ApiCall _ _ _ => true | _ => false end.

(** The client calls made. *)
Definition api_calls (l : list Effect) : list Effect := filter is_ApiCall l.

(** The calls in flight. *)
Definition in_flight (w : World) : list Client.Call :=
  map fst
    (filter (fun cs => match snd cs with Pending => true | _ => false end)
       (calls w)).

Definition key_eqb (a b : StateKey) : bool :=
  match a, b with
  | LockCurrentState, LockCurrentState => true
  | LockTargetState, LockTargetState => true
  | On, On => true
  | ContactSensorState, ContactSensorState => true
  | _, _ => false
  end.

(** The notifications about one characteristic. *)
Definition notifications_of (k : StateKey) (l : list Effect) : list Effect :=
  filter (fun e => match e with
                   | UpdateCharacteristic _ k' _ => key_eqb k k'
                   | _ => false
                   end) l.

(** What the host is told about a characteristic, either way. *)
Definition is_emission (e : Effect) : bool :=
  match e with
  | UpdateCharacteristic _ _ _ | SetValue _ _ _ => true
  | _ => false
  end.

Definition emissions (l : list Effect) : list Effect := filter is_emission l.

(** ** Sample devices, states and runs *)

Definition A1 : ResponseMini := mkResponseMini "A1" 0.
Definition A2 : ResponseMini := mkResponseMini "A2" 1.
Definition paused : ResponseSession := mkResponseSession true.

(** Just constructed: the first session check is in flight. *)
Definition constructed : World := new_ChargerAccessory A1 100 200.

(** The same for a charger that is disabled. *)
Definition constructed_disabled : World := new_ChargerAccessory A2 100 200.

(** The first session check has ended, with a vehicle connected. *)
Definition connected : World :=
  run [RequestEnds 0 (RequestOk (Some paused)); RequestEnds 1 (RequestOk None)]
    constructed.

(** The first session check has ended, with no vehicle connected. *)
Definition disconnected : World :=
  run [RequestEnds 0 (RequestOk (Some paused)); RequestEnds 1 RequestFailed]
    constructed.

(** A newer device record has arrived and the next session check is in
    flight. *)
Definition polling : World :=
  run [ContextRefreshed A1 300; IntervalTick 400] connected.

(** The user asked to secure the lock and the request failed. *)
Definition after_failed_disable : World :=
  run [OnSetLockTargetState (VNum Characteristic.LockTargetState.SECURED);
       RequestEnds 2 RequestFailed]
    connected.

(** The user asked to secure the lock while the first session check was
    in flight, and the request failed before the session check ended. *)
Definition failed_behind_check : World :=
  run [OnSetLockTargetState (VNum Characteristic.LockTargetState.SECURED);
       RequestEnds 1 RequestFailed]
    constructed.

(** The user switched the outlet on with no vehicle connected; a vehicle
    was connected when the timeout fired, and was gone at the next
    session check. *)
Definition stale_guard : World :=
  run [OnSetOutletOn (VBool true);
       RequestEnds 0 (RequestOk (Some paused)); RequestEnds 1 (RequestOk None);
       TimeoutFires;
       ContextRefreshed A1 300; IntervalTick 400;
       RequestEnds 2 (RequestOk (Some paused)); RequestEnds 3 RequestFailed]
    constructed.

(** ** Statements about the handlers, as the specification words them *)

(** A handler call that changed no state, notified nothing and called
    nothing. *)
Definition no_op (w w' : World) : Prop :=
  states w' = states w /\
  notifications (added w w') = [] /\
  api_calls (added w w') = [].

(** [setLockTargetState] does nothing exactly when the value is both the
    target and the current state, and otherwise updates the target and
    issues a command. *)
Definition ignored_iff_both (value : CharacteristicValue) (w : World)
  : Prop :=
  let w' := setLockTargetState value w in
  (no_op w w' <->
   value = getLockTargetState w /\ value = getLockCurrentState w) /\
  (~ (value = getLockTargetState w /\ value = getLockCurrentState w) ->
   getLockTargetState w' = value /\ api_calls (added w w') <> []).

(** The reconciliation pass notifies the host of the lock target, whatever
    the stored target was. *)
Definition target_always_notified (w : World) : Prop :=
  notifications_of LockTargetState (added w (computeAll w)) =
    [UpdateCharacteristic lock LockTargetState (computeLockCurrentState w)].

(** With no session alive, [setOutletOn] calls nothing, a revert is due,
    and when its timeout fires [On] is [false], is sent to the host again,
    and the re-entrant call is absorbed by the guard. *)
Definition revert_when_not_alive (value : CharacteristicValue) (w : World)
  : Prop :=
  sessionAlive w = false ->
  let w1 := setOutletOn value w in
  let w2 := step w1 TimeoutFires in
  api_calls (added w w1) = [] /\
  (0 < timeouts w1)%nat /\
  get On (states w2) = VBool false /\
  emissions (added w1 w2) = [SetValue outlet On (VBool false)] /\
  resettingOutletOff w2 = false /\
  timeouts w2 = Nat.pred (timeouts w1).

(** After a command with a new value SECURED or UNSECURED, when the
    request ends the current lock state is the value if the request
    succeeded and UNKNOWN if it failed, and after a failure it is not the
    state there was before the command. *)
Definition completion_never_prior (value : CharacteristicValue)
  (o : RequestOutcome) (w : World) : Prop :=
  value = VNum Characteristic.LockTargetState.SECURED \/
  value = VNum Characteristic.LockTargetState.UNSECURED ->
  value <> getLockTargetState w ->
  value <> getLockCurrentState w ->
  let w' := settle (List.length (calls w)) o (setLockTargetState value w) in
  getLockCurrentState w' =
    (if is_ok o then value
     else VNum Characteristic.LockCurrentState.UNKNOWN) /\
  (is_ok o = false -> getLockCurrentState w' <> getLockCurrentState w).

Definition is_rejection (e : Effect) : bool :=
  match e with TaskSettled true => true | _ => false end.

(** The queue tasks that rejected. *)
Definition rejections (l : list Effect) : list Effect :=
  filter is_rejection l.

(** When the request a running task awaits fails, the task does not
    reject, the failure is logged, and it shows in the states. *)
Definition failure_contained (id : nat) (w : World) : Prop :=
  let w' := settle id RequestFailed w in
  rejections (added w w') = [] /\
  (exists message, In (Log error message) (added w w')) /\
  states w' <> states w.

(** [w'] comes after [w] and no task rejected in between. *)
Definition quiet (w w' : World) : Prop :=
  exists l, trace w' = (trace w ++ l)%list /\ rejections l = [].

End Accessory.

(* ===================================================================== *)
(** * More of the API client ([api.ts])                                  *)
(* ===================================================================== *)

Module ApiStatus.
Import Ascii.
Import Api.

(** [ResponseMiniStatus] *)
Record ResponseMiniStatus := mkResponseMiniStatus {
  hubStatus : string;
  miniStatus_ : string
}.

(** A line terminator, which [.] does not match.  The strings here hold
    code units below 256, of which LF and CR are the line terminators. *)
Definition line_terminator (a : Ascii.ascii) : bool :=
  Ascii.eqb a "010"%char || Ascii.eqb a "013"%char.

(** [s.match(/^2..$/i)] finds a match: without the [m] flag [^] and [$] are
    the two ends of the string, and no other character folds to ["2"]. *)
Definition matches_2xx (s : string) : bool :=
  match s with
  | String a (String b (String c EmptyString)) =>
      Ascii.eqb a "2"%char && negb (line_terminator b)
      && negb (line_terminator c)
  | _ => false
  end.

Section WithRuntime.
Context {rt : Runtime}.

(** The cast of the parsed body to [ResponseMiniStatus], of an object that
    has both fields as strings. *)
Variable as_ResponseMiniStatus : JSON -> ResponseMiniStatus.

(** [miniStatus(address)] *)
Definition miniStatus (address : string) : M unit :=
  r <- request GET ("api/mini/status?address=" ++ address) default_opts ;;
  let body := as_ResponseMiniStatus (r_body r) in
  if negb (matches_2xx (hubStatus body)) then
    throw (Error ("HUB not connected (" ++ hubStatus body ++ ")"))
  else if negb (matches_2xx (miniStatus_ body)) then
    throw (Error ("MINI not connected (" ++ miniStatus_ body ++ ")"))
  else ret tt.

End WithRuntime.

(** The form-encoded request of [auth]. *)
Definition token_request (c : Client) : FetchInit :=
  mkFetchInit (base ++ "/token") POST
    [("Content-Type", "application/x-www-form-urlencoded");
     ("Accept", "application/json")]
    (Some ("grant_type=password" ++ "&" ++ "username=" ++ username c
           ++ "&" ++ "password=" ++ password c)).

(** A runtime whose token endpoint grants a token that is already
    expired. *)
Definition stingy_runtime : Runtime := {|
  JSON := string;
  JSON_parse := fun s => Some s;
  as_ResponseToken :=
    fun _ => mkResponseToken (Some "tok") (Some (Number_of_Z (-1)));
  empty_object := "{}";
  fetch := fun _ _ => Resolves (mkFetchResponse true 200 "{}") 5
|}.

(** A runtime whose token endpoint grants a token for 1e16 seconds: the
    expiry is beyond the range of [Date]. *)
Definition eternal_runtime : Runtime := {|
  JSON := string;
  JSON_parse := fun s => Some s;
  as_ResponseToken :=
    fun _ =>
      mkResponseToken (Some "tok") (Some (Number_of_Z 10000000000000000));
  empty_object := "{}";
  fetch := fun _ _ => Resolves (mkFetchResponse true 200 "{}") 5
|}.

(** A runtime whose token endpoint grants a token for 2^-14 seconds, less
    than a millisecond. *)
Definition fleeting_runtime : Runtime := {|
  JSON := string;
  JSON_parse := fun s => Some s;
  as_ResponseToken :=
    fun _ =>
      mkResponseToken (Some "tok")
        (Some (binary_normalize 53 1024 1 (-14) false));
  empty_object := "{}";
  fetch := fun _ _ => Resolves (mkFetchResponse true 200 "{}") 5
|}.

(** A runtime whose server answers 500 to everything. *)
Definition failing_runtime : Runtime := {|
  JSON := string;
  JSON_parse := fun s => Some s;
  as_ResponseToken :=
    fun _ => mkResponseToken (Some "tok") (Some (Number_of_Z 3600));
  empty_object := "{}";
  fetch := fun _ _ => Resolves (mkFetchResponse false 500 "oops") 5
|}.

(** A runtime whose server answers 200 with a body that is no JSON. *)
Definition garbled_runtime : Runtime := {|
  JSON := string;
  JSON_parse := fun s => None;
  as_ResponseToken :=
    fun _ => mkResponseToken (Some "tok") (Some (Number_of_Z 3600));
  empty_object := "{}";
  fetch := fun _ _ => Resolves (mkFetchResponse true 200 "<html>") 5
|}.

(** The status body of the sample runtime: whatever was parsed, both
    segments are up. *)
Definition sample_status (j : @JSON sample_runtime) : ResponseMiniStatus :=
  mkResponseMiniStatus "200" "204".

Definition hub_down_status (j : @JSON sample_runtime) : ResponseMiniStatus :=
  mkResponseMiniStatus "503" "200".

End ApiStatus.

(* ===================================================================== *)
(** * More about the accessory ([platformAccessory.ts])                   *)
(* ===================================================================== *)

Module AccessoryMore.
Import Accessory.

(** The queue is idle only when nothing waits. *)
Definition idle_means_empty (w : World) : Prop :=
  running (queue w) = None -> waiting (queue w) = [].

(** The date of [accessory.context] is not newer than [lastUpdated]: the
    test that makes the interval callback return without a session
    check. *)
Definition context_seen (w : World) : Prop :=
  snd (context w) <= lastUpdated w.

Definition is_refresh (e : Event) : bool :=
  match e with ContextRefreshed _ _ => true | _ => false end.

(** What the interval callback compares, and the device record. *)
Definition polling_view (w : World) : Z * (ResponseMini * Z) * ResponseMini :=
  (lastUpdated w, context w, device w).

(** [w'] comes after [w], and in between no client call was made and no
    task rejected. *)
Definition silent (w w' : World) : Prop :=
  exists l,
    trace w' = (trace w ++ l)%list /\ api_calls l = [] /\ rejections l = [].

End AccessoryMore.

(* ===================================================================== *)
(** * The platform ([platform.ts])                                        *)
(* ===================================================================== *)

Module Platform.
Import Accessory.

(** A [PlatformAccessory] of the host: what the platform reads and writes
    of it.  The [context] of an accessory just created is empty. *)
Record PlatformAccessory := mkPlatformAccessory {
  UUID : string;
  displayName : string;
  context_device : option ResponseMini;
  context_lastUpdated : option Z
}.

(** A [Map] with string keys, in insertion order. *)
Fixpoint map_get {V} (k : string) (m : list (string * V)) : option V :=
  match m with
  | [] => None
  | (k', v) :: rest => if String.eqb k' k then Some v else map_get k rest
  end.

Fixpoint map_set {V} (k : string) (v : V) (m : list (string * V))
  : list (string * V) :=
  match m with
  | [] => [(k, v)]
  | (k', v') :: rest =>
      if String.eqb k' k then (k', v) :: rest
      else (k', v') :: map_set k v rest
  end.

(** [array.includes(x)] *)
Definition includes (x : string) (l : list string) : bool :=
  existsb (String.eqb x) l.

(** What the platform does to the host, in order. *)
Inductive HostCall :=
| log_info (message detail : string)
| log_debug (message : string)
| log_error (message detail : string)
| updatePlatformAccessories (a : PlatformAccessory)
| registerPlatformAccessories (a : PlatformAccessory)
| unregisterPlatformAccessories (a : PlatformAccessory)
| new_ChargerAccessory (a : PlatformAccessory)
| clearInterval
| setInterval.

(** The fields of [EOMiniPlatform] that the two methods use, and the calls
    made so far. *)
Record Platform := mkPlatform {
  accessories : list (string * PlatformAccessory);
  devices : list (string * string);
  discoveredCacheUUIDs : list string;
  timeout : bool;
  host : list HostCall
}.

Definition call (c : HostCall) (p : Platform) : Platform :=
  mkPlatform (accessories p) (devices p) (discoveredCacheUUIDs p) (timeout p)
    (host p ++ [c])%list.

Section WithHost.

(** [api.hap.uuid.generate] *)
Variable generate : string -> string.

(** [configureAccessory(accessory)] *)
Definition configureAccessory (a : PlatformAccessory) (p : Platform)
  : Platform :=
  let p := call (log_info "Loading accessory from cache:" (displayName a)) p in
  mkPlatform (map_set (UUID a) a (accessories p)) (devices p)
    (discoveredCacheUUIDs p) (timeout p) (host p).

(** One turn of the first loop of [discoverDevices], for a device and the
    date read in that turn. *)
Definition discover_one (p : Platform) (listed : ResponseMini * Z)
  : Platform :=
  let (device, now) := listed in
  let uuid := generate (address device) in
  let p := mkPlatform (accessories p) (map_set (address device) uuid (devices p))
             (discoveredCacheUUIDs p) (timeout p) (host p) in
  let p :=
    match map_get uuid (accessories p) with
    | Some existingAccessory =>
        let p := call (log_info "Restoring existing accessory from cache:"
                         (displayName existingAccessory)) p in
        let updated := mkPlatformAccessory (UUID existingAccessory)
                         (address device) (Some device) (Some now) in
        let p := mkPlatform (map_set uuid updated (accessories p)) (devices p)
                   (discoveredCacheUUIDs p) (timeout p) (host p) in
        let p := call (updatePlatformAccessories updated) p in
        call (new_ChargerAccessory updated) p
    | None =>
        let p := call (log_info "Adding new accessory:" (address device)) p in
        let accessory := mkPlatformAccessory uuid (address device)
                           (Some device) (Some now) in
        let p := call (new_ChargerAccessory accessory) p in
        call (registerPlatformAccessories accessory) p
    end in
  mkPlatform (accessories p) (devices p)
    (discoveredCacheUUIDs p ++ [uuid])%list (timeout p) (host p).

(** The identifiers of a listing. *)
Definition uuids (listed : list (ResponseMini * Z)) : list string :=
  map (fun d => generate (address (fst d))) listed.

(** One turn of the second loop of [discoverDevices]. *)
Definition unregister_unseen (p : Platform)
  (entry : string * PlatformAccessory) : Platform :=
  let (uuid, accessory) := entry in
  if negb (includes uuid (discoveredCacheUUIDs p)) then
    let p := call (log_info "Removing existing accessory from cache:"
                     (displayName accessory)) p in
    call (unregisterPlatformAccessories accessory) p
  else p.

(** [discoverDevices()], from the point where [listDevices()] has
    answered with [listed]. *)
Definition discoverDevices (listed : list (ResponseMini * Z)) (p : Platform)
  : Platform :=
  let p := mkPlatform (accessories p) [] (discoveredCacheUUIDs p) (timeout p)
             (host p) in
  let p := fold_left discover_one listed p in
  fold_left unregister_unseen (accessories p) p.

(** One turn of the loop of [updateDevices]. *)
Definition update_one (p : Platform) (listed : ResponseMini * Z) : Platform :=
  let (device, now) := listed in
  match map_get (address device) (devices p) with
  | None => call (log_error "Device not found" (address device)) p
  | Some uuid =>
      if String.eqb uuid "" then
        call (log_error "Device not found" (address device)) p
      else
        match map_get uuid (accessories p) with
        | None => call (log_error "Accessory not found" uuid) p
        | Some existingAccessory =>
            let updated := mkPlatformAccessory (UUID existingAccessory)
                             (displayName existingAccessory) (Some device)
                             (Some now) in
            let p := mkPlatform (map_set uuid updated (accessories p))
                       (devices p) (discoveredCacheUUIDs p) (timeout p)
                       (host p) in
            call (updatePlatformAccessories updated) p
        end
  end.

(** [updateDevices()], with the answer of [listDevices()]. *)
Definition updateDevices (listed : list (ResponseMini * Z)) (p : Platform)
  : Platform :=
  let p := if timeout p then call clearInterval p else p in
  let p := call (log_debug "Updating devices") p in
  let p := fold_left update_one listed p in
  let p := mkPlatform (accessories p) (devices p) (discoveredCacheUUIDs p)
             true (host p) in
  call setInterval p.

End WithHost.

(** The platform after its constructor: nothing cached, nothing listed. *)
Definition fresh_platform : Platform := mkPlatform [] [] [] false [].

Definition is_update (c : HostCall) : bool :=
  match c with updatePlatformAccessories _ => true | _ => false end.

Definition unregistered (l : list HostCall) : list PlatformAccessory :=
  flat_map (fun c => match c with
                     | unregisterPlatformAccessories a => [a]
                     | _ => []
                     end) l.

(** The calls a method added. *)
Definition made (before after : Platform) : list HostCall :=
  skipn (List.length (host before)) (host after).

(** A sample identifier function and sample data. *)
Definition sample_generate (a : string) : string := "uuid-" ++ a.
Definition sample_listing : list (ResponseMini * Z) :=
  [(mkResponseMini "A1" 0, 1000)].
Definition stale_accessory : PlatformAccessory :=
  mkPlatformAccessory "uuid-OLD" "OLD" None None.
Definition cached_platform : Platform :=
  configureAccessory stale_accessory fresh_platform.

End Platform.

(* ===================================================================== *)
(** * Facts                                                               *)
(* ===================================================================== *)

Module ListFacts.

Lemma skipn_length_app {A} (l l' : list A) :
  skipn (List.length l) (l ++ l')%list = l'.
Proof.
  induction l as [|x l IH]; simpl; auto.
Qed.

Lemma filter_snoc {A} (f : A -> bool) (l : list A) (x : A) :
  filter f (l ++ [x])%list = (filter f l ++ (if f x then [x] else []))%list.
Proof.
  rewrite filter_app. reflexivity.
Qed.

End ListFacts.

Module ApiFacts.
Import Api ListFacts.

Section WithRuntime.
Context {rt : Runtime}.

Lemma do_fetch_wire site init c :
  wire (snd (do_fetch site init c)) = (wire c ++ [site])%list.
Proof.
  unfold do_fetch. destruct (fetch (now c) init); reflexivity.
Qed.

Lemma do_fetch_authSession site init c :
  _authSession (snd (do_fetch site init c)) = _authSession c.
Proof.
  unfold do_fetch. destruct (fetch (now c) init); reflexivity.
Qed.

(** [auth] reaches its fetch, once, whatever comes back. *)
Lemma auth_wire c : wire (snd (auth c)) = (wire c ++ [AuthFetch])%list.
Proof.
  unfold auth, bind, read, throw, ret, set_authSession.
  match goal with
  | |- context [do_fetch ?s ?i c] =>
      pose proof (do_fetch_wire s i c) as Hw;
      destruct (do_fetch s i c) as [[resp|e] c1]
  end; simpl in *; auto.
  destruct (ok resp); simpl; auto.
  destruct (JSON_parse (text resp)); simpl; auto.
  destruct (falsy_string _); simpl; auto.
  destruct (falsy_number _); simpl; auto.
  match goal with
  | |- context [authSessionHeader ?x] => destruct (authSessionHeader x)
  end; simpl; auto.
Qed.

(** With a header at hand [request] goes straight to its own fetch. *)
Lemma request_wire_with_header m endpoint opts c h :
  authSessionHeader c = Some h ->
  wire (snd (request m endpoint opts c)) =
    (wire c ++ [RequestFetch m (base ++ "/" ++ endpoint)])%list.
Proof.
  intros Hh. unfold request, bind, read, ret. rewrite Hh. simpl.
  rewrite Hh.
  match goal with
  | |- context [do_fetch ?s ?i c] =>
      pose proof (do_fetch_wire s i c) as Hw;
      destruct (do_fetch s i c) as [[resp|e] c1]
  end; simpl in *; auto.
  unfold throw.
  destruct (ok resp); simpl; auto.
  destruct (expect opts); simpl; auto.
  destruct (JSON_parse (text resp)); simpl; auto.
Qed.

(** Without one it authenticates first, and sends the request when
    [auth] returns. *)
Lemma request_wire_without_header m endpoint opts c :
  authSessionHeader c = None ->
  let sent := wire (snd (request m endpoint opts c)) in
  sent = (wire c ++ [AuthFetch])%list \/
  sent = (wire c ++ [AuthFetch; RequestFetch m (base ++ "/" ++ endpoint)])%list.
Proof.
  intros Hh. unfold request, bind, read, ret. rewrite Hh. simpl.
  pose proof (auth_wire c) as Ha.
  destruct (auth c) as [[[]|e] c1]; simpl in *; auto.
  right.
  match goal with
  | |- context [do_fetch ?s ?i c1] =>
      pose proof (do_fetch_wire s i c1) as Hw;
      destruct (do_fetch s i c1) as [[resp|e] c2]
  end; simpl in *.
  - assert (wire c2 = (wire c ++ [AuthFetch; RequestFetch m (base ++ "/" ++ endpoint)])%list)
      as Hc2 by (rewrite Hw, Ha, <- app_assoc; reflexivity).
    unfold throw.
    destruct (ok resp); simpl; auto.
    destruct (expect opts); simpl; auto.
    destruct (JSON_parse (text resp)); simpl; auto.
  - rewrite Hw, Ha, <- app_assoc; reflexivity.
Qed.

(** What [expires > new Date()] says about the time values. *)
Lemma Date_gt_spec (d : Date) (t : Z) :
  Date_gt d (Some t) = true <-> exists x, d = Some x /\ t < x.
Proof.
  unfold Date_gt. destruct d as [x|].
  - rewrite Z.ltb_lt. split; [eauto|].
    intros (y & E & L). inversion E. subst. exact L.
  - split; [discriminate|]. intros (y & E & _). discriminate.
Qed.

Lemma Date_gt_false (d : Date) (t : Z) :
  Date_gt d (Some t) = false <->
  d = None \/ exists x, d = Some x /\ x <= t.
Proof.
  unfold Date_gt. destruct d as [x|].
  - rewrite Z.ltb_ge. split; [eauto|].
    intros [E | (y & E & L)]; [discriminate|]. inversion E. subst. exact L.
  - split; auto.
Qed.

Lemma header_when_fresh c s t :
  _authSession c = Some s -> expires s = Some t -> now c < t ->
  authSessionHeader c = Some (header s).
Proof.
  intros Hs Ht Hlt. unfold authSessionHeader, isAuthSessionValid.
  rewrite Hs.
  assert (Date_gt (expires s) (new_Date_now c) = true) as ->
    by (apply Date_gt_spec; eauto).
  reflexivity.
Qed.

Lemma no_header_when_missing_or_expired c :
  _authSession c = None \/
  (exists s, _authSession c = Some s /\
             (expires s = None \/
              exists t, expires s = Some t /\ t <= now c)) ->
  authSessionHeader c = None.
Proof.
  unfold authSessionHeader, isAuthSessionValid.
  intros [Hn | [s [Hs Hle]]].
  - rewrite Hn. reflexivity.
  - rewrite Hs.
    assert (Date_gt (expires s) (new_Date_now c) = false) as ->
      by (apply Date_gt_false; exact Hle).
    reflexivity.
Qed.

(** C6: a cached session that expires in the future means no
    authentication call before the request; no cached session, or one
    whose expiry has passed (or is an Invalid Date, which is never in the
    future), means exactly one, made before the request is sent. *)
Theorem request_auth_calls (m : Method) (endpoint : string)
  (opts : RequestOpts) (c : Client) :
  let sent := sent_since c (snd (request m endpoint opts c)) in
  (forall s t, _authSession c = Some s -> expires s = Some t -> now c < t ->
     auth_calls sent = 0%nat /\
     sent = [RequestFetch m (base ++ "/" ++ endpoint)]) /\
  (_authSession c = None \/
   (exists s, _authSession c = Some s /\
              (expires s = None \/
               exists t, expires s = Some t /\ t <= now c)) ->
     auth_calls sent = 1%nat /\
     (sent = [AuthFetch] \/
      sent = [AuthFetch; RequestFetch m (base ++ "/" ++ endpoint)])).
Proof.
  unfold sent_since. split.
  - intros s t Hs Ht Hlt.
    rewrite (request_wire_with_header m endpoint opts c (header s))
      by (apply (header_when_fresh c s t); assumption).
    rewrite skipn_length_app. split; reflexivity.
  - intros Hc. apply no_header_when_missing_or_expired in Hc.
    destruct (request_wire_without_header m endpoint opts c Hc) as [H | H];
      rewrite H, skipn_length_app; split; auto.
Qed.

End WithRuntime.

(** The three cases of C6 at the sample clients. *)
Lemma request_auth_calls_witness :
  auth_calls
    (sent_since authenticated
       (snd (request (rt := sample_runtime) GET "api/session" default_opts
               authenticated))) = 0%nat /\
  auth_calls
    (sent_since unauthenticated
       (snd (request (rt := sample_runtime) GET "api/session" default_opts
               unauthenticated))) = 1%nat /\
  auth_calls
    (sent_since expired
       (snd (request (rt := sample_runtime) GET "api/session" default_opts
               expired))) = 1%nat.
Proof.
  split; [|split].
  - apply (proj1 (request_auth_calls (rt := sample_runtime) GET "api/session"
                    default_opts authenticated) (sample_session 5000) 5000).
    + reflexivity.
    + reflexivity.
    + simpl. lia.
  - apply (proj2 (request_auth_calls (rt := sample_runtime) GET "api/session"
                    default_opts unauthenticated)).
    left. reflexivity.
  - apply (proj2 (request_auth_calls (rt := sample_runtime) GET "api/session"
                    default_opts expired)).
    right. exists (sample_session 900). split; [reflexivity|].
    right. exists 900. split; [reflexivity | simpl; lia].
Defined.

End ApiFacts.

Module AccessoryFacts.
Import Accessory ListFacts.
Import Characteristic.

(** ** Values and states *)

Lemma strict_eq_spec a b : reflect (a = b) (strict_eq a b).
Proof.
  destruct a as [x|x|x], b as [y|y|y]; simpl;
    try (constructor; congruence).
  - destruct (Z.eqb_spec x y); constructor; congruence.
  - destruct (Bool.eqb_spec x y); constructor; congruence.
  - destruct (String.eqb_spec x y); constructor; congruence.
Qed.

Lemma strict_eq_refl a : strict_eq a a = true.
Proof. destruct (strict_eq_spec a a); congruence. Qed.

Lemma strict_eq_neq a b : a <> b -> strict_eq a b = false.
Proof. destruct (strict_eq_spec a b); congruence. Qed.

Lemma get_set_same k v s : get k (set k v s) = v.
Proof. destruct k; reflexivity. Qed.

Lemma get_set_other k k' v s : k <> k' -> get k' (set k v s) = get k' s.
Proof. destruct k, k'; simpl; congruence. Qed.

(** ** Traces *)

Ltac case_if :=
  match goal with
  | |- context [if ?c then _ else _] => destruct c
  end.

Lemma added_of_trace w w' l :
  trace w' = (trace w ++ l)%list -> added w w' = l.
Proof.
  intros H. unfold added. rewrite H. apply skipn_length_app.
Qed.

Lemma trace_trans w w1 w2 l1 l2 :
  trace w1 = (trace w ++ l1)%list -> trace w2 = (trace w1 ++ l2)%list ->
  trace w2 = (trace w ++ (l1 ++ l2))%list.
Proof.
  intros H1 H2. rewrite H2, H1, app_assoc. reflexivity.
Qed.

(** ** [updateState] *)

Lemma updateState_trace svc k v skip forced w :
  trace (updateState svc k v skip forced w) =
    (trace w ++
     (if strict_eq v (get k (states w)) && negb forced
      then [Log debug "Ignoring update"]
      else if skip then [LogState k (get k (states w)) v]
           else [LogState k (get k (states w)) v;
                 UpdateCharacteristic svc k v]))%list.
Proof.
  unfold updateState, printStateInfo.
  destruct (strict_eq v (get k (states w)) && negb forced), skip; simpl;
    rewrite <- ?app_assoc; reflexivity.
Qed.

Lemma updateState_states svc k v skip forced w :
  states (updateState svc k v skip forced w) =
    if strict_eq v (get k (states w)) && negb forced then states w
    else set k v (states w).
Proof.
  unfold updateState, printStateInfo.
  destruct (strict_eq v (get k (states w)) && negb forced), skip;
    reflexivity.
Qed.

(** After [updateState] the key holds the value, in every case. *)
Lemma updateState_get_same svc k v skip forced w :
  get k (states (updateState svc k v skip forced w)) = v.
Proof.
  rewrite updateState_states.
  destruct (strict_eq_spec v (get k (states w))) as [E|E], forced; simpl;
    auto using get_set_same.
Qed.

Lemma updateState_get_other svc k k' v skip forced w :
  k <> k' ->
  get k' (states (updateState svc k v skip forced w)) = get k' (states w).
Proof.
  intros Hk. rewrite updateState_states.
  destruct (strict_eq v (get k (states w)) && negb forced);
    auto using get_set_other.
Qed.

(** [updateState] touches the states and the trace only. *)
Lemma updateState_frame svc k v skip forced w :
  let w' := updateState svc k v skip forced w in
  device w' = device w /\ session w' = session w /\
  sessionAlive w' = sessionAlive w /\ lastUpdated w' = lastUpdated w /\
  resettingOutletOff w' = resettingOutletOff w /\ context w' = context w /\
  queue w' = queue w /\ timeouts w' = timeouts w /\ calls w' = calls w /\
  inTask w' = inTask w.
Proof.
  unfold updateState, printStateInfo.
  destruct (strict_eq v (get k (states w)) && negb forced), skip; simpl;
    repeat split.
Qed.

(** C5: an update with the stored value and [forced] unset leaves the
    states as they are and notifies nothing; with [forced] set the value
    is recorded and, unless the characteristic update is skipped, the
    service is notified even when nothing changed; so of two identical
    updates in a row the second notifies nothing, and a value that was
    new is notified exactly once. *)
Theorem updateState_change_suppression (svc : ServiceName) (k : StateKey)
  (v : CharacteristicValue) (skip : bool) (w : World) :
  (v = get k (states w) ->
     states (updateState svc k v skip false w) = states w /\
     notifications (added w (updateState svc k v skip false w)) = []) /\
  (get k (states (updateState svc k v skip true w)) = v /\
   notifications (added w (updateState svc k v false true w)) =
     [UpdateCharacteristic svc k v]) /\
  (let w1 := updateState svc k v false false w in
   let w2 := updateState svc k v false false w1 in
   states w2 = states w1 /\
   notifications (added w1 w2) = [] /\
   (v <> get k (states w) ->
      notifications (added w w2) = [UpdateCharacteristic svc k v])).
Proof.
  split; [|split].
  - intros E.
    rewrite updateState_states,
      (added_of_trace _ _ _ (updateState_trace svc k v skip false w)).
    rewrite <- E, strict_eq_refl. simpl. auto.
  - split; [apply updateState_get_same|].
    rewrite (added_of_trace _ _ _ (updateState_trace svc k v false true w)).
    rewrite andb_false_r. reflexivity.
  - cbv zeta.
    set (w1 := updateState svc k v false false w).
    assert (get k (states w1) = v) as Hv by apply updateState_get_same.
    pose proof (updateState_trace svc k v false false w1) as T2.
    rewrite Hv, strict_eq_refl in T2. simpl in T2.
    split; [|split].
    + rewrite updateState_states, Hv, strict_eq_refl. reflexivity.
    + rewrite (added_of_trace _ _ _ T2). reflexivity.
    + intros N.
      pose proof (updateState_trace svc k v false false w) as T1.
      rewrite (strict_eq_neq _ _ N) in T1. simpl in T1.
      rewrite (added_of_trace _ _ _ (trace_trans _ _ _ _ _ T1 T2)).
      reflexivity.
Qed.

Lemma updateState_change_suppression_witness :
  (states (updateState outlet On (VBool false) false false connected) =
     states connected /\
   notifications
     (added connected
        (updateState outlet On (VBool false) false false connected)) = []) /\
  notifications
    (added connected
       (updateState outlet On (VBool true) false false
          (updateState outlet On (VBool true) false false connected))) =
    [UpdateCharacteristic outlet On (VBool true)].
Proof.
  split.
  - apply (proj1 (updateState_change_suppression outlet On (VBool false)
                    false connected)).
    reflexivity.
  - apply (proj2 (proj2 (updateState_change_suppression outlet On
                           (VBool true) false connected))).
    vm_compute. discriminate.
Defined.

(** ** [computeAll] *)

Lemma computeContactSensorState_log_trace w :
  trace (computeContactSensorState_log w) =
    (trace w ++
     [Log debug (if sessionAlive w then "Contact detected"
                 else "Contact NOT detected")])%list.
Proof.
  unfold computeContactSensorState_log. destruct (sessionAlive w);
    reflexivity.
Qed.

Lemma computeContactSensorState_log_states w :
  states (computeContactSensorState_log w) = states w.
Proof.
  unfold computeContactSensorState_log. destruct (sessionAlive w);
    reflexivity.
Qed.

Lemma computeAll_device w : device (computeAll w) = device w.
Proof.
  unfold computeAll. cbv zeta.
  repeat match goal with
    | |- context [device (updateState ?s ?k ?v ?a ?b ?x)] =>
        rewrite (proj1 (updateState_frame s k v a b x))
    end.
  unfold computeContactSensorState_log.
  destruct (sessionAlive _); simpl;
    rewrite !(proj1 (updateState_frame _ _ _ _ _ _)); reflexivity.
Qed.

Lemma computeAll_LockCurrentState w :
  get LockCurrentState (states (computeAll w)) = computeLockCurrentState w.
Proof.
  unfold computeAll. cbv zeta.
  rewrite updateState_get_other by discriminate.
  rewrite computeContactSensorState_log_states.
  rewrite 2 updateState_get_other by discriminate.
  rewrite updateState_get_same. reflexivity.
Qed.

Lemma computeAll_LockTargetState w :
  get LockTargetState (states (computeAll w)) = computeLockCurrentState w.
Proof.
  unfold computeAll. cbv zeta.
  rewrite updateState_get_other by discriminate.
  rewrite computeContactSensorState_log_states.
  rewrite updateState_get_other by discriminate.
  rewrite updateState_get_same.
  unfold computeLockCurrentState.
  rewrite (proj1 (updateState_frame _ _ _ _ _ _)). reflexivity.
Qed.

(** C9: right after a reconciliation pass the current lock state is
    SECURED if and only if the device record has [isDisabled] equal to 1,
    and UNSECURED otherwise. *)
Theorem computeAll_lock_current (w : World) :
  let w' := computeAll w in
  (get LockCurrentState (states w') = VNum LockCurrentState.SECURED <->
   isDisabled (device w') = 1) /\
  (isDisabled (device w') <> 1 ->
   get LockCurrentState (states w') = VNum LockCurrentState.UNSECURED).
Proof.
  cbv zeta.
  rewrite computeAll_LockCurrentState, computeAll_device.
  unfold computeLockCurrentState.
  destruct (Z.eqb_spec (isDisabled (device w)) 1) as [E|E]; split.
  - tauto.
  - congruence.
  - split; [discriminate | congruence].
  - reflexivity.
Qed.

Lemma computeAll_lock_current_witness :
  get LockCurrentState (states (computeAll after_failed_disable)) =
    VNum LockCurrentState.UNSECURED /\
  get LockCurrentState (states (computeAll constructed_disabled)) =
    VNum LockCurrentState.SECURED.
Proof.
  split.
  - apply (proj2 (computeAll_lock_current after_failed_disable)).
    vm_compute. discriminate.
  - apply (proj2 (proj1 (computeAll_lock_current constructed_disabled))).
    reflexivity.
Defined.

(** C3, as worded, fails: after the failed command the stored target is
    SECURED while the device is enabled; the reconciliation pass stores
    UNSECURED as the target and tells the lock service nothing about it. *)
Lemma target_always_notified_counterexample :
  ~ target_always_notified after_failed_disable.
Proof.
  unfold target_always_notified. vm_compute. discriminate.
Qed.

Lemma computeAll_trace w :
  exists a b c d,
    trace (computeAll w) =
      (trace w ++ [Log debug "Computing all"] ++ a ++ b ++ c ++
       [Log debug (if sessionAlive w then "Contact detected"
                   else "Contact NOT detected")] ++ d)%list /\
    notifications_of LockTargetState a = [] /\
    (b = [Log debug "Ignoring update"] \/
     exists old, b = [LogState LockTargetState old
                        (computeLockCurrentState w)]) /\
    notifications_of LockTargetState c = [] /\
    notifications_of LockTargetState d = [].
Proof.
  unfold computeAll. cbv zeta.
  set (w0 := emit (Log debug "Computing all") w).
  set (w1 := updateState lock LockCurrentState _ false false w0).
  set (w2 := updateState lock LockTargetState _ true false w1).
  set (w3 := updateState outlet On _ false false w2).
  set (w4 := computeContactSensorState_log w3).
  pose proof (updateState_trace lock LockCurrentState
                (computeLockCurrentState w0) false false w0) as T1.
  pose proof (updateState_trace lock LockTargetState
                (computeLockCurrentState w1) true false w1) as T2.
  pose proof (updateState_trace outlet On (computeOutletOn w2)
                false false w2) as T3.
  pose proof (computeContactSensorState_log_trace w3) as T4.
  pose proof (updateState_trace contactSensor ContactSensorState
                (computeContactSensorState w4) false false w4) as T5.
  fold w1 in T1. fold w2 in T2. fold w3 in T3. fold w4 in T4.
  assert (sessionAlive w3 = sessionAlive w) as HA.
  { unfold w3, w2, w1.
    rewrite !(proj1 (proj2 (proj2 (updateState_frame _ _ _ _ _ _)))).
    reflexivity. }
  assert (computeLockCurrentState w1 = computeLockCurrentState w) as HL.
  { unfold computeLockCurrentState, w1.
    rewrite (proj1 (updateState_frame _ _ _ _ _ _)). reflexivity. }
  rewrite HA in T4. rewrite HL in T2.
  pose proof T5 as T. rewrite T4, T3, T2, T1 in T.
  unfold w0 in T. simpl trace in T. rewrite <- !app_assoc in T.
  eexists _, _, _, _. split; [exact T|split; [|split; [|split]]].
  - case_if; reflexivity.
  - case_if; [left; reflexivity | right; eauto].
  - case_if; reflexivity.
  - case_if; reflexivity.
Qed.

(** C3, amended: the reconciliation pass updates the lock target with
    [skipCharacteristicUpdate] set and [forced] unset: afterwards the
    stored target is the computed current state, equal to the stored
    current state, and the lock service was sent no notification about the
    target, whether or not the stored value changed. *)
Theorem computeAll_mirrors_target_silently (w : World) :
  let w' := computeAll w in
  get LockTargetState (states w') = computeLockCurrentState w /\
  get LockTargetState (states w') = get LockCurrentState (states w') /\
  notifications_of LockTargetState (added w w') = [].
Proof.
  cbv zeta. split; [|split].
  - apply computeAll_LockTargetState.
  - rewrite computeAll_LockTargetState, computeAll_LockCurrentState.
    reflexivity.
  - destruct (computeAll_trace w) as (a & b & c & d & T & Ha & Hb & Hc & Hd).
    rewrite (added_of_trace _ _ _ T).
    unfold notifications_of in *.
    rewrite !filter_app, Ha, Hc, Hd.
    destruct Hb as [-> | [old ->]]; reflexivity.
Qed.

(** ** The queue *)

Lemma updateState_extends svc k v skip forced w :
  exists l, trace (updateState svc k v skip forced w) = (trace w ++ l)%list.
Proof. rewrite updateState_trace. eauto. Qed.

Lemma lock_completion_extends fulfilled v w :
  exists l, trace (lock_completion fulfilled v w) = (trace w ++ l)%list.
Proof.
  unfold lock_completion. destruct fulfilled.
  - apply updateState_extends.
  - rewrite updateState_trace. simpl. rewrite <- app_assoc. eauto.
Qed.

Lemma outlet_completion_extends fulfilled w :
  exists l, trace (outlet_completion fulfilled w) = (trace w ++ l)%list.
Proof.
  unfold outlet_completion. destruct fulfilled; simpl.
  - exists []. rewrite app_nil_r. reflexivity.
  - eauto.
Qed.

Lemma lock_completion_target fulfilled v w :
  get LockTargetState (states (lock_completion fulfilled v w)) =
    get LockTargetState (states w).
Proof.
  unfold lock_completion. destruct fulfilled;
    rewrite updateState_get_other by discriminate; reflexivity.
Qed.

Lemma outlet_completion_states fulfilled w :
  states (outlet_completion fulfilled w) = states w.
Proof. destruct fulfilled; reflexivity. Qed.

(** Starting tasks adds effects and leaves the stored lock target. *)
Lemma start_next_extends tasks :
  forall w, exists l, trace (start_next tasks w) = (trace w ++ l)%list.
Proof.
  induction tasks as [|t rest IH]; intros w; simpl.
  - exists []. rewrite app_nil_r. reflexivity.
  - destruct t as [|p v|p]; simpl.
    + eauto.
    + destruct (status_of p w); simpl; [exists []; rewrite app_nil_r; auto|].
      destruct (lock_completion_extends (is_ok o) v (set_inTask true w))
        as [l1 H1].
      match goal with |- context [start_next rest ?x] =>
        destruct (IH x) as [l2 H2]; rewrite H2 end.
      simpl. rewrite H1. simpl. rewrite <- !app_assoc. eauto.
    + destruct (status_of p w); simpl; [exists []; rewrite app_nil_r; auto|].
      destruct (outlet_completion_extends (is_ok o) (set_inTask true w))
        as [l1 H1].
      match goal with |- context [start_next rest ?x] =>
        destruct (IH x) as [l2 H2]; rewrite H2 end.
      simpl. rewrite H1. simpl. rewrite <- !app_assoc. eauto.
Qed.

Lemma start_next_target tasks :
  forall w, get LockTargetState (states (start_next tasks w)) =
            get LockTargetState (states w).
Proof.
  induction tasks as [|t rest IH]; intros w; simpl; auto.
  destruct t as [|p v|p]; simpl; auto.
  - destruct (status_of p w); simpl; auto.
    rewrite IH.
    exact (lock_completion_target (is_ok o) v (set_inTask true w)).
  - destruct (status_of p w); simpl; auto.
    rewrite IH.
    exact (f_equal (get LockTargetState)
             (outlet_completion_states (is_ok o) (set_inTask true w))).
Qed.

Lemma queue_add_extends t w :
  exists l, trace (queue_add t w) = (trace w ++ l)%list.
Proof.
  unfold queue_add. destruct (running (queue w)); simpl.
  - exists []. rewrite app_nil_r. reflexivity.
  - apply start_next_extends.
Qed.

Lemma queue_add_target t w :
  get LockTargetState (states (queue_add t w)) =
    get LockTargetState (states w).
Proof.
  unfold queue_add. destruct (running (queue w)); simpl; auto.
  apply start_next_target.
Qed.

(** ** [setLockTargetState] *)

Lemma setLockTargetState_ignored v w :
  v = get LockTargetState (states w) \/ v = get LockCurrentState (states w) ->
  setLockTargetState v w = emit (Log debug "Ignoring setLockTargetState") w.
Proof.
  intros H. unfold setLockTargetState.
  destruct (strict_eq_spec v (get LockTargetState (states w))),
    (strict_eq_spec v (get LockCurrentState (states w))); simpl; tauto.
Qed.

(** Past the guard: the target is stored and notified, then the value
    decides which command goes out, if any. *)
Lemma setLockTargetState_proceeds v w :
  v <> get LockTargetState (states w) ->
  v <> get LockCurrentState (states w) ->
  let w1 := updateState lock LockTargetState v false false w in
  let w' := setLockTargetState v w in
  trace w1 =
    (trace w ++ [LogState LockTargetState (get LockTargetState (states w)) v;
                 UpdateCharacteristic lock LockTargetState v])%list /\
  get LockTargetState (states w') = v /\
  (v = VNum LockTargetState.SECURED ->
   exists l, trace w' =
     (trace w1 ++
      [Log info "Attempt to";
       ApiCall (List.length (calls w))
         (Client.miniDisable (address (device w))) (inTask w)] ++ l)%list) /\
  (v = VNum LockTargetState.UNSECURED ->
   exists l, trace w' =
     (trace w1 ++
      [Log info "Attempt to";
       ApiCall (List.length (calls w))
         (Client.miniEnable (address (device w))) (inTask w)] ++ l)%list) /\
  (v <> VNum LockTargetState.SECURED ->
   v <> VNum LockTargetState.UNSECURED ->
   w' = emit (Log error "Unknown LockTargetState") w1).
Proof.
  intros Nt Nc. cbv zeta.
  set (w1 := updateState lock LockTargetState v false false w).
  pose proof (updateState_trace lock LockTargetState v false false w) as T1.
  rewrite (strict_eq_neq _ _ Nt) in T1. simpl in T1. fold w1 in T1.
  pose proof (updateState_frame lock LockTargetState v false false w) as F.
  cbv zeta in F. fold w1 in F.
  destruct F as (Fd & _ & _ & _ & _ & _ & _ & _ & Fc & Fi).
  assert (get LockTargetState (states w1) = v) as G1
    by apply updateState_get_same.
  assert (setLockTargetState v w =
          if strict_eq v (VNum LockTargetState.SECURED) then
            let (promise, w) := doEnableOrDisable Disable w1 in
            queue_add (LockCompletionTask promise v) w
          else if strict_eq v (VNum LockTargetState.UNSECURED) then
            let (promise, w) := doEnableOrDisable Enable w1 in
            queue_add (LockCompletionTask promise v) w
          else emit (Log error "Unknown LockTargetState") w1) as E.
  { unfold setLockTargetState.
    rewrite (strict_eq_neq _ _ Nt), (strict_eq_neq _ _ Nc). reflexivity. }
  rewrite E. clear E.
  split; [exact T1|].
  destruct (strict_eq_spec v (VNum LockTargetState.SECURED)) as [Es|Ns];
    [|destruct (strict_eq_spec v (VNum LockTargetState.UNSECURED))
        as [Eu|Nu]].
  - unfold doEnableOrDisable, invoke. cbv zeta. simpl calls. simpl device.
    simpl inTask.
    match goal with |- context [queue_add ?t ?x] =>
      destruct (queue_add_extends t x) as [l Hl];
      pose proof (queue_add_target t x) as Ht
    end.
    simpl trace in Hl. rewrite <- !app_assoc in Hl. simpl app in Hl.
    rewrite Fc, Fd, Fi in *.
    split; [rewrite Ht; exact G1|].
    split; [intros _; exists l; exact Hl|].
    split; [intros Eu; rewrite Eu in Es; discriminate|].
    intros N; contradiction.
  - unfold doEnableOrDisable, invoke. cbv zeta. simpl calls. simpl device.
    simpl inTask.
    match goal with |- context [queue_add ?t ?x] =>
      destruct (queue_add_extends t x) as [l Hl];
      pose proof (queue_add_target t x) as Ht
    end.
    simpl trace in Hl. rewrite <- !app_assoc in Hl. simpl app in Hl.
    rewrite Fc, Fd, Fi in *.
    split; [rewrite Ht; exact G1|].
    split; [intros Es; contradiction|].
    split; [intros _; exists l; exact Hl|].
    intros _ N; contradiction.
  - split; [exact G1|].
    split; [intros Es; contradiction|].
    split; [intros Eu; contradiction|].
    reflexivity.
Qed.

(** C2, as worded, fails twice: after a failed command the value SECURED
    equals the stored target and not the stored current state, and the
    call is ignored all the same; and a value that is neither SECURED nor
    UNSECURED updates the target and issues no command. *)
Lemma ignored_iff_both_counterexample :
  ~ ignored_iff_both (VNum LockTargetState.SECURED) after_failed_disable /\
  ~ ignored_iff_both (VNum LockCurrentState.JAMMED) connected.
Proof.
  split; unfold ignored_iff_both; cbv zeta.
  - intros [[H _] _].
    assert (VNum LockTargetState.SECURED =
              getLockCurrentState after_failed_disable) as E.
    { apply H. vm_compute. repeat split. }
    vm_compute in E. discriminate.
  - intros [_ H].
    assert (api_calls
              (added connected
                 (setLockTargetState (VNum LockCurrentState.JAMMED)
                    connected)) <> []) as N.
    { apply H. vm_compute. intros [E _]. discriminate. }
    apply N. vm_compute. reflexivity.
Qed.

(** C2, amended: [setLockTargetState] changes no state, notifies nothing
    and calls nothing exactly when the value equals the stored target or
    the stored current state; in every other case the target is updated
    at once and notified, and the disable or enable command is issued
    when the value is SECURED or UNSECURED. *)
Theorem setLockTargetState_ignored_iff_either (value : CharacteristicValue)
  (w : World) :
  let w' := setLockTargetState value w in
  (no_op w w' <->
   value = getLockTargetState w \/ value = getLockCurrentState w) /\
  (value <> getLockTargetState w -> value <> getLockCurrentState w ->
   getLockTargetState w' = value /\
   In (UpdateCharacteristic lock LockTargetState value) (added w w') /\
   (value = VNum LockTargetState.SECURED ->
    In (ApiCall (List.length (calls w))
          (Client.miniDisable (address (device w))) (inTask w))
       (added w w')) /\
   (value = VNum LockTargetState.UNSECURED ->
    In (ApiCall (List.length (calls w))
          (Client.miniEnable (address (device w))) (inTask w))
       (added w w'))).
Proof.
  cbv zeta. unfold getLockTargetState, getLockCurrentState.
  assert (value <> get LockTargetState (states w) ->
          value <> get LockCurrentState (states w) ->
          get LockTargetState (states (setLockTargetState value w)) = value /\
          In (UpdateCharacteristic lock LockTargetState value)
            (added w (setLockTargetState value w)) /\
          (value = VNum LockTargetState.SECURED ->
           In (ApiCall (List.length (calls w))
                 (Client.miniDisable (address (device w))) (inTask w))
              (added w (setLockTargetState value w))) /\
          (value = VNum LockTargetState.UNSECURED ->
           In (ApiCall (List.length (calls w))
                 (Client.miniEnable (address (device w))) (inTask w))
              (added w (setLockTargetState value w)))) as P.
  { intros Nt Nc.
    destruct (setLockTargetState_proceeds value w Nt Nc)
      as (T1 & G & Hs & Hu & Hx).
    split; [exact G|].
    split; [|split].
    - destruct (strict_eq_spec value (VNum LockTargetState.SECURED))
        as [Es|Ns];
        [|destruct (strict_eq_spec value (VNum LockTargetState.UNSECURED))
            as [Eu|Nu]].
      + destruct (Hs Es) as [l Hl].
        rewrite (added_of_trace _ _ _ (trace_trans _ _ _ _ _ T1 Hl)).
        simpl. auto.
      + destruct (Hu Eu) as [l Hl].
        rewrite (added_of_trace _ _ _ (trace_trans _ _ _ _ _ T1 Hl)).
        simpl. auto.
      + rewrite (Hx Ns Nu).
        erewrite added_of_trace
          by (simpl trace; rewrite T1, <- app_assoc; reflexivity).
        simpl. auto.
    - intros Es. destruct (Hs Es) as [l Hl].
      rewrite (added_of_trace _ _ _ (trace_trans _ _ _ _ _ T1 Hl)).
      simpl. auto.
    - intros Eu. destruct (Hu Eu) as [l Hl].
      rewrite (added_of_trace _ _ _ (trace_trans _ _ _ _ _ T1 Hl)).
      simpl. auto. }
  split; [split|exact P].
  - intros (Hst & _ & _).
    destruct (strict_eq_spec value (get LockTargetState (states w)))
      as [Et|Nt]; [auto|].
    destruct (strict_eq_spec value (get LockCurrentState (states w)))
      as [Ec|Nc]; [auto|].
    destruct (P Nt Nc) as [G _]. rewrite Hst in G. congruence.
  - intros H. rewrite (setLockTargetState_ignored value w H).
    unfold no_op. erewrite added_of_trace by (simpl trace; reflexivity).
    repeat split.
Qed.

Lemma setLockTargetState_ignored_iff_either_witness :
  getLockTargetState
    (setLockTargetState (VNum LockTargetState.SECURED) connected) =
    VNum LockTargetState.SECURED /\
  In (ApiCall 2 (Client.miniDisable "A1") false)
    (added connected
       (setLockTargetState (VNum LockTargetState.SECURED) connected)).
Proof.
  destruct (proj2 (setLockTargetState_ignored_iff_either
                     (VNum LockTargetState.SECURED) connected))
    as (G & _ & Hs & _).
  - vm_compute. discriminate.
  - vm_compute. discriminate.
  - split; [exact G | exact (Hs eq_refl)].
Defined.

(** C10: a value that is neither SECURED nor UNSECURED and differs from
    the stored target and current states is stored as the target and
    notified; no command is issued, nothing is queued and the current
    state stays, so target and current differ, until a reconciliation pass
    makes them equal again. *)
Theorem setLockTargetState_unknown_value (value : CharacteristicValue)
  (w : World) :
  value <> VNum LockTargetState.SECURED ->
  value <> VNum LockTargetState.UNSECURED ->
  value <> getLockTargetState w ->
  value <> getLockCurrentState w ->
  let w' := setLockTargetState value w in
  getLockTargetState w' = value /\
  notifications (added w w') =
    [UpdateCharacteristic lock LockTargetState value] /\
  api_calls (added w w') = [] /\
  calls w' = calls w /\
  queue w' = queue w /\
  getLockCurrentState w' = getLockCurrentState w /\
  getLockTargetState w' <> getLockCurrentState w' /\
  getLockTargetState (computeAll w') = getLockCurrentState (computeAll w').
Proof.
  unfold getLockTargetState, getLockCurrentState.
  intros Ns Nu Nt Nc. cbv zeta.
  destruct (setLockTargetState_proceeds value w Nt Nc)
    as (T1 & G & _ & _ & Hx).
  pose proof (updateState_frame lock LockTargetState value false false w)
    as F. cbv zeta in F.
  destruct F as (_ & _ & _ & _ & _ & _ & Fq & _ & Fc & _).
  assert (get LockCurrentState (states (setLockTargetState value w)) =
          get LockCurrentState (states w)) as C.
  { rewrite (Hx Ns Nu). simpl states.
    apply updateState_get_other. discriminate. }
  split; [exact G|].
  split; [|split; [|split; [|split; [|split; [|split]]]]].
  - rewrite (Hx Ns Nu).
    erewrite added_of_trace
      by (simpl trace; rewrite T1, <- app_assoc; reflexivity).
    reflexivity.
  - rewrite (Hx Ns Nu).
    erewrite added_of_trace
      by (simpl trace; rewrite T1, <- app_assoc; reflexivity).
    reflexivity.
  - rewrite (Hx Ns Nu). exact Fc.
  - rewrite (Hx Ns Nu). exact Fq.
  - exact C.
  - rewrite G, C. exact Nc.
  - rewrite computeAll_LockTargetState, computeAll_LockCurrentState.
    reflexivity.
Qed.

Lemma setLockTargetState_unknown_value_witness :
  getLockTargetState
    (setLockTargetState (VNum LockCurrentState.JAMMED) connected) =
    VNum LockCurrentState.JAMMED /\
  api_calls
    (added connected
       (setLockTargetState (VNum LockCurrentState.JAMMED) connected)) = [] /\
  getLockCurrentState
    (setLockTargetState (VNum LockCurrentState.JAMMED) connected) =
    VNum LockCurrentState.UNSECURED.
Proof.
  destruct (setLockTargetState_unknown_value (VNum LockCurrentState.JAMMED)
              connected)
    as (G & _ & A & _ & _ & C & _).
  - vm_compute. discriminate.
  - vm_compute. discriminate.
  - vm_compute. discriminate.
  - vm_compute. discriminate.
  - split; [exact G | split; [exact A | exact C]].
Defined.

Lemma nth_error_snoc {A} (l : list A) (x : A) :
  nth_error (l ++ [x])%list (List.length l) = Some x.
Proof.
  induction l as [|y l IH]; simpl; auto.
Qed.

Lemma lock_completion_current fulfilled v w :
  get LockCurrentState (states (lock_completion fulfilled v w)) =
    if fulfilled then v else VNum LockCurrentState.UNKNOWN.
Proof.
  unfold lock_completion. destruct fulfilled; apply updateState_get_same.
Qed.

(** ** [setOutletOn] *)

(** The revert fails to happen in the sample run where the guard was left
    set: no session is alive and no timeout is pending; the call clears
    the guard and schedules no revert. *)
Lemma revert_when_not_alive_counterexample :
  ~ revert_when_not_alive (VBool true) stale_guard.
Proof.
  unfold revert_when_not_alive. intros H.
  destruct (H eq_refl) as (_ & Ht & _).
  vm_compute in Ht. inversion Ht.
Qed.

Lemma setOutletOn_when_not_alive v w :
  sessionAlive w = false ->
  setOutletOn v w =
    if resettingOutletOff w then set_resettingOutletOff false w
    else set_timeouts (S (timeouts w))
           (set_resettingOutletOff true
              (emit (Log warn "Session not alive") w)).
Proof.
  intros HA. unfold setOutletOn. rewrite HA. reflexivity.
Qed.

(** The path on which the revert works: with no session alive
    [setOutletOn] calls nothing and queues nothing; when moreover the guard
    is not set, the guard is set and a timeout is scheduled, and when the
    timeout fires next, still with no session alive, [On] is stored as
    [false] and sent to the host with [setValue], the re-entrant call this
    causes is absorbed by the guard, which is cleared, and nothing else is
    scheduled or called. *)
Lemma setOutletOn_not_alive (value : CharacteristicValue) (w : World) :
  sessionAlive w = false ->
  let w1 := setOutletOn value w in
  api_calls (added w w1) = [] /\ calls w1 = calls w /\ queue w1 = queue w /\
  (resettingOutletOff w = false ->
   let w2 := step w1 TimeoutFires in
   resettingOutletOff w1 = true /\
   timeouts w1 = S (timeouts w) /\
   sessionAlive w2 = false /\
   get On (states w2) = VBool false /\
   emissions (added w1 w2) = [SetValue outlet On (VBool false)] /\
   api_calls (added w1 w2) = [] /\
   resettingOutletOff w2 = false /\
   timeouts w2 = timeouts w /\
   forall v, timeouts (setOutletOn v w2) = S (timeouts w2)).
Proof.
  intros HA. cbv zeta. rewrite (setOutletOn_when_not_alive value w HA).
  destruct (resettingOutletOff w) eqn:HG.
  - split; [|split; [|split]]; try reflexivity; [|discriminate].
    erewrite added_of_trace
      by (simpl trace; rewrite app_nil_r; reflexivity).
    reflexivity.
  - split; [|split; [|split]]; try reflexivity.
    + erewrite added_of_trace by (simpl trace; reflexivity). reflexivity.
    + intros _.
      set (w1 := set_timeouts _ _).
      assert (step w1 TimeoutFires =
              timeout_callback (set_timeouts (timeouts w) w1)) as E
        by reflexivity.
      rewrite E. clear E.
      unfold timeout_callback, setValue_On. cbv zeta.
      set (x := set_timeouts (timeouts w) w1).
      pose proof (updateState_frame outlet On (VBool false) true false x)
        as F. cbv zeta in F.
      destruct F as (_ & _ & FA & _ & FG & _ & _ & FT & _ & _).
      pose proof (updateState_trace outlet On (VBool false) true false x)
        as T.
      pose proof (updateState_get_same outlet On (VBool false) true false x)
        as G.
      revert FA FG FT T G.
      generalize (updateState outlet On (VBool false) true false x).
      intros y FA FG FT T G.
      assert (setOutletOn (VBool false)
                (emit (SetValue outlet On (VBool false)) y) =
              set_resettingOutletOff false
                (emit (SetValue outlet On (VBool false)) y)) as E.
      { rewrite setOutletOn_when_not_alive by (simpl; rewrite FA; exact HA).
        simpl resettingOutletOff. rewrite FG. reflexivity. }
      rewrite E. clear E.
      assert (trace y = (trace w1 ++
                (if strict_eq (VBool false) (get On (states x)) && negb false
                 then [Log debug "Ignoring update"]
                 else [LogState On (get On (states x)) (VBool false)]))%list)
        as T' by exact T.
      split; [reflexivity|]. split; [reflexivity|].
      split; [simpl; rewrite FA; exact HA|].
      split; [exact G|].
      split; [|split; [|split; [|split]]].
      * erewrite added_of_trace
          by (simpl trace; rewrite T', <- app_assoc; reflexivity).
        case_if; reflexivity.
      * erewrite added_of_trace
          by (simpl trace; rewrite T', <- app_assoc; reflexivity).
        case_if; reflexivity.
      * reflexivity.
      * simpl. rewrite FT. reflexivity.
      * intros v.
        rewrite setOutletOn_when_not_alive by (simpl; rewrite FA; exact HA).
        reflexivity.
Qed.

Lemma setOutletOn_not_alive_witness :
  api_calls (added disconnected (setOutletOn (VBool true) disconnected)) = [] /\
  get On (states (step (setOutletOn (VBool true) disconnected) TimeoutFires)) =
    VBool false /\
  emissions
    (added (setOutletOn (VBool true) disconnected)
       (step (setOutletOn (VBool true) disconnected) TimeoutFires)) =
    [SetValue outlet On (VBool false)] /\
  resettingOutletOff
    (step (setOutletOn (VBool true) disconnected) TimeoutFires) = false.
Proof.
  destruct (setOutletOn_not_alive (VBool true) disconnected eq_refl)
    as (A & _ & _ & H).
  destruct (H eq_refl) as (_ & _ & _ & G & E & _ & R & _).
  split; [exact A | split; [exact G | split; [exact E | exact R]]].
Defined.

(** C7: the claim fails on the code.  The guard [resettingOutletOff]
    cannot tell the re-entrant call of the revert from a call of the user,
    and the revert that the code sets out to make is missed on two paths
    that the accessory can take.  In the sample run the guard was left set
    (a vehicle was connected when the timeout fired, so the re-entrant
    call took the other branch): from such a state a call with no session
    alive only clears the guard; nothing is scheduled, stored or sent to
    the host.  And when a second call arrives before the timeout of the
    first has fired, it is taken for the re-entrant call; the re-entrant
    call of the revert is then not suppressed: it warns again, sets the
    guard and schedules a further revert. *)
Theorem setOutletOn_revert_missed :
  (sessionAlive stale_guard = false /\
   resettingOutletOff stale_guard = true /\
   timeouts stale_guard = O) /\
  (forall value w,
     sessionAlive w = false -> resettingOutletOff w = true ->
     let w1 := setOutletOn value w in
     added w w1 = [] /\ states w1 = states w /\ calls w1 = calls w /\
     queue w1 = queue w /\ timeouts w1 = timeouts w /\
     resettingOutletOff w1 = false) /\
  (forall value value' w,
     sessionAlive w = false -> resettingOutletOff w = false ->
     let w1 := setOutletOn value w in
     let w2 := setOutletOn value' w1 in
     let w3 := step w2 TimeoutFires in
     timeouts w1 = S (timeouts w) /\
     added w1 w2 = [] /\ timeouts w2 = timeouts w1 /\
     resettingOutletOff w3 = true /\ timeouts w3 = timeouts w1 /\
     In (Log warn "Session not alive") (added w2 w3)).
Proof.
  split; [vm_compute; repeat split|]. split.
  - intros value w HA HG. cbv zeta.
    rewrite (setOutletOn_when_not_alive value w HA), HG.
    erewrite added_of_trace
      by (simpl trace; rewrite app_nil_r; reflexivity).
    repeat split.
  - intros value value' w HA HG. cbv zeta.
    rewrite (setOutletOn_when_not_alive value w HA), HG.
    set (w1 := set_timeouts _ _).
    assert (setOutletOn value' w1 = set_resettingOutletOff false w1) as E
      by (rewrite setOutletOn_when_not_alive by exact HA; reflexivity).
    rewrite E. clear E.
    split; [reflexivity|].
    split; [erewrite added_of_trace
              by (simpl trace; rewrite app_nil_r; reflexivity);
            reflexivity|].
    split; [reflexivity|].
    change (timeouts w1) with (S (timeouts w)).
    set (w2 := set_resettingOutletOff false w1).
    assert (sessionAlive w2 = false) as A2 by exact HA.
    assert (resettingOutletOff w2 = false) as G2 by reflexivity.
    assert (timeouts w2 = S (timeouts w)) as T2 by reflexivity.
    clearbody w2. clear w1.
    unfold step. rewrite T2.
    unfold timeout_callback, setValue_On. cbv zeta.
    pose proof (updateState_frame outlet On (VBool false) true false
                  (set_timeouts (timeouts w) w2)) as F.
    cbv zeta in F.
    destruct F as (_ & _ & FA & _ & FG & _ & _ & FT & _ & _).
    destruct (updateState_extends outlet On (VBool false) true false
                (set_timeouts (timeouts w) w2)) as [l T].
    revert FA FG FT T.
    generalize (updateState outlet On (VBool false) true false
                  (set_timeouts (timeouts w) w2)).
    intros y FA FG FT T. simpl in FA, FG, FT, T.
    assert (setOutletOn (VBool false)
              (emit (SetValue outlet On (VBool false)) y) =
            set_timeouts (S (timeouts y))
              (set_resettingOutletOff true
                 (emit (Log warn "Session not alive")
                    (emit (SetValue outlet On (VBool false)) y)))) as E.
    { rewrite setOutletOn_when_not_alive by (simpl; rewrite FA; exact A2).
      simpl resettingOutletOff. rewrite FG, G2. reflexivity. }
    rewrite E. clear E.
    split; [reflexivity|].
    split; [simpl; rewrite FT; reflexivity|].
    erewrite added_of_trace
      by (simpl trace; rewrite T, <- !app_assoc; reflexivity).
    apply in_or_app. right. simpl. auto.
Qed.

(** The sample run with the stale guard, and two calls in a row with no
    vehicle connected. *)
Lemma setOutletOn_revert_missed_witness :
  (timeouts (setOutletOn (VBool true) stale_guard) = O /\
   added stale_guard (setOutletOn (VBool true) stale_guard) = []) /\
  resettingOutletOff
    (step (setOutletOn (VBool true) (setOutletOn (VBool true) disconnected))
       TimeoutFires) = true.
Proof.
  destruct setOutletOn_revert_missed as ((A & G & T) & H1 & H2).
  split.
  - destruct (H1 (VBool true) stale_guard A G) as (E & _ & _ & _ & Ht & _).
    split; [rewrite Ht; exact T | exact E].
  - destruct (H2 (VBool true) (VBool true) disconnected eq_refl eq_refl)
      as (_ & _ & _ & R & _).
    exact R.
Defined.

(** ** Failures inside queue tasks *)

Lemma quiet_refl w : quiet w w.
Proof. exists []. rewrite app_nil_r. auto. Qed.

Lemma quiet_trans w1 w2 w3 : quiet w1 w2 -> quiet w2 w3 -> quiet w1 w3.
Proof.
  intros (l1 & T1 & R1) (l2 & T2 & R2). exists (l1 ++ l2)%list. split.
  - rewrite T2, T1, app_assoc. reflexivity.
  - unfold rejections in *. rewrite filter_app, R1, R2. reflexivity.
Qed.

Lemma quiet_emit e w : is_rejection e = false -> quiet w (emit e w).
Proof.
  intros H. exists [e]. split; [reflexivity|].
  unfold rejections. simpl. rewrite H. reflexivity.
Qed.

Lemma quiet_same_trace w w' : trace w' = trace w -> quiet w w'.
Proof.
  intros H. exists []. rewrite app_nil_r. auto.
Qed.

Lemma quiet_updateState svc k v skip forced w :
  quiet w (updateState svc k v skip forced w).
Proof.
  eexists. split; [apply updateState_trace|].
  repeat case_if; reflexivity.
Qed.

Lemma quiet_lock_completion fulfilled v w :
  quiet w (lock_completion fulfilled v w).
Proof.
  unfold lock_completion. destruct fulfilled.
  - apply quiet_updateState.
  - eapply quiet_trans; [|apply quiet_updateState].
    apply quiet_emit. reflexivity.
Qed.

Lemma quiet_outlet_completion fulfilled w :
  quiet w (outlet_completion fulfilled w).
Proof.
  unfold outlet_completion. destruct fulfilled.
  - apply quiet_refl.
  - apply quiet_emit. reflexivity.
Qed.

Lemma quiet_as_task body w :
  (forall x, quiet x (body x)) -> quiet w (as_task body w).
Proof.
  intros H. destruct (H (set_inTask true w)) as (l & T & R).
  exists l. split; [exact T | exact R].
Qed.

(** Starting the waiting tasks rejects none. *)
Lemma quiet_start_next tasks : forall w, quiet w (start_next tasks w).
Proof.
  induction tasks as [|t rest IH]; intros w; simpl.
  - apply quiet_same_trace. reflexivity.
  - destruct t as [|p v|p]; simpl.
    + exists [ApiCall (List.length (calls w)) Client.session true].
      split; reflexivity.
    + destruct (status_of p w); [apply quiet_same_trace; reflexivity|].
      eapply quiet_trans; [|apply IH].
      eapply quiet_trans; [|apply quiet_emit; reflexivity].
      apply quiet_as_task. intros x. apply quiet_lock_completion.
    + destruct (status_of p w); [apply quiet_same_trace; reflexivity|].
      eapply quiet_trans; [|apply IH].
      eapply quiet_trans; [|apply quiet_emit; reflexivity].
      apply quiet_as_task. intros x. apply quiet_outlet_completion.
Qed.

Lemma quiet_added w w' : quiet w w' -> rejections (added w w') = [].
Proof.
  intros (l & T & R). rewrite (added_of_trace _ _ _ T). exact R.
Qed.

Lemma lock_completion_failed_trace v x :
  exists l,
    trace (lock_completion false v x) =
      (trace x ++ Log error "Failed to enable/disable" :: l)%list.
Proof.
  unfold lock_completion. rewrite updateState_trace. simpl trace.
  rewrite <- app_assoc. eexists. reflexivity.
Qed.

(** The end of the request, up to the point where the awaiting task goes
    on. *)
Lemma settle_pending id c o w :
  nth_error (calls w) id = Some (c, Pending) ->
  exists x,
    settle id o w = resume id o x /\ quiet w x /\
    states x = states w /\ queue x = queue w.
Proof.
  intros H. unfold settle. rewrite H. cbv zeta.
  eexists. split; [reflexivity|].
  split; [|split].
  - destruct c, (is_ok o);
      first
        [ exists [ApiSettled id true; Log info "Complete to"];
          split; [simpl trace; rewrite <- app_assoc; reflexivity
                 | reflexivity]
        | exists [ApiSettled id true]; split; reflexivity
        | exists [ApiSettled id false]; split; reflexivity ].
  - destruct c, (is_ok o); reflexivity.
  - destruct c, (is_ok o); reflexivity.
Qed.

(** ** Calls and the tasks that await them *)

Lemma length_replace {A} n (x : A) l :
  List.length (replace n x l) = List.length l.
Proof.
  revert n. induction l as [|y l IH]; intros [|n]; simpl; auto.
Qed.

Lemma replace_snoc {A} (l : list A) (x y : A) :
  replace (List.length l) y (l ++ [x])%list = (l ++ [y])%list.
Proof.
  induction l as [|z l IH]; simpl; [reflexivity|]. rewrite IH. reflexivity.
Qed.

Lemma nth_error_replace_same {A} n (x y : A) l :
  nth_error l n = Some y -> nth_error (replace n x l) n = Some x.
Proof.
  revert n. induction l as [|z l IH]; intros [|n]; simpl;
    try discriminate; auto.
Qed.

Lemma nth_error_replace_other {A} n m (x : A) l :
  n <> m -> nth_error (replace n x l) m = nth_error l m.
Proof.
  revert n m. induction l as [|z l IH]; intros [|n] [|m] N; simpl; auto;
    congruence.
Qed.

Lemma nth_error_snoc2 {A} (l : list A) (x y : A) :
  nth_error (l ++ [x; y])%list (S (List.length l)) = Some y.
Proof.
  induction l as [|z l IH]; simpl; auto.
Qed.

(** The end of a request leaves alone a task that awaits another one. *)
Lemma resume_other id o x s :
  running (queue x) = Some s -> awaited s <> id -> resume id o x = x.
Proof.
  intros R N. unfold resume. rewrite R.
  destruct s as [c|c|q v|q]; simpl in N;
    match goal with |- context [(?a =? id)%nat] =>
      destruct (Nat.eqb_spec a id) as [E|E]; [congruence | reflexivity]
    end.
Qed.

(** The end of the request, up to the point where the awaiting task goes
    on, with what it leaves of the accessory. *)
Lemma settle_pending_frame id c o w :
  nth_error (calls w) id = Some (c, Pending) ->
  exists x,
    settle id o w = resume id o x /\
    (exists l, trace x = (trace w ++ l)%list /\ rejections l = [] /\
               notifications l = []) /\
    states x = states w /\ queue x = queue w /\
    calls x = replace id (c, Settled o) (calls w) /\
    device x = device w /\ inTask x = inTask w.
Proof.
  intros H. unfold settle. rewrite H. cbv zeta.
  eexists. split; [reflexivity|].
  split; [|destruct c, (is_ok o); repeat split].
  destruct c, (is_ok o);
    first
      [ exists [ApiSettled id true; Log info "Complete to"];
        split; [simpl trace; rewrite <- app_assoc; reflexivity
               | split; reflexivity]
      | exists [ApiSettled id true]; split; [|split]; reflexivity
      | exists [ApiSettled id false]; split; [|split]; reflexivity ].
Qed.

(** A request that ends while the queue runs another task settles its
    call and changes nothing else. *)
Lemma settle_early id c o x s :
  nth_error (calls x) id = Some (c, Pending) ->
  running (queue x) = Some s -> awaited s <> id ->
  quiet x (settle id o x) /\
  states (settle id o x) = states x /\
  queue (settle id o x) = queue x /\
  calls (settle id o x) = replace id (c, Settled o) (calls x) /\
  status_of id (settle id o x) = Settled o.
Proof.
  intros H R N.
  destruct (settle_pending_frame id c o x H)
    as (y & E & (l & T & Rj & _) & S & Hq & Hc & _).
  rewrite E, (resume_other id o y s) by (rewrite ?Hq; assumption).
  split; [exists l; auto|].
  repeat split; auto.
  unfold status_of. rewrite Hc, (nth_error_replace_same _ _ _ _ H).
  reflexivity.
Qed.

(** The task of [setLockTargetState], from its [await] to its end. *)
Lemma lock_task_body fulfilled v x :
  let y := as_task (lock_completion fulfilled v) x in
  let result := if fulfilled then v else VNum LockCurrentState.UNKNOWN in
  get LockCurrentState (states y) = result /\
  trace y =
    (trace x ++
     (if fulfilled then [] else [Log error "Failed to enable/disable"]) ++
     (if strict_eq result (get LockCurrentState (states x))
      then [Log debug "Ignoring update"]
      else [LogState LockCurrentState (get LockCurrentState (states x))
              result;
            UpdateCharacteristic lock LockCurrentState result]))%list /\
  calls y = calls x /\ queue y = queue x /\ inTask y = false.
Proof.
  cbv zeta. unfold as_task, lock_completion.
  destruct fulfilled.
  - split; [apply updateState_get_same|].
    split; [|split; [|split]]; try reflexivity.
    + simpl trace. rewrite updateState_trace. simpl.
      rewrite andb_true_r. case_if; reflexivity.
    + apply (updateState_frame lock LockCurrentState v false false
               (set_inTask true x)).
    + apply (updateState_frame lock LockCurrentState v false false
               (set_inTask true x)).
  - split; [apply updateState_get_same|].
    split; [|split; [|split]]; try reflexivity.
    + simpl trace. rewrite updateState_trace. simpl.
      rewrite andb_true_r, <- app_assoc. case_if; reflexivity.
    + apply (updateState_frame lock LockCurrentState
               (VNum LockCurrentState.UNKNOWN) false false
               (emit (Log error "Failed to enable/disable")
                  (set_inTask true x))).
    + apply (updateState_frame lock LockCurrentState
               (VNum LockCurrentState.UNKNOWN) false false
               (emit (Log error "Failed to enable/disable")
                  (set_inTask true x))).
Qed.

(** What the task tells the host about the current lock state: the result,
    unless the state held it already. *)
Lemma lock_task_notifies fulfilled v x l :
  let y := as_task (lock_completion fulfilled v) x in
  let result := if fulfilled then v else VNum LockCurrentState.UNKNOWN in
  notifications_of LockCurrentState l = [] ->
  forall w, trace x = (trace w ++ l)%list ->
  notifications_of LockCurrentState (added w y) =
    if strict_eq result (get LockCurrentState (states x)) then []
    else [UpdateCharacteristic lock LockCurrentState result].
Proof.
  cbv zeta. intros Hl w T.
  destruct (lock_task_body fulfilled v x) as (_ & Ty & _). cbv zeta in Ty.
  rewrite T, <- app_assoc in Ty. rewrite (added_of_trace _ _ _ Ty).
  unfold notifications_of in *. rewrite !filter_app, Hl.
  destruct fulfilled; case_if; reflexivity.
Qed.

Lemma lock_task_logs_failure v x l w :
  trace x = (trace w ++ l)%list ->
  In (Log error "Failed to enable/disable")
    (added w (as_task (lock_completion false v) x)).
Proof.
  intros T.
  destruct (lock_task_body false v x) as (_ & Ty & _). cbv zeta in Ty.
  rewrite T, <- app_assoc in Ty. rewrite (added_of_trace _ _ _ Ty).
  apply in_or_app. right. simpl. auto.
Qed.

(** A task whose request has ended when the queue starts it runs through
    at once, and the queue goes on with the tasks after it. *)
Lemma lock_task_late p v rest x o :
  status_of p x = Settled o ->
  start_next (LockCompletionTask p v :: rest) x =
    start_next rest
      (emit (TaskSettled false) (as_task (lock_completion (is_ok o) v) x)).
Proof. intros H. simpl. rewrite H. reflexivity. Qed.

Lemma outlet_task_late p rest x o :
  status_of p x = Settled o ->
  start_next (OutletCompletionTask p :: rest) x =
    start_next rest
      (emit (TaskSettled false) (as_task (outlet_completion (is_ok o)) x)).
Proof. intros H. simpl. rewrite H. reflexivity. Qed.

(** ** No handler makes a task reject *)

Lemma quiet_queue_add t w : quiet w (queue_add t w).
Proof.
  unfold queue_add. destruct (running (queue w)).
  - apply quiet_same_trace. reflexivity.
  - apply quiet_start_next.
Qed.

Lemma quiet_invoke c w : quiet w (snd (invoke c w)).
Proof. eexists. split; reflexivity. Qed.

Lemma quiet_setLockTargetState v w : quiet w (setLockTargetState v w).
Proof.
  unfold setLockTargetState.
  case_if; [apply quiet_emit; reflexivity|].
  eapply quiet_trans; [apply quiet_updateState|].
  case_if; [|case_if]; unfold doEnableOrDisable; cbv zeta.
  - match goal with |- context [invoke ?c ?x] =>
      pose proof (quiet_invoke c x) as Q; destruct (invoke c x) as [id y]
    end.
    eapply quiet_trans;
      [apply (quiet_emit (Log info "Attempt to")); reflexivity|].
    eapply quiet_trans; [exact Q | apply quiet_queue_add].
  - match goal with |- context [invoke ?c ?x] =>
      pose proof (quiet_invoke c x) as Q; destruct (invoke c x) as [id y]
    end.
    eapply quiet_trans;
      [apply (quiet_emit (Log info "Attempt to")); reflexivity|].
    eapply quiet_trans; [exact Q | apply quiet_queue_add].
  - apply quiet_emit. reflexivity.
Qed.

Lemma quiet_setOutletOn v w : quiet w (setOutletOn v w).
Proof.
  unfold setOutletOn.
  case_if.
  { case_if; [apply quiet_same_trace; reflexivity|].
    eapply quiet_trans;
      [apply (quiet_emit (Log warn "Session not alive")); reflexivity|].
    apply quiet_same_trace. reflexivity. }
  case_if; [apply quiet_emit; reflexivity|].
  eapply quiet_trans; [apply quiet_updateState|].
  case_if; [|case_if]; unfold doPauseOrUnpause; cbv zeta.
  - match goal with |- context [invoke ?c ?x] =>
      pose proof (quiet_invoke c x) as Q; destruct (invoke c x) as [id y]
    end.
    eapply quiet_trans;
      [apply (quiet_emit (Log info "Attempt to")); reflexivity|].
    eapply quiet_trans; [exact Q | apply quiet_queue_add].
  - match goal with |- context [invoke ?c ?x] =>
      pose proof (quiet_invoke c x) as Q; destruct (invoke c x) as [id y]
    end.
    eapply quiet_trans;
      [apply (quiet_emit (Log info "Attempt to")); reflexivity|].
    eapply quiet_trans; [exact Q | apply quiet_queue_add].
  - apply quiet_emit. reflexivity.
Qed.

Lemma quiet_computeAll w : quiet w (computeAll w).
Proof.
  unfold computeAll. cbv zeta.
  eapply quiet_trans; [|apply quiet_updateState].
  eapply quiet_trans;
    [|unfold computeContactSensorState_log; case_if;
      apply quiet_emit; reflexivity].
  eapply quiet_trans; [|apply quiet_updateState].
  eapply quiet_trans; [|apply quiet_updateState].
  eapply quiet_trans; [|apply quiet_updateState].
  apply quiet_emit; reflexivity.
Qed.

Lemma quiet_session_completion alive w : quiet w (session_completion alive w).
Proof.
  unfold session_completion.
  eapply quiet_trans; [|apply quiet_computeAll].
  apply quiet_same_trace. reflexivity.
Qed.

(** Only the task of a session check rejects, when its request for the
    session fails. *)
Lemma quiet_resume id o w :
  (o = RequestFailed -> running (queue w) <> Some (AwaitSession id)) ->
  quiet w (resume id o w).
Proof.
  intros H. unfold resume.
  destruct (running (queue w)) as [[c|c|p v|p]|];
    try apply quiet_refl;
    destruct (Nat.eqb_spec c id) as [E|E] || destruct (Nat.eqb_spec p id) as [E|E];
    try apply quiet_refl.
  - destruct o as [body|]; [|elim (H eq_refl); congruence].
    match goal with |- context [invoke ?a ?x] =>
      pose proof (quiet_invoke a x) as Q; destruct (invoke a x) as [id' y]
    end.
    eapply quiet_trans; [|apply quiet_same_trace; reflexivity].
    eapply quiet_trans; [|exact Q].
    apply quiet_same_trace. reflexivity.
  - eapply quiet_trans; [|apply quiet_start_next].
    eapply quiet_trans; [|apply quiet_emit; reflexivity].
    apply quiet_as_task. intros x. apply quiet_session_completion.
  - eapply quiet_trans; [|apply quiet_start_next].
    eapply quiet_trans; [|apply quiet_emit; reflexivity].
    apply quiet_as_task. intros x. apply quiet_lock_completion.
  - eapply quiet_trans; [|apply quiet_start_next].
    eapply quiet_trans; [|apply quiet_emit; reflexivity].
    apply quiet_as_task. intros x. apply quiet_outlet_completion.
Qed.

Lemma quiet_settle id o w :
  (o = RequestFailed -> running (queue w) <> Some (AwaitSession id)) ->
  quiet w (settle id o w).
Proof.
  intros H.
  destruct (nth_error (calls w) id) as [[c [|o']]|] eqn:N.
  - destruct (settle_pending_frame id c o w N)
      as (x & E & (l & T & R & _) & _ & Hq & _).
    rewrite E. eapply quiet_trans; [exists l; split; [exact T | exact R]|].
    apply quiet_resume. rewrite Hq. exact H.
  - unfold settle. rewrite N. apply quiet_refl.
  - unfold settle. rewrite N. apply quiet_refl.
Qed.

Lemma quiet_step w e :
  (forall id, e = RequestEnds id RequestFailed ->
     running (queue w) <> Some (AwaitSession id)) ->
  quiet w (step w e).
Proof.
  intros H. destruct e as [v|v|now| |id o|d t]; simpl.
  - apply quiet_setLockTargetState.
  - apply quiet_setOutletOn.
  - unfold interval_callback.
    case_if; [apply quiet_emit; reflexivity|].
    case_if; [apply quiet_refl|]. unfold checkSession.
    eapply quiet_trans; [|apply quiet_queue_add].
    eapply quiet_trans;
      [apply (quiet_emit (Log debug "Checking for updates")); reflexivity|].
    eapply quiet_trans; [|apply quiet_emit; reflexivity].
    apply quiet_same_trace. reflexivity.
  - destruct (timeouts w); [apply quiet_refl|].
    unfold timeout_callback, setValue_On. cbv zeta.
    eapply quiet_trans; [|apply quiet_setOutletOn].
    eapply quiet_trans; [|apply quiet_emit; reflexivity].
    eapply quiet_trans; [|apply quiet_updateState].
    apply quiet_same_trace. reflexivity.
  - apply quiet_settle. intros ->. apply H. reflexivity.
  - apply quiet_same_trace. reflexivity.
Qed.

(** C4, as worded, fails: when the request of [session()] fails the task
    of [checkSession] rejects, and nothing is logged; when the request to
    unpause fails the task of [setOutletOn] logs the failure and the
    states stay as they were. *)
Lemma failure_contained_counterexample :
  ~ failure_contained 0 constructed /\
  ~ failure_contained 2 (step connected (OnSetOutletOn (VBool true))).
Proof.
  split; unfold failure_contained; cbv zeta.
  - intros (R & _). vm_compute in R. discriminate.
  - intros (_ & _ & S). apply S. vm_compute. reflexivity.
Qed.

Lemma lock_task_contains_failure v x o :
  let y := as_task (lock_completion (is_ok o) v) x in
  rejections (added x y) = [] /\
  getLockCurrentState y =
    (if is_ok o then v else VNum LockCurrentState.UNKNOWN) /\
  (is_ok o = false -> In (Log error "Failed to enable/disable") (added x y)).
Proof.
  cbv zeta. split; [|split].
  - apply quiet_added, quiet_as_task. intros z. apply quiet_lock_completion.
  - unfold getLockCurrentState. simpl states. apply lock_completion_current.
  - intros ->. apply (lock_task_logs_failure v x []).
    rewrite app_nil_r. reflexivity.
Qed.

Lemma outlet_task_contains_failure x o :
  let y := as_task (outlet_completion (is_ok o)) x in
  rejections (added x y) = [] /\
  states y = states x /\
  (is_ok o = false -> In (Log error "Failed to pause/unpause") (added x y)).
Proof.
  cbv zeta. split; [|split].
  - apply quiet_added, quiet_as_task. intros z. apply quiet_outlet_completion.
  - simpl states. rewrite outlet_completion_states. reflexivity.
  - intros ->.
    rewrite (added_of_trace x _ [Log error "Failed to pause/unpause"])
      by reflexivity.
    simpl. auto.
Qed.

(** C4, amended: the tasks that [setLockTargetState] and [setOutletOn]
    hand to the queue catch the failure of the request they await and do
    not reject: the first logs it and stores UNKNOWN as the current lock
    state, the second logs it and leaves the states as they were; when
    either task ends, the queue goes on with the tasks that wait.  This
    holds when the request ends while the task awaits it, and when it had
    ended before the queue started the task; and whatever happens to the
    accessory, no task rejects unless it is a session check whose request
    for the session fails. *)
Theorem completion_tasks_contain_failures (w : World) (p : nat)
  (o : RequestOutcome) :
  (forall c, nth_error (calls w) p = Some (c, Pending) ->
     (forall v, running (queue w) = Some (AwaitLockPromise p v) ->
        rejections (added w (settle p o w)) = [] /\
        exists x,
          settle p o w =
            start_next (waiting (queue w)) (emit (TaskSettled false) x) /\
          getLockCurrentState x =
            (if is_ok o then v else VNum LockCurrentState.UNKNOWN) /\
          (is_ok o = false ->
           In (Log error "Failed to enable/disable") (added w x))) /\
     (running (queue w) = Some (AwaitOutletPromise p) ->
        rejections (added w (settle p o w)) = [] /\
        exists x,
          settle p o w =
            start_next (waiting (queue w)) (emit (TaskSettled false) x) /\
          states x = states w /\
          (is_ok o = false ->
           In (Log error "Failed to pause/unpause") (added w x)))) /\
  (status_of p w = Settled o ->
   forall rest,
     (forall v,
        rejections
          (added w (start_next (LockCompletionTask p v :: rest) w)) = [] /\
        exists x,
          start_next (LockCompletionTask p v :: rest) w =
            start_next rest (emit (TaskSettled false) x) /\
          getLockCurrentState x =
            (if is_ok o then v else VNum LockCurrentState.UNKNOWN) /\
          (is_ok o = false ->
           In (Log error "Failed to enable/disable") (added w x))) /\
     (rejections
        (added w (start_next (OutletCompletionTask p :: rest) w)) = [] /\
      exists x,
        start_next (OutletCompletionTask p :: rest) w =
          start_next rest (emit (TaskSettled false) x) /\
        states x = states w /\
        (is_ok o = false ->
         In (Log error "Failed to pause/unpause") (added w x)))) /\
  (forall e,
     (forall id, e = RequestEnds id RequestFailed ->
        running (queue w) <> Some (AwaitSession id)) ->
     rejections (added w (step w e)) = []).
Proof.
  split; [|split].
  - intros c H.
    destruct (settle_pending p c o w H) as (y & E & Q & S & Hq).
    destruct Q as (l & T & R).
    split.
    + intros v Hr. rewrite E. unfold resume. rewrite Hq, Hr, Nat.eqb_refl.
      split.
      * apply quiet_added.
        eapply quiet_trans; [exists l; split; [exact T | exact R]|].
        eapply quiet_trans; [|apply quiet_start_next].
        eapply quiet_trans; [|apply quiet_emit; reflexivity].
        apply quiet_as_task. intros x. apply quiet_lock_completion.
      * eexists. split; [reflexivity|]. split.
        -- unfold getLockCurrentState. simpl states.
           apply lock_completion_current.
        -- intros F. rewrite F. apply (lock_task_logs_failure v y l w T).
    + intros Hr. rewrite E. unfold resume. rewrite Hq, Hr, Nat.eqb_refl.
      split.
      * apply quiet_added.
        eapply quiet_trans; [exists l; split; [exact T | exact R]|].
        eapply quiet_trans; [|apply quiet_start_next].
        eapply quiet_trans; [|apply quiet_emit; reflexivity].
        apply quiet_as_task. intros x. apply quiet_outlet_completion.
      * eexists. split; [reflexivity|]. split.
        -- simpl states. rewrite outlet_completion_states. exact S.
        -- intros F. rewrite F.
           assert (trace (as_task (outlet_completion false) y) =
                   (trace w ++
                    (l ++ [Log error "Failed to pause/unpause"]))%list)
             as TT.
           { change (trace (as_task (outlet_completion false) y))
               with (trace y ++ [Log error "Failed to pause/unpause"])%list.
             rewrite T, <- app_assoc. reflexivity. }
           rewrite (added_of_trace _ _ _ TT).
           apply in_or_app. right. simpl. auto.
  - intros H rest. split.
    + intros v. rewrite (lock_task_late p v rest w o H).
      destruct (lock_task_contains_failure v w o) as (_ & G & L).
      split.
      * apply quiet_added.
        eapply quiet_trans; [|apply quiet_start_next].
        eapply quiet_trans; [|apply quiet_emit; reflexivity].
        apply quiet_as_task. intros x. apply quiet_lock_completion.
      * eexists. split; [reflexivity|]. split; [exact G | exact L].
    + rewrite (outlet_task_late p rest w o H).
      destruct (outlet_task_contains_failure w o) as (_ & G & L).
      split.
      * apply quiet_added.
        eapply quiet_trans; [|apply quiet_start_next].
        eapply quiet_trans; [|apply quiet_emit; reflexivity].
        apply quiet_as_task. intros x. apply quiet_outlet_completion.
      * eexists. split; [reflexivity|]. split; [exact G | exact L].
  - intros e H. apply quiet_added, quiet_step. exact H.
Qed.

(** The request fails while the task awaits it (outlet, lock), and before
    the task has started (lock, behind the first session check). *)
Lemma completion_tasks_contain_failures_witness :
  rejections
    (added (step connected (OnSetOutletOn (VBool true)))
       (settle 2 RequestFailed
          (step connected (OnSetOutletOn (VBool true))))) = [] /\
  rejections
    (added
       (step connected (OnSetLockTargetState (VNum LockTargetState.SECURED)))
       (settle 2 RequestFailed
          (step connected
             (OnSetLockTargetState (VNum LockTargetState.SECURED))))) = [] /\
  (exists x,
     start_next [LockCompletionTask 1 (VNum LockTargetState.SECURED)]
       failed_behind_check =
       start_next [] (emit (TaskSettled false) x) /\
     getLockCurrentState x = VNum LockCurrentState.UNKNOWN /\
     In (Log error "Failed to enable/disable") (added failed_behind_check x)) /\
  rejections
    (added failed_behind_check
       (step failed_behind_check
          (RequestEnds 0 (RequestOk (Some paused))))) = [].
Proof.
  split; [|split; [|split]].
  - apply (proj2 (proj1 (completion_tasks_contain_failures
                           (step connected (OnSetOutletOn (VBool true))) 2
                           RequestFailed)
                    Client.sessionUnpause eq_refl)).
    reflexivity.
  - apply (proj1 (proj1 (completion_tasks_contain_failures
                           (step connected
                              (OnSetLockTargetState
                                 (VNum LockTargetState.SECURED)))
                           2 RequestFailed)
                    (Client.miniDisable "A1") eq_refl)
             (VNum LockTargetState.SECURED)).
    reflexivity.
  - destruct (proj2 (proj1 (proj1 (proj2 (completion_tasks_contain_failures
                failed_behind_check 1 RequestFailed)) eq_refl [])
              (VNum LockTargetState.SECURED)))
      as (x & E & G & L).
    exists x. split; [exact E | split; [exact G | exact (L eq_refl)]].
  - apply (proj2 (proj2 (completion_tasks_contain_failures
                           failed_behind_check 0 RequestFailed))).
    intros id E. discriminate E.
Defined.

(** ** Handlers run outside queue tasks *)

Lemma start_next_inTask tasks :
  forall w, inTask w = false -> inTask (start_next tasks w) = false.
Proof.
  induction tasks as [|t rest IH]; intros w H; simpl; auto.
  destruct t as [|p v|p]; simpl; auto.
  - destruct (status_of p w); simpl; auto.
  - destruct (status_of p w); simpl; auto.
Qed.

Lemma queue_add_inTask t w :
  inTask w = false -> inTask (queue_add t w) = false.
Proof.
  intros H. unfold queue_add. destruct (running (queue w)); simpl; auto.
  apply start_next_inTask. exact H.
Qed.

Lemma updateState_inTask svc k v skip forced w :
  inTask (updateState svc k v skip forced w) = inTask w.
Proof. apply (updateState_frame svc k v skip forced w). Qed.

Lemma setLockTargetState_inTask v w :
  inTask w = false -> inTask (setLockTargetState v w) = false.
Proof.
  intros H. unfold setLockTargetState.
  case_if; simpl; auto.
  case_if; [|case_if]; unfold doEnableOrDisable, invoke; cbv zeta.
  - apply queue_add_inTask. simpl. rewrite updateState_inTask. exact H.
  - apply queue_add_inTask. simpl. rewrite updateState_inTask. exact H.
  - simpl. rewrite updateState_inTask. exact H.
Qed.

Lemma setOutletOn_inTask v w :
  inTask w = false -> inTask (setOutletOn v w) = false.
Proof.
  intros H. unfold setOutletOn.
  case_if; [case_if; simpl; auto|].
  case_if; simpl; auto.
  case_if; [|case_if]; unfold doPauseOrUnpause, invoke; cbv zeta.
  - apply queue_add_inTask. simpl. rewrite updateState_inTask. exact H.
  - apply queue_add_inTask. simpl. rewrite updateState_inTask. exact H.
  - simpl. rewrite updateState_inTask. exact H.
Qed.

Lemma resume_inTask id o w :
  inTask w = false -> inTask (resume id o w) = false.
Proof.
  intros H. unfold resume.
  destruct (running (queue w)) as [[c|c|p v|p]|]; auto;
    case_if; auto; try (apply start_next_inTask; reflexivity).
  destruct o; simpl; auto.
  apply start_next_inTask. exact H.
Qed.

Lemma settle_inTask id o w :
  inTask w = false -> inTask (settle id o w) = false.
Proof.
  intros H. unfold settle.
  destruct (nth_error (calls w) id) as [[c [|o']]|]; auto.
  cbv zeta. apply resume_inTask.
  destruct c, (is_ok o); exact H.
Qed.

(** Between two events no queue task is running code: whatever a handler
    calls, it calls outside the queue. *)
Lemma step_inTask w e : inTask w = false -> inTask (step w e) = false.
Proof.
  intros H. destruct e as [v|v|now| |id o|d t]; simpl.
  - apply setLockTargetState_inTask. exact H.
  - apply setOutletOn_inTask. exact H.
  - unfold interval_callback. case_if; [exact H|].
    case_if; [exact H|]. unfold checkSession.
    apply queue_add_inTask. exact H.
  - destruct (timeouts w); [exact H|].
    unfold timeout_callback, setValue_On. cbv zeta.
    apply setOutletOn_inTask. simpl. rewrite updateState_inTask. exact H.
  - apply settle_inTask. exact H.
  - exact H.
Qed.

Lemma run_inTask es :
  forall w, inTask w = false -> inTask (run es w) = false.
Proof.
  induction es as [|e es IH]; intros w H; simpl; auto.
  apply IH. apply step_inTask. exact H.
Qed.

Lemma new_ChargerAccessory_inTask d t now :
  inTask (new_ChargerAccessory d t now) = false.
Proof. reflexivity. Qed.

(** In every state the accessory can reach, the command that
    [setLockTargetState] issues for a new value SECURED or UNSECURED is
    invoked by the handler itself. *)
Lemma lock_command_invoked_by_handler es d t now v :
  let w := run es (new_ChargerAccessory d t now) in
  v <> get LockTargetState (states w) ->
  v <> get LockCurrentState (states w) ->
  v = VNum LockTargetState.SECURED \/ v = VNum LockTargetState.UNSECURED ->
  exists c,
    In (ApiCall (List.length (calls w)) c false)
      (added w (setLockTargetState v w)).
Proof.
  cbv zeta. intros Nt Nc Hv.
  set (w := run es (new_ChargerAccessory d t now)) in *.
  assert (inTask w = false) as HI
    by (apply run_inTask, new_ChargerAccessory_inTask).
  destruct (setLockTargetState_proceeds v w Nt Nc) as (T1 & _ & Hs & Hu & _).
  rewrite HI in Hs, Hu.
  destruct Hv as [E|E]; [destruct (Hs E) as [l Hl] | destruct (Hu E) as [l Hl]];
    eexists;
    rewrite (added_of_trace _ _ _ (trace_trans _ _ _ _ _ T1 Hl));
    simpl; auto.
Qed.

(** ** Where the commands call the client *)

Lemma in_flight_snoc w c :
  map fst
    (filter (fun cs => match snd cs with Pending => true | _ => false end)
       (calls w ++ [(c, Pending)])%list) = (in_flight w ++ [c])%list.
Proof.
  unfold in_flight. rewrite filter_app, map_app. reflexivity.
Qed.

(** A command issued while the queue runs a task: what the handler leaves
    behind, given the state after its optimistic [updateState]. *)
Lemma command_behind_running_task w w0 s c t l :
  inTask w = false ->
  running (queue w) = Some s ->
  trace w0 = (trace w ++ l)%list -> api_calls l = [] ->
  calls w0 = calls w -> queue w0 = queue w -> inTask w0 = inTask w ->
  let w' := queue_add t
              (snd (invoke c (emit (Log info "Attempt to") w0))) in
  api_calls (added w w') = [ApiCall (List.length (calls w)) c false] /\
  calls w' = (calls w ++ [(c, Pending)])%list /\
  in_flight w' = (in_flight w ++ [c])%list /\
  queue w' = mkPQueue (Some s) (waiting (queue w) ++ [t])%list.
Proof.
  intros HI Hr T A Fc Fq Fi. cbv zeta.
  unfold queue_add, invoke. cbv zeta. simpl snd. simpl queue.
  rewrite Fq, Hr. simpl calls. simpl inTask. rewrite Fc, Fi, HI.
  split; [|split; [|split]].
  - erewrite added_of_trace
      by (simpl trace; rewrite T, <- !app_assoc; reflexivity).
    unfold api_calls in *. rewrite filter_app, A. reflexivity.
  - reflexivity.
  - unfold in_flight at 1. simpl calls. apply in_flight_snoc.
  - reflexivity.
Qed.

(** C1: the claim fails on the code.  In any state the accessory can reach
    in which the queue is running a task (a session check, say), a user
    command with a new value has its request invoked at once by the
    handler, outside any queue task: the request joins the requests in
    flight, while the task that awaits it is appended behind the running
    task.  This holds for [setLockTargetState] with SECURED or UNSECURED,
    and for [setOutletOn] with a session alive. *)
Theorem command_request_starts_outside_queue (es : list Event)
  (d : ResponseMini) (t now : Z) (s : Suspended) :
  let w := run es (new_ChargerAccessory d t now) in
  let p := List.length (calls w) in
  running (queue w) = Some s ->
  (forall v,
     v = VNum LockTargetState.SECURED \/ v = VNum LockTargetState.UNSECURED ->
     v <> getLockTargetState w -> v <> getLockCurrentState w ->
     let w' := setLockTargetState v w in
     exists c,
       (c = Client.miniDisable (address (device w)) \/
        c = Client.miniEnable (address (device w))) /\
       api_calls (added w w') = [ApiCall p c false] /\
       calls w' = (calls w ++ [(c, Pending)])%list /\
       in_flight w' = (in_flight w ++ [c])%list /\
       queue w' =
         mkPQueue (Some s)
           (waiting (queue w) ++ [LockCompletionTask p v])%list) /\
  (forall b,
     sessionAlive w = true -> VBool b <> getOutletOn w ->
     let w' := setOutletOn (VBool b) w in
     exists c,
       (c = Client.sessionPause \/ c = Client.sessionUnpause) /\
       api_calls (added w w') = [ApiCall p c false] /\
       calls w' = (calls w ++ [(c, Pending)])%list /\
       in_flight w' = (in_flight w ++ [c])%list /\
       queue w' =
         mkPQueue (Some s) (waiting (queue w) ++ [OutletCompletionTask p])%list).
Proof.
  cbv zeta. unfold getLockTargetState, getLockCurrentState, getOutletOn.
  set (w := run es (new_ChargerAccessory d t now)).
  assert (inTask w = false) as HI
    by (apply run_inTask, new_ChargerAccessory_inTask).
  clearbody w. intros Hr. split.
  - intros v Hv Nt Nc.
    pose proof (updateState_trace lock LockTargetState v false false w) as T.
    rewrite (strict_eq_neq _ _ Nt) in T. simpl in T.
    pose proof (updateState_frame lock LockTargetState v false false w) as F.
    cbv zeta in F.
    destruct F as (Fd & _ & _ & _ & _ & _ & Fq & _ & Fc & Fi).
    assert (exists c,
              (c = Client.miniDisable (address (device w)) \/
               c = Client.miniEnable (address (device w))) /\
              setLockTargetState v w =
                queue_add (LockCompletionTask (List.length (calls w)) v)
                  (snd (invoke c
                          (emit (Log info "Attempt to")
                             (updateState lock LockTargetState v false false
                                w))))) as (c & Hc & E).
    { unfold setLockTargetState.
      rewrite (strict_eq_neq _ _ Nt), (strict_eq_neq _ _ Nc).
      destruct Hv as [-> | ->]; simpl orb; cbv iota;
        unfold doEnableOrDisable, invoke; cbv zeta; simpl calls;
        simpl device; rewrite Fc, Fd; eexists; (split; [|reflexivity]);
        first [left; reflexivity | right; reflexivity]. }
    exists c. split; [exact Hc|]. rewrite E.
    exact (command_behind_running_task w _ s c _ _ HI Hr T eq_refl Fc Fq Fi).
  - intros b HA Nb.
    pose proof (updateState_trace outlet On (VBool b) false false w) as T.
    rewrite (strict_eq_neq _ _ Nb) in T. simpl in T.
    pose proof (updateState_frame outlet On (VBool b) false false w) as F.
    cbv zeta in F.
    destruct F as (_ & _ & _ & _ & _ & _ & Fq & _ & Fc & Fi).
    assert (exists c,
              (c = Client.sessionPause \/ c = Client.sessionUnpause) /\
              setOutletOn (VBool b) w =
                queue_add (OutletCompletionTask (List.length (calls w)))
                  (snd (invoke c
                          (emit (Log info "Attempt to")
                             (updateState outlet On (VBool b) false false
                                w))))) as (c & Hc & E).
    { unfold setOutletOn.
      rewrite HA, (strict_eq_neq _ _ Nb). simpl negb. cbv iota.
      destruct b; simpl strict_eq; cbv iota;
        unfold doPauseOrUnpause, invoke; cbv zeta; simpl calls;
        rewrite Fc; eexists; (split; [|reflexivity]);
        first [left; reflexivity | right; reflexivity]. }
    exists c. split; [exact Hc|]. rewrite E.
    exact (command_behind_running_task w _ s c _ _ HI Hr T eq_refl Fc Fq Fi).
Qed.

(** The session check of the constructor is in flight when the user secures
    the lock; a later session check is in flight when the user switches the
    outlet on. *)
Lemma command_request_starts_outside_queue_witness :
  (exists c,
     api_calls
       (added constructed
          (setLockTargetState (VNum LockTargetState.SECURED) constructed)) =
       [ApiCall 1 c false] /\
     in_flight (setLockTargetState (VNum LockTargetState.SECURED) constructed) =
       [Client.session; c]) /\
  (exists c,
     api_calls (added polling (setOutletOn (VBool true) polling)) =
       [ApiCall 3 c false] /\
     in_flight (setOutletOn (VBool true) polling) = [Client.session; c]).
Proof.
  split.
  - destruct (proj1 (command_request_starts_outside_queue [] A1 100 200
                       (AwaitSession 0) eq_refl)
                (VNum LockTargetState.SECURED))
      as (c & _ & A & _ & F & _).
    + left. reflexivity.
    + vm_compute. discriminate.
    + vm_compute. discriminate.
    + exists c. vm_compute in A, F |- *. split; [exact A | exact F].
  - destruct (proj2 (command_request_starts_outside_queue
                       [RequestEnds 0 (RequestOk (Some paused));
                        RequestEnds 1 (RequestOk None);
                        ContextRefreshed A1 300; IntervalTick 400]
                       A1 100 200 (AwaitSession 2) eq_refl)
                true)
      as (c & _ & A & _ & F & _).
    + reflexivity.
    + vm_compute. discriminate.
    + exists c. vm_compute in A, F |- *. split; [exact A | exact F].
Defined.

(** The two sample runs in full: what is in flight and what the queue
    holds after the handler returns. *)
Example commands_overlap_session_checks :
  let w := constructed in
  let w' := step w (OnSetLockTargetState (VNum LockTargetState.SECURED)) in
  let u := polling in
  let u' := step u (OnSetOutletOn (VBool true)) in
  (api_calls (trace w) = [ApiCall 0 Client.session true] /\
   in_flight w = [Client.session] /\
   api_calls (added w w') = [ApiCall 1 (Client.miniDisable "A1") false] /\
   in_flight w' = [Client.session; Client.miniDisable "A1"] /\
   queue w' =
     mkPQueue (Some (AwaitSession 0))
       [LockCompletionTask 1 (VNum LockTargetState.SECURED)]) /\
  (in_flight u = [Client.session] /\
   api_calls (added u u') = [ApiCall 3 Client.sessionUnpause false] /\
   in_flight u' = [Client.session; Client.sessionUnpause] /\
   queue u' = mkPQueue (Some (AwaitSession 2)) [OutletCompletionTask 3]).
Proof.
  vm_compute. repeat split.
Qed.

(** ** The completion task of [setLockTargetState] *)

Lemma updateState_calls svc k v skip forced w :
  calls (updateState svc k v skip forced w) = calls w.
Proof. apply (updateState_frame svc k v skip forced w). Qed.

Lemma computeAll_calls w : calls (computeAll w) = calls w.
Proof.
  unfold computeAll. cbv zeta. rewrite updateState_calls.
  unfold computeContactSensorState_log.
  case_if; simpl calls; rewrite !updateState_calls; reflexivity.
Qed.

Lemma lock_command_issue v w :
  v = VNum LockTargetState.SECURED \/ v = VNum LockTargetState.UNSECURED ->
  v <> get LockTargetState (states w) ->
  v <> get LockCurrentState (states w) ->
  exists c,
    setLockTargetState v w =
      queue_add (LockCompletionTask (List.length (calls w)) v)
        (snd (invoke c
                (emit (Log info "Attempt to")
                   (updateState lock LockTargetState v false false w)))).
Proof.
  intros Hv Nt Nc. unfold setLockTargetState.
  rewrite (strict_eq_neq _ _ Nt), (strict_eq_neq _ _ Nc).
  pose proof (updateState_frame lock LockTargetState v false false w) as F.
  cbv zeta in F.
  destruct F as (_ & _ & _ & _ & _ & _ & _ & _ & Fc & _).
  destruct Hv as [-> | ->]; simpl orb; cbv iota;
    unfold doEnableOrDisable, invoke; cbv zeta; simpl calls;
    rewrite Fc; eexists; reflexivity.
Qed.

(** A command given while the queue runs a task: the request starts and
    its task is appended. *)
Lemma lock_command_queued v w s :
  v = VNum LockTargetState.SECURED \/ v = VNum LockTargetState.UNSECURED ->
  v <> get LockTargetState (states w) ->
  v <> get LockCurrentState (states w) ->
  running (queue w) = Some s ->
  exists c,
    calls (setLockTargetState v w) = (calls w ++ [(c, Pending)])%list /\
    queue (setLockTargetState v w) =
      mkPQueue (Some s)
        (waiting (queue w) ++ [LockCompletionTask (List.length (calls w)) v])%list /\
    get LockCurrentState (states (setLockTargetState v w)) =
      get LockCurrentState (states w).
Proof.
  intros Hv Nt Nc Hr.
  destruct (lock_command_issue v w Hv Nt Nc) as [c E]. exists c. rewrite E.
  pose proof (updateState_frame lock LockTargetState v false false w) as F.
  cbv zeta in F.
  destruct F as (_ & _ & _ & _ & _ & _ & Fq & _ & Fc & _).
  pose proof (updateState_get_other lock LockTargetState LockCurrentState v
                false false w) as G.
  revert Fq Fc G.
  generalize (updateState lock LockTargetState v false false w).
  intros y Fq Fc G.
  unfold queue_add, invoke. cbv zeta. simpl snd. simpl queue.
  rewrite Fq, Hr. simpl calls. simpl queue. simpl states.
  rewrite Fc. repeat split. apply G. discriminate.
Qed.

(** The same on an idle queue: the task starts at once and awaits the
    request. *)
Lemma lock_command_idle v w :
  v = VNum LockTargetState.SECURED \/ v = VNum LockTargetState.UNSECURED ->
  v <> get LockTargetState (states w) ->
  v <> get LockCurrentState (states w) ->
  queue w = mkPQueue None [] ->
  exists c,
    calls (setLockTargetState v w) = (calls w ++ [(c, Pending)])%list /\
    queue (setLockTargetState v w) =
      mkPQueue (Some (AwaitLockPromise (List.length (calls w)) v)) [] /\
    get LockCurrentState (states (setLockTargetState v w)) =
      get LockCurrentState (states w).
Proof.
  intros Hv Nt Nc Hq.
  destruct (lock_command_issue v w Hv Nt Nc) as [c E]. exists c. rewrite E.
  pose proof (updateState_frame lock LockTargetState v false false w) as F.
  cbv zeta in F.
  destruct F as (_ & _ & _ & _ & _ & _ & Fq & _ & Fc & _).
  pose proof (updateState_get_other lock LockTargetState LockCurrentState v
                false false w) as G.
  revert Fq Fc G.
  generalize (updateState lock LockTargetState v false false w).
  intros y Fq Fc G.
  unfold queue_add, invoke. cbv zeta. simpl snd. simpl queue.
  rewrite Fq, Hq. simpl running. simpl waiting. simpl app. cbv iota.
  unfold start_next, status_of. simpl calls. rewrite Fc, nth_error_snoc.
  simpl calls. simpl queue. simpl states.
  repeat split. apply G. discriminate.
Qed.

(** The request ends while the task awaits it. *)
Lemma lock_task_resumes p v x c o :
  running (queue x) = Some (AwaitLockPromise p v) ->
  nth_error (calls x) p = Some (c, Pending) ->
  let result := if is_ok o then v else VNum LockCurrentState.UNKNOWN in
  exists y,
    settle p o x =
      start_next (waiting (queue x)) (emit (TaskSettled false) y) /\
    get LockCurrentState (states y) = result /\
    notifications_of LockCurrentState (added x y) =
      (if strict_eq result (get LockCurrentState (states x)) then []
       else [UpdateCharacteristic lock LockCurrentState result]).
Proof.
  intros Hr H. cbv zeta.
  destruct (settle_pending_frame p c o x H)
    as (z & E & (l & T & _ & Nl) & S & Hq & _).
  rewrite E. unfold resume. rewrite Hq, Hr, Nat.eqb_refl.
  eexists. split; [reflexivity|]. split.
  - apply (lock_task_body (is_ok o) v z).
  - rewrite <- S. apply (lock_task_notifies (is_ok o) v z l); [|exact T].
    unfold notifications, notifications_of in *.
    clear - Nl. induction l as [|e l IH]; [reflexivity|].
    simpl in *. destruct e; simpl in *; try discriminate; auto.
Qed.

(** The request had ended when the queue starts the task. *)
Lemma lock_task_starts_late p v rest x o :
  status_of p x = Settled o ->
  let result := if is_ok o then v else VNum LockCurrentState.UNKNOWN in
  exists y,
    start_next (LockCompletionTask p v :: rest) x =
      start_next rest (emit (TaskSettled false) y) /\
    get LockCurrentState (states y) = result /\
    notifications_of LockCurrentState (added x y) =
      (if strict_eq result (get LockCurrentState (states x)) then []
       else [UpdateCharacteristic lock LockCurrentState result]).
Proof.
  intros H. cbv zeta. rewrite (lock_task_late p v rest x o H).
  eexists. split; [reflexivity|]. split.
  - apply (lock_task_body (is_ok o) v x).
  - apply (lock_task_notifies (is_ok o) v x []); [reflexivity|].
    rewrite app_nil_r. reflexivity.
Qed.

(** A command given while a session check awaits the session, with
    nothing else in the queue: its request ends first, then the two
    requests of the session check; the completion task runs when the
    session check has ended. *)
Lemma lock_command_behind_session_check v w o n body o' :
  v = VNum LockTargetState.SECURED \/ v = VNum LockTargetState.UNSECURED ->
  v <> get LockTargetState (states w) ->
  v <> get LockCurrentState (states w) ->
  queue w = mkPQueue (Some (AwaitSession n)) [] ->
  nth_error (calls w) n = Some (Client.session, Pending) ->
  let p := List.length (calls w) in
  let w4 := run [RequestEnds p o; RequestEnds n (RequestOk body);
                 RequestEnds (S p) o'] (setLockTargetState v w) in
  get LockCurrentState (states w4) =
    (if is_ok o then v else VNum LockCurrentState.UNKNOWN) /\
  queue w4 = mkPQueue None [] /\
  quiet w w4.
Proof.
  intros Hv Nt Nc Hq Hn. cbv zeta.
  assert (n <> List.length (calls w)) as Np.
  { intros ->. rewrite (proj2 (nth_error_None _ _) (Nat.le_refl _)) in Hn.
    discriminate. }
  assert (n < List.length (calls w))%nat as Ln
    by (apply nth_error_Some; rewrite Hn; discriminate).
  assert (running (queue w) = Some (AwaitSession n)) as Hr
    by (rewrite Hq; reflexivity).
  destruct (lock_command_queued v w _ Hv Nt Nc Hr) as (c & C1 & Q1 & _).
  rewrite Hq in Q1. simpl in Q1.
  pose proof (quiet_setLockTargetState v w) as K1.
  revert C1 Q1 K1. generalize (setLockTargetState v w). intros w1 C1 Q1 K1.
  unfold run, fold_left, step.
  (* the request of the command ends *)
  assert (nth_error (calls w1) (List.length (calls w)) = Some (c, Pending))
    as H1 by (rewrite C1; apply nth_error_snoc).
  destruct (settle_early _ c o w1 (AwaitSession n) H1) as (K2 & _ & Q2 & C2 & _).
  { rewrite Q1. reflexivity. }
  { exact Np. }
  rewrite C1, replace_snoc in C2. rewrite Q1 in Q2.
  revert C2 Q2 K2. generalize (settle (List.length (calls w)) o w1).
  intros w2 C2 Q2 K2.
  (* the session is answered *)
  assert (nth_error (calls w2) n = Some (Client.session, Pending)) as H2
    by (rewrite C2, nth_error_app1 by exact Ln; exact Hn).
  destruct (settle_pending_frame n _ (RequestOk body) w2 H2)
    as (x3 & E3 & (l3 & T3 & R3 & _) & _ & Q3 & C3 & _).
  rewrite E3. unfold resume. rewrite Q3, Q2. simpl running.
  simpl waiting. cbv beta iota. rewrite Nat.eqb_refl.
  unfold invoke. cbv zeta. simpl calls.
  assert (List.length (calls x3) = S (List.length (calls w))) as L3.
  { rewrite C3, length_replace, C2, length_app. simpl. apply Nat.add_1_r. }
  rewrite L3.
  match goal with |- context [settle _ o' ?x] => set (w3 := x) end.
  assert (calls w3 = (calls x3 ++ [(Client.sessionAlive, Pending)])%list)
    as Cw3 by reflexivity.
  assert (queue w3 =
          mkPQueue (Some (AwaitSessionAlive (S (List.length (calls w)))))
            [LockCompletionTask (List.length (calls w)) v]) as Qw3
    by reflexivity.
  assert (quiet x3 w3) as K3.
  { exists [ApiCall (S (List.length (calls w))) Client.sessionAlive true].
    split; reflexivity. }
  clearbody w3.
  (* the session check ends, and the completion task starts *)
  assert (nth_error (calls w3) (S (List.length (calls w))) =
          Some (Client.sessionAlive, Pending)) as H3
    by (rewrite Cw3, <- L3; apply nth_error_snoc).
  destruct (settle_pending_frame _ _ o' w3 H3)
    as (x4 & E4 & (l4 & T4 & R4 & _) & _ & Q4 & C4 & _).
  rewrite E4. unfold resume. rewrite Q4, Qw3. simpl running. simpl waiting.
  cbv beta iota. rewrite Nat.eqb_refl.
  match goal with |- context [start_next _ ?x] => set (z := x) end.
  assert (status_of (List.length (calls w)) z = Settled o) as Hs.
  { unfold status_of.
    assert (calls z = calls x4) as ->
      by (unfold z, as_task, session_completion; simpl calls;
          rewrite computeAll_calls; reflexivity).
    rewrite C4, nth_error_replace_other by auto.
    rewrite Cw3, nth_error_app1 by (rewrite L3; auto).
    rewrite C3, nth_error_replace_other by exact Np.
    rewrite C2, nth_error_snoc. reflexivity. }
  assert (quiet x4 z) as K4.
  { unfold z. eapply quiet_trans; [|apply quiet_emit; reflexivity].
    apply quiet_as_task. intros u. apply quiet_session_completion. }
  clearbody z.
  rewrite (lock_task_late _ v [] z o Hs). simpl start_next.
  split; [|split].
  - simpl states. apply lock_completion_current.
  - reflexivity.
  - eapply quiet_trans; [exact K1|].
    eapply quiet_trans; [exact K2|].
    eapply quiet_trans; [exists l3; split; [exact T3 | exact R3]|].
    eapply quiet_trans; [exact K3|].
    eapply quiet_trans; [exists l4; split; [exact T4 | exact R4]|].
    eapply quiet_trans; [exact K4|].
    eapply quiet_trans; [|apply quiet_same_trace; reflexivity].
    eapply quiet_trans; [|apply quiet_emit; reflexivity].
    apply quiet_as_task. intros u. apply quiet_lock_completion.
Qed.

(** C8, as worded, fails: after a failed command the current lock state is
    UNKNOWN; when the next command fails too, the state that results,
    UNKNOWN, is the state there was before the command. *)
Lemma completion_never_prior_counterexample :
  ~ completion_never_prior (VNum LockTargetState.UNSECURED) RequestFailed
      after_failed_disable.
Proof.
  unfold completion_never_prior. intros H.
  assert (VNum LockTargetState.UNSECURED <>
          getLockTargetState after_failed_disable) as Nt
    by (vm_compute; discriminate).
  assert (VNum LockTargetState.UNSECURED <>
          getLockCurrentState after_failed_disable) as Nc
    by (vm_compute; discriminate).
  destruct (H (or_intror eq_refl) Nt Nc) as (_ & N).
  apply (N eq_refl). vm_compute. reflexivity.
Qed.

(** C8, amended: for a new value SECURED or UNSECURED the handler starts
    the request and hands the completion task to the queue, leaving the
    current lock state as it was.  Whenever the task goes on after its
    [await] (the request ends while the task awaits it, or it had ended
    before the queue started the task) it stores the value as the current
    lock state when the request was fulfilled and UNKNOWN when it was
    rejected, and the host is notified unless the state held that result
    already: UNKNOWN is never the value, and it is the state there was
    before only when that was UNKNOWN.  A request that ends before its
    task has started changes no state.  Both ways are followed from the
    command to the end: on an idle queue, and behind a running session
    check. *)
Theorem setLockTargetState_completion (value : CharacteristicValue)
  (w : World) (o : RequestOutcome) :
  value = VNum LockTargetState.SECURED \/
  value = VNum LockTargetState.UNSECURED ->
  value <> getLockTargetState w ->
  value <> getLockCurrentState w ->
  let p := List.length (calls w) in
  let w1 := setLockTargetState value w in
  let result := if is_ok o then value else VNum LockCurrentState.UNKNOWN in
  let notified x y :=
    notifications_of LockCurrentState (added x y) =
      if strict_eq result (getLockCurrentState x) then []
      else [UpdateCharacteristic lock LockCurrentState result] in
  VNum LockCurrentState.UNKNOWN <> value /\
  (forall s, running (queue w) = Some s ->
     status_of p w1 = Pending /\
     getLockCurrentState w1 = getLockCurrentState w /\
     queue w1 =
       mkPQueue (Some s)
         (waiting (queue w) ++ [LockCompletionTask p value])%list) /\
  (queue w = mkPQueue None [] ->
     status_of p w1 = Pending /\
     getLockCurrentState w1 = getLockCurrentState w /\
     queue w1 = mkPQueue (Some (AwaitLockPromise p value)) [] /\
     getLockCurrentState (settle p o w1) = result /\
     queue (settle p o w1) = mkPQueue None []) /\
  (forall x c,
     running (queue x) = Some (AwaitLockPromise p value) ->
     nth_error (calls x) p = Some (c, Pending) ->
     exists y,
       settle p o x =
         start_next (waiting (queue x)) (emit (TaskSettled false) y) /\
       getLockCurrentState y = result /\ notified x y) /\
  (forall x c s,
     running (queue x) = Some s -> awaited s <> p ->
     nth_error (calls x) p = Some (c, Pending) ->
     states (settle p o x) = states x /\
     queue (settle p o x) = queue x /\
     status_of p (settle p o x) = Settled o) /\
  (forall x rest,
     status_of p x = Settled o ->
     exists y,
       start_next (LockCompletionTask p value :: rest) x =
         start_next rest (emit (TaskSettled false) y) /\
       getLockCurrentState y = result /\ notified x y) /\
  (forall n body o',
     queue w = mkPQueue (Some (AwaitSession n)) [] ->
     nth_error (calls w) n = Some (Client.session, Pending) ->
     let w4 := run [RequestEnds p o; RequestEnds n (RequestOk body);
                    RequestEnds (S p) o'] w1 in
     getLockCurrentState w4 = result /\
     queue w4 = mkPQueue None [] /\
     rejections (added w w4) = []).
Proof.
  unfold getLockTargetState, getLockCurrentState.
  intros Hv Nt Nc. cbv zeta.
  split; [destruct Hv as [-> | ->]; discriminate|].
  split; [|split; [|split; [|split; [|split]]]].
  - intros s Hr.
    destruct (lock_command_queued value w s Hv Nt Nc Hr) as (c & C & Q & G).
    split; [|split; [exact G | exact Q]].
    unfold status_of. rewrite C, nth_error_snoc. reflexivity.
  - intros Hq.
    destruct (lock_command_idle value w Hv Nt Nc Hq) as (c & C & Q & G).
    assert (nth_error (calls (setLockTargetState value w))
              (List.length (calls w)) = Some (c, Pending)) as H
      by (rewrite C; apply nth_error_snoc).
    split; [unfold status_of; rewrite H; reflexivity|].
    split; [exact G|]. split; [exact Q|].
    destruct (lock_task_resumes _ value _ c o
                (f_equal running Q) H) as (y & E & Gy & _).
    rewrite E, Q. simpl start_next. split; [exact Gy | reflexivity].
  - intros x c Hr H. exact (lock_task_resumes _ value x c o Hr H).
  - intros x c s Hr Ns H.
    destruct (settle_early _ c o x s H Hr Ns) as (_ & S & Q & _ & St).
    auto.
  - intros x rest H. exact (lock_task_starts_late _ value rest x o H).
  - intros n body o' Hq Hn.
    destruct (lock_command_behind_session_check value w o n body o'
                Hv Nt Nc Hq Hn) as (G & Q & K).
    split; [exact G|]. split; [exact Q|]. apply quiet_added. exact K.
Qed.

(** Securing the lock of the sample charger: with the queue idle, and
    while the first session check is in flight, the request failing before
    the session check ends. *)
Lemma setLockTargetState_completion_witness :
  getLockCurrentState
    (settle (List.length (calls connected)) (RequestOk None)
       (setLockTargetState (VNum LockTargetState.SECURED) connected)) =
    VNum LockCurrentState.SECURED /\
  getLockCurrentState
    (settle (List.length (calls connected)) RequestFailed
       (setLockTargetState (VNum LockTargetState.SECURED) connected)) =
    VNum LockCurrentState.UNKNOWN /\
  getLockCurrentState
    (run [RequestEnds (List.length (calls constructed)) RequestFailed;
          RequestEnds 0 (RequestOk (Some paused));
          RequestEnds (S (List.length (calls constructed))) (RequestOk None)]
       (setLockTargetState (VNum LockTargetState.SECURED) constructed)) =
    VNum LockCurrentState.UNKNOWN.
Proof.
  assert (VNum LockTargetState.SECURED <> getLockTargetState connected) as Nt
    by (vm_compute; discriminate).
  assert (VNum LockTargetState.SECURED <> getLockCurrentState connected) as Nc
    by (vm_compute; discriminate).
  assert (VNum LockTargetState.SECURED <> getLockTargetState constructed)
    as Nt' by (vm_compute; discriminate).
  assert (VNum LockTargetState.SECURED <> getLockCurrentState constructed)
    as Nc' by (vm_compute; discriminate).
  destruct (setLockTargetState_completion (VNum LockTargetState.SECURED)
              connected (RequestOk None) (or_introl eq_refl) Nt Nc)
    as (_ & _ & I1 & _).
  destruct (setLockTargetState_completion (VNum LockTargetState.SECURED)
              connected RequestFailed (or_introl eq_refl) Nt Nc)
    as (_ & _ & I2 & _).
  destruct (setLockTargetState_completion (VNum LockTargetState.SECURED)
              constructed RequestFailed (or_introl eq_refl) Nt' Nc')
    as (_ & _ & _ & _ & _ & _ & B).
  destruct (I1 eq_refl) as (_ & _ & _ & G1 & _).
  destruct (I2 eq_refl) as (_ & _ & _ & G2 & _).
  destruct (B 0%nat (Some paused) (RequestOk None) eq_refl eq_refl)
    as (G3 & _).
  split; [exact G1 | split; [exact G2 | exact G3]].
Defined.

End AccessoryFacts.

(* ===================================================================== *)
(** * More facts about the API client                                     *)
(* ===================================================================== *)

Module ApiMoreFacts.
Import Ascii.
Import Api ApiStatus ListFacts ApiFacts.

Lemma matches_2xx_spec s :
  matches_2xx s = true <->
  exists b d,
    s = String "2"%char (String b (String d EmptyString)) /\
    line_terminator b = false /\ line_terminator d = false.
Proof.
  split.
  - destruct s as [|a [|b [|d [|x s]]]]; simpl; try discriminate.
    intros H. apply andb_prop in H. destruct H as [H Hd].
    apply andb_prop in H. destruct H as [Ha Hb].
    apply Ascii.eqb_eq in Ha. subst.
    exists b, d. repeat split.
    + destruct (line_terminator b); [discriminate | reflexivity].
    + destruct (line_terminator d); [discriminate | reflexivity].
  - intros (b & d & -> & Hb & Hd). simpl. rewrite Hb, Hd. reflexivity.
Qed.

Section WithRuntime.
Context {rt : Runtime}.

Lemma do_fetch_cases site init c :
  (exists resp latency,
     fetch (now c) init = Resolves resp latency /\
     do_fetch site init c =
       (Normal resp,
        mkClient (username c) (password c) (_authSession c)
          (now c + Z.of_N latency) (wire c ++ [site])%list)) \/
  (exists latency,
     fetch (now c) init = Rejects latency /\
     do_fetch site init c =
       (Throw FetchError,
        mkClient (username c) (password c) (_authSession c)
          (now c + Z.of_N latency) (wire c ++ [site])%list)).
Proof.
  unfold do_fetch. destruct (fetch (now c) init) as [resp l|l]; eauto.
Qed.

(** No header now means no header later, while the session is the same. *)
Lemma no_header_later c c' :
  authSessionHeader c = None -> _authSession c' = _authSession c ->
  now c <= now c' -> authSessionHeader c' = None.
Proof.
  unfold authSessionHeader, isAuthSessionValid. intros H E L. rewrite E.
  destruct (_authSession c) as [s|]; [|reflexivity].
  destruct (Date_gt (expires s) (new_Date_now c)) eqn:V; [discriminate|].
  apply Date_gt_false in V.
  assert (Date_gt (expires s) (new_Date_now c') = false) as ->.
  { apply Date_gt_false. destruct V as [V | (x & V & Lx)]; [auto|].
    right. exists x. split; [exact V | lia]. }
  reflexivity.
Qed.

(** [auth], step by step. *)
Lemma auth_unfold c :
  auth c =
    match fetch (now c) (token_request c) with
    | Rejects latency =>
        (Throw FetchError,
         mkClient (username c) (password c) (_authSession c)
           (now c + Z.of_N latency) (wire c ++ [AuthFetch])%list)
    | Resolves resp latency =>
        let c1 := mkClient (username c) (password c) (_authSession c)
                    (now c + Z.of_N latency) (wire c ++ [AuthFetch])%list in
        if negb (ok resp) then
          (Throw (AuthError "Response not ok" (status resp) (text resp)), c1)
        else
          match JSON_parse (text resp) with
          | None =>
              (Throw (AuthError "Response not JSON" (status resp) (text resp)),
               c1)
          | Some parsed =>
              let body := as_ResponseToken parsed in
              if falsy_string (access_token body) then
                (Throw (AuthError "No access token" (status resp) (text resp)),
                 c1)
              else if falsy_number (expires_in body) then
                (Throw (AuthError "No expiration time" (status resp)
                          (text resp)), c1)
              else
                let c2 := snd (set_authSession body c1) in
                match authSessionHeader c2 with
                | None =>
                    (Throw (AuthError "No auth session header" (status resp)
                              (text resp)), c2)
                | Some _ => (Normal tt, c2)
                end
          end
    end.
Proof.
  unfold auth, bind, read, do_fetch, throw, ret, token_request. simpl.
  destruct (fetch (now c) _) as [resp l|l]; [|reflexivity].
  destruct (ok resp); simpl; [|reflexivity].
  destruct (JSON_parse (text resp)); [|reflexivity].
  destruct (falsy_string _); [reflexivity|].
  destruct (falsy_number _); [reflexivity|].
  simpl.
  match goal with |- context [authSessionHeader ?x] =>
    destruct (authSessionHeader x) end; reflexivity.
Qed.

Lemma truthy_string s :
  falsy_string s = false <-> exists x, s = Some x /\ x <> "".
Proof.
  unfold falsy_string. destruct s as [x|].
  - destruct (string_dec x ""); split.
    + discriminate.
    + intros (y & E & N). inversion E. subst. contradiction.
    + eauto.
    + reflexivity.
  - split; [discriminate | intros (x & E & _); discriminate].
Qed.

Lemma truthy_number n :
  falsy_number n = false <->
  exists x, n = Some x /\ (forall s, x <> S754_zero s) /\ x <> S754_nan.
Proof.
  unfold falsy_number. destruct n as [[s| s| |s m e]|]; split;
    try discriminate; try reflexivity.
  - intros (x & E & Z & _). inversion E. subst. elim (Z s). reflexivity.
  - intros _. eexists. split; [reflexivity|]. split; [intros z|]; discriminate.
  - intros (x & E & _ & N). inversion E. subst. elim N. reflexivity.
  - intros _. eexists. split; [reflexivity|]. split; [intros z|]; discriminate.
  - intros (x & E & _). discriminate.
Qed.

(** X1: [auth] returns normally exactly when the token request resolves
    with an ok status and a body that parses to an object with a non-empty
    [access_token] and an [expires_in] that is neither zero nor [NaN], and
    the date [expires_in] seconds after the reply arrived is a valid date
    later than that moment; the session it then caches holds that token
    and that date. *)
Theorem auth_returns_iff (c : Client) :
  (fst (auth c) = Normal tt <->
   exists resp latency parsed tok secs expiry,
     fetch (now c) (token_request c) = Resolves resp latency /\
     ok resp = true /\
     JSON_parse (text resp) = Some parsed /\
     access_token (as_ResponseToken parsed) = Some tok /\ tok <> "" /\
     expires_in (as_ResponseToken parsed) = Some secs /\
     (forall s, secs <> S754_zero s) /\ secs <> S754_nan /\
     new_Date (Number_add (Number_of_Z (now c + Z.of_N latency))
                 (Number_mul secs (Number_of_Z 1000))) = Some expiry /\
     now c + Z.of_N latency < expiry) /\
  (forall resp latency parsed tok secs,
     fst (auth c) = Normal tt ->
     fetch (now c) (token_request c) = Resolves resp latency ->
     JSON_parse (text resp) = Some parsed ->
     access_token (as_ResponseToken parsed) = Some tok ->
     expires_in (as_ResponseToken parsed) = Some secs ->
     _authSession (snd (auth c)) =
       Some (mkAuthSession tok
               (new_Date (Number_add (Number_of_Z (now c + Z.of_N latency))
                            (Number_mul secs (Number_of_Z 1000))))
               [("Authorization", "Bearer " ++ tok)]
               (as_ResponseToken parsed))).
Proof.
  rewrite auth_unfold.
  destruct (fetch (now c) (token_request c)) as [resp l|l].
  2:{ split.
      - split; [discriminate|].
        intros (r & l' & p & tk & sc & x & F & _). discriminate.
      - intros r l' p tk sc H. discriminate. }
  cbv zeta.
  destruct (ok resp) eqn:Ok; simpl negb; cbv iota.
  2:{ split.
      - split; [discriminate|].
        intros (r & l' & p & tk & sc & x & F & O & _).
        inversion F. subst. congruence.
      - intros r l' p tk sc H. discriminate. }
  destruct (JSON_parse (text resp)) as [parsed|] eqn:P.
  2:{ split.
      - split; [discriminate|].
        intros (r & l' & p & tk & sc & x & F & O & J & _).
        inversion F. subst. congruence.
      - intros r l' p tk sc H. discriminate. }
  destruct (falsy_string (access_token (as_ResponseToken parsed))) eqn:FS.
  { split.
    - split; [discriminate|].
      intros (r & l' & p & tk & sc & x & F & O & J & A & N & _).
      inversion F. subst. rewrite P in J. inversion J. subst.
      assert (falsy_string (access_token (as_ResponseToken p)) = false) as X
        by (apply truthy_string; eauto).
      congruence.
    - intros r l' p tk sc H. discriminate. }
  destruct (falsy_number (expires_in (as_ResponseToken parsed))) eqn:FN.
  { split.
    - split; [discriminate|].
      intros (r & l' & p & tk & sc & x & F & O & J & A & N & E & Z0 & Nn & _).
      inversion F. subst. rewrite P in J. inversion J. subst.
      assert (falsy_number (expires_in (as_ResponseToken p)) = false) as X
        by (apply truthy_number; exists sc; auto).
      congruence.
    - intros r l' p tk sc H. discriminate. }
  apply truthy_string in FS. destruct FS as (tok & At & Nt).
  apply truthy_number in FN. destruct FN as (secs & Es & Zs & Ns).
  unfold set_authSession, authSessionHeader, isAuthSessionValid.
  rewrite At, Es. simpl _authSession. simpl snd. cbv beta iota.
  unfold Date_now, new_Date_now. simpl now. simpl expires. simpl header.
  destruct (Date_gt
              (new_Date (Number_add (Number_of_Z (now c + Z.of_N l))
                           (Number_mul secs (Number_of_Z 1000))))
              (Some (now c + Z.of_N l))) eqn:G; simpl negb; cbv iota.
  - apply Date_gt_spec in G. destruct G as (x & Ex & Lx). split.
    + split; [|reflexivity]. intros _.
      exists resp, l, parsed, tok, secs, x. repeat split; auto.
    + intros r l' p tk sc _ F J A E.
      inversion F. subst. rewrite P in J. inversion J. subst.
      rewrite At in A. rewrite Es in E. inversion A. inversion E.
      subst. reflexivity.
  - split.
    + split; [discriminate|].
      intros (r & l' & p & tk & sc & x & F & O & J & A & N & E & _ & _ & D & L).
      inversion F. subst. rewrite P in J. inversion J. subst.
      rewrite Es in E. inversion E. subst.
      assert (Date_gt
                (new_Date (Number_add (Number_of_Z (now c + Z.of_N l'))
                             (Number_mul sc (Number_of_Z 1000))))
                (Some (now c + Z.of_N l')) = true) as X
        by (apply Date_gt_spec; eauto).
      congruence.
    + intros r l' p tk sc H. discriminate.
Qed.

Lemma auth_now c : now c <= now (snd (auth c)).
Proof.
  rewrite auth_unfold.
  destruct (fetch (now c) (token_request c)) as [resp l|l]; simpl; [|lia].
  destruct (ok resp); simpl; [|lia].
  destruct (JSON_parse (text resp)); simpl; [|lia].
  destruct (falsy_string _); simpl; [lia|].
  destruct (falsy_number _); simpl; [lia|].
  match goal with |- context [authSessionHeader ?x] =>
    destruct (authSessionHeader x) end; simpl; lia.
Qed.

(** What [auth] leaves behind, by outcome. *)
Lemma auth_aftermath c :
  authSessionHeader c = None ->
  match fst (auth c) with
  | Normal _ => exists h, authSessionHeader (snd (auth c)) = Some h
  | Throw e =>
      authSessionHeader (snd (auth c)) = None /\
      (_authSession (snd (auth c)) = _authSession c \/
       exists st b s,
         e = AuthError "No auth session header" st b /\
         _authSession (snd (auth c)) = Some s /\
         (expires s = None \/
          exists t, expires s = Some t /\ t <= now (snd (auth c))))
  end.
Proof.
  intros H. rewrite auth_unfold.
  destruct (fetch (now c) (token_request c)) as [resp l|l]; cbv zeta.
  2:{ simpl. split; [|left; reflexivity].
      apply (no_header_later c); simpl; auto; lia. }
  destruct (ok resp); simpl negb; cbv iota.
  2:{ simpl. split; [|left; reflexivity].
      apply (no_header_later c); simpl; auto; lia. }
  destruct (JSON_parse (text resp)) as [parsed|].
  2:{ simpl. split; [|left; reflexivity].
      apply (no_header_later c); simpl; auto; lia. }
  destruct (falsy_string _).
  { simpl. split; [|left; reflexivity].
    apply (no_header_later c); simpl; auto; lia. }
  destruct (falsy_number _).
  { simpl. split; [|left; reflexivity].
    apply (no_header_later c); simpl; auto; lia. }
  match goal with |- context [authSessionHeader ?x] =>
    destruct (authSessionHeader x) as [h|] eqn:Hh end; simpl.
  - eauto.
  - split; [exact Hh|]. right.
    unfold authSessionHeader, isAuthSessionValid in Hh.
    simpl _authSession in Hh. cbv beta iota in Hh.
    match type of Hh with context [Date_gt ?a ?b] =>
      destruct (Date_gt a b) eqn:L; [discriminate|] end.
    apply Date_gt_false in L.
    eexists _, _, _. split; [reflexivity|]. split; [reflexivity|].
    exact L.
Qed.

(** X2: called without a usable header (the only way [request] calls it),
    [auth] leaves a usable header exactly when it returns normally.  When
    it throws, the cached session is the one there was, or, when the server
    granted a token that was expired on arrival (its date is not after the
    clock, or is an Invalid Date), that expired session; in both cases the
    next request has to authenticate again. *)
Theorem auth_leaves_header_iff_returns (c : Client) :
  authSessionHeader c = None ->
  (fst (auth c) = Normal tt <->
   exists h, authSessionHeader (snd (auth c)) = Some h) /\
  (forall e, fst (auth c) = Throw e ->
     _authSession (snd (auth c)) = _authSession c \/
     exists st b s,
       e = AuthError "No auth session header" st b /\
       _authSession (snd (auth c)) = Some s /\
       (expires s = None \/
        exists t, expires s = Some t /\ t <= now (snd (auth c)))).
Proof.
  intros H. pose proof (auth_aftermath c H) as A.
  destruct (fst (auth c)) as [[]|e].
  - split; [tauto|]. intros e E. discriminate.
  - destruct A as [A1 A2]. split.
    + split; [discriminate|]. intros [h Hh]. congruence.
    + intros e' E. inversion E. subst. exact A2.
Qed.

Lemma request_after_auth_throw m endpoint opts c e :
  authSessionHeader c = None -> fst (auth c) = Throw e ->
  request m endpoint opts c = (Throw e, snd (auth c)).
Proof.
  intros H E. unfold request, bind, read. rewrite H.
  destruct (auth c) as [[[]|e'] c1]; simpl in *; [discriminate|].
  inversion E. reflexivity.
Qed.

(** X3: when the authentication a request needs fails, the request throws
    the error of [auth], the endpoint is never contacted, and the next
    request, whatever it is, authenticates again, once. *)
Theorem request_propagates_auth_failure (m : Method) (endpoint : string)
  (opts : RequestOpts) (c : Client) (e : Exception) :
  authSessionHeader c = None ->
  fst (auth c) = Throw e ->
  let c' := snd (request m endpoint opts c) in
  fst (request m endpoint opts c) = Throw e /\
  sent_since c c' = [AuthFetch] /\
  forall m' endpoint' opts',
    auth_calls (sent_since c' (snd (request m' endpoint' opts' c'))) = 1%nat.
Proof.
  intros H E. cbv zeta.
  rewrite (request_after_auth_throw m endpoint opts c e H E). simpl.
  split; [reflexivity|]. split.
  - unfold sent_since. rewrite auth_wire, skipn_length_app. reflexivity.
  - intros m' endpoint' opts'.
    pose proof (auth_aftermath c H) as A. rewrite E in A.
    destruct A as [A _].
    destruct (request_wire_without_header m' endpoint' opts' _ A) as [W|W];
      unfold sent_since; rewrite W, skipn_length_app; reflexivity.
Qed.

(** X4: [sessionAlive] never throws: it returns [true] exactly when its
    request returned normally and [false] for every failure of it, a
    failed authentication included; it leaves the client as the request
    left it. *)
Theorem sessionAlive_never_throws (c : Client) :
  let probe := request GET "api/session/alive" (mkRequestOpts false [] None) in
  exists b,
    fst (sessionAlive c) = Normal b /\
    (b = true <-> exists r, fst (probe c) = Normal r) /\
    (b = false <-> exists e, fst (probe c) = Throw e) /\
    snd (sessionAlive c) = snd (probe c).
Proof.
  cbv zeta. unfold sessionAlive, try_catch, bind, ret.
  destruct (request GET "api/session/alive" (mkRequestOpts false [] None) c)
    as [[r|e] c']; simpl.
  - exists true. repeat split; eauto; try discriminate.
    intros [e E]. discriminate.
  - exists false. repeat split; eauto; try discriminate.
    intros [r E]. discriminate.
Qed.

Lemma request_keeps_session_with_header m endpoint opts c h :
  authSessionHeader c = Some h ->
  _authSession (snd (request m endpoint opts c)) = _authSession c.
Proof.
  intros Hh. unfold request, bind, read, ret. rewrite Hh. simpl. rewrite Hh.
  match goal with
  | |- context [do_fetch ?s ?i c] =>
      pose proof (do_fetch_authSession s i c) as Hw;
      destruct (do_fetch s i c) as [[resp|e] c1]
  end; simpl in *; auto.
  unfold throw.
  destruct (ok resp); simpl; auto.
  destruct (expect opts); simpl; auto.
  destruct (JSON_parse (text resp)); simpl; auto.
Qed.

Lemma request_normal_has_session m endpoint opts c r :
  fst (request m endpoint opts c) = Normal r ->
  exists s, _authSession (snd (request m endpoint opts c)) = Some s.
Proof.
  intros N.
  destruct (authSessionHeader c) as [h|] eqn:Hh.
  - rewrite (request_keeps_session_with_header m endpoint opts c h Hh).
    unfold authSessionHeader in Hh.
    destruct (_authSession c); [eauto|].
    destruct (negb _); discriminate.
  - revert N. unfold request, bind, read. rewrite Hh.
    pose proof (auth_aftermath c Hh) as A.
    destruct (auth c) as [[[]|e] c1]; simpl in *; [|discriminate].
    destruct A as [h A]. rewrite A.
    assert (exists s, _authSession c1 = Some s) as [s S].
    { unfold authSessionHeader in A.
      destruct (_authSession c1); [eauto|].
      destruct (negb _); discriminate. }
    match goal with
    | |- context [do_fetch ?x ?i c1] =>
        pose proof (do_fetch_authSession x i c1) as Hw;
        destruct (do_fetch x i c1) as [[resp|e] c2]
    end; simpl in *; [|discriminate].
    unfold throw, ret.
    destruct (ok resp); simpl; [|discriminate].
    destruct (expect opts); simpl.
    + destruct (JSON_parse (text resp)); simpl; [|discriminate].
      intros _. exists s. congruence.
    + intros _. exists s. congruence.
Qed.

(** X5: the token is reused.  A request that finds a usable header leaves
    the cached session as it is; and after any request that returned
    normally a session is cached, and as long as the clock has not reached
    its expiry the next request goes straight to its endpoint. *)
Theorem request_reuses_token (m : Method) (endpoint : string)
  (opts : RequestOpts) (c : Client) :
  let c' := snd (request m endpoint opts c) in
  (forall h, authSessionHeader c = Some h -> _authSession c' = _authSession c) /\
  (forall r, fst (request m endpoint opts c) = Normal r ->
     exists s,
       _authSession c' = Some s /\
       (forall t, expires s = Some t -> now c' < t ->
        forall m' endpoint' opts',
          sent_since c' (snd (request m' endpoint' opts' c')) =
            [RequestFetch m' (base ++ "/" ++ endpoint')])).
Proof.
  cbv zeta. split.
  - intros h Hh. apply (request_keeps_session_with_header _ _ _ _ h Hh).
  - intros r N.
    destruct (request_normal_has_session m endpoint opts c r N) as [s S].
    exists s. split; [exact S|].
    intros t Et L m' endpoint' opts'. unfold sent_since.
    rewrite (request_wire_with_header m' endpoint' opts' _ (header s))
      by (apply (header_when_fresh _ s t); assumption).
    apply skipn_length_app.
Qed.

(** [request] when a usable header is at hand and the reply is known. *)
Lemma request_with_header_reply m endpoint opts c h resp :
  authSessionHeader c = Some h ->
  (forall t i, exists latency, fetch t i = Resolves resp latency) ->
  fst (request m endpoint opts c) =
    if negb (ok resp) then Throw (Error ("Request failed: " ++ text resp))
    else if expect opts then
      match JSON_parse (text resp) with
      | None => Throw (Error ("Response not JSON: " ++ text resp))
      | Some parsed =>
          Normal (mkResponse (ok resp) (status resp) parsed (text resp))
      end
    else Normal (mkResponse (ok resp) (status resp) empty_object (text resp)).
Proof.
  intros Hh Hf. unfold request, bind, read, ret, throw. rewrite Hh. simpl.
  rewrite Hh. unfold do_fetch.
  match goal with |- context [fetch ?t ?i] =>
    destruct (Hf t i) as [l ->] end.
  destruct (ok resp); simpl; [|reflexivity].
  destruct (expect opts); simpl; [|reflexivity].
  destruct (JSON_parse (text resp)); reflexivity.
Qed.

Lemma auth_reply c resp :
  (forall t i, exists latency, fetch t i = Resolves resp latency) ->
  (ok resp = false ->
   fst (auth c) = Throw (AuthError "Response not ok" (status resp) (text resp)))
  /\
  (ok resp = true -> JSON_parse (text resp) = None ->
   fst (auth c) = Throw (AuthError "Response not JSON" (status resp) (text resp))).
Proof.
  intros Hf. rewrite auth_unfold.
  destruct (Hf (now c) (token_request c)) as [l ->]. cbv zeta.
  split.
  - intros ->. reflexivity.
  - intros -> ->. reflexivity.
Qed.

(** X6: against a server that answers every request with the same non-ok
    reply, every request throws: with a usable cached token the error is
    ["Request failed: "] followed by the raw body, whether or not a body was
    expected; without one it is the [AuthError] ["Response not ok"] carrying
    status and body, and the endpoint is never contacted. *)
Theorem non_ok_reply_always_throws (resp : FetchResponse) (m : Method)
  (endpoint : string) (opts : RequestOpts) (c : Client) :
  (forall t i, exists latency, fetch t i = Resolves resp latency) ->
  ok resp = false ->
  (forall h, authSessionHeader c = Some h ->
     fst (request m endpoint opts c) =
       Throw (Error ("Request failed: " ++ text resp))) /\
  (authSessionHeader c = None ->
     fst (request m endpoint opts c) =
       Throw (AuthError "Response not ok" (status resp) (text resp)) /\
     sent_since c (snd (request m endpoint opts c)) = [AuthFetch]).
Proof.
  intros Hf Ok. split.
  - intros h Hh.
    rewrite (request_with_header_reply m endpoint opts c h resp Hh Hf).
    rewrite Ok. reflexivity.
  - intros Hn.
    pose proof (proj1 (auth_reply c resp Hf) Ok) as E.
    rewrite (request_after_auth_throw m endpoint opts c _ Hn E). simpl.
    split; [reflexivity|].
    unfold sent_since. rewrite auth_wire, skipn_length_app. reflexivity.
Qed.

(** X7: the body is parsed only when it is expected.  Against a server
    whose replies are ok and never parse as JSON, a request with a usable
    cached token returns normally with the empty object when called with
    [expect: false], and throws ["Response not JSON: "] followed by the raw
    body otherwise; without a usable token it throws the [AuthError]
    ["Response not JSON"] either way. *)
Theorem body_parsed_only_when_expected (resp : FetchResponse) (m : Method)
  (endpoint : string) (opts : RequestOpts) (c : Client) :
  (forall t i, exists latency, fetch t i = Resolves resp latency) ->
  ok resp = true -> JSON_parse (text resp) = None ->
  (forall h, authSessionHeader c = Some h ->
     fst (request m endpoint opts c) =
       if expect opts
       then Throw (Error ("Response not JSON: " ++ text resp))
       else Normal (mkResponse true (status resp) empty_object (text resp))) /\
  (authSessionHeader c = None ->
     fst (request m endpoint opts c) =
       Throw (AuthError "Response not JSON" (status resp) (text resp))).
Proof.
  intros Hf Ok P. split.
  - intros h Hh.
    rewrite (request_with_header_reply m endpoint opts c h resp Hh Hf).
    rewrite Ok, P. reflexivity.
  - intros Hn.
    pose proof (proj2 (auth_reply c resp Hf) Ok P) as E.
    rewrite (request_after_auth_throw m endpoint opts c _ Hn E).
    reflexivity.
Qed.

Section Status.
Variable as_ResponseMiniStatus : JSON -> ResponseMiniStatus.

(** X8: [miniStatus] returns normally exactly when its request returns
    normally and both the hub and the mini segment codes are three
    characters long, begin with ["2"] and go on with two characters that are
    no line terminators.  When the hub code fails the test the error names
    the hub, whatever the mini code is. *)
Theorem miniStatus_accepts_2xx (address : string) (c : Client) :
  let probe := request GET ("api/mini/status?address=" ++ address)
                 default_opts in
  (fst (miniStatus as_ResponseMiniStatus address c) = Normal tt <->
   exists r,
     fst (probe c) = Normal r /\
     matches_2xx (hubStatus (as_ResponseMiniStatus (r_body r))) = true /\
     matches_2xx (miniStatus_ (as_ResponseMiniStatus (r_body r))) = true) /\
  (forall r,
     fst (probe c) = Normal r ->
     matches_2xx (hubStatus (as_ResponseMiniStatus (r_body r))) = false ->
     fst (miniStatus as_ResponseMiniStatus address c) =
       Throw (Error ("HUB not connected ("
                     ++ hubStatus (as_ResponseMiniStatus (r_body r)) ++ ")")))
  /\
  (forall e, fst (probe c) = Throw e ->
     fst (miniStatus as_ResponseMiniStatus address c) = Throw e) /\
  (forall s, matches_2xx s = true <->
     exists b d,
       s = String "2"%char (String b (String d EmptyString)) /\
       line_terminator b = false /\ line_terminator d = false).
Proof.
  cbv zeta. unfold miniStatus, bind, throw, ret.
  destruct (request GET ("api/mini/status?address=" ++ address) default_opts c)
    as [[r|e] c']; simpl.
  - split; [|split; [|split]].
    + destruct (matches_2xx (hubStatus _)) eqn:Hh; simpl.
      * destruct (matches_2xx (miniStatus_ _)) eqn:Hm; simpl.
        -- split; [intros _; exists r; auto|reflexivity].
        -- split; [discriminate|].
           intros (r' & E & _ & M). inversion E. subst. congruence.
      * split; [discriminate|].
        intros (r' & E & M & _). inversion E. subst. congruence.
    + intros r' E M. inversion E. subst. rewrite M. reflexivity.
    + intros e E. discriminate.
    + apply matches_2xx_spec.
  - split; [|split; [|split]].
    + split; [discriminate|]. intros (r & E & _). discriminate.
    + intros r E. discriminate.
    + intros e' E. inversion E. reflexivity.
    + apply matches_2xx_spec.
Qed.

End Status.

End WithRuntime.

Lemma auth_returns_iff_witness :
  fst (auth (rt := sample_runtime) unauthenticated) = Normal tt /\
  _authSession (snd (auth (rt := sample_runtime) unauthenticated)) =
    Some (mkAuthSession "tok" (Some (1000 + 5 + 3600 * 1000))
            [("Authorization", "Bearer tok")]
            (mkResponseToken (Some "tok") (Some (Number_of_Z 3600)))) /\
  fst (auth (rt := eternal_runtime) unauthenticated) <> Normal tt /\
  fst (auth (rt := fleeting_runtime) unauthenticated) <> Normal tt.
Proof.
  assert (fst (auth (rt := sample_runtime) unauthenticated) = Normal tt) as N.
  { apply (proj2 (proj1 (auth_returns_iff (rt := sample_runtime)
                           unauthenticated))).
    exists (mkFetchResponse true 200 "{}"), 5%N, "{}", "tok",
      (Number_of_Z 3600), 3601005.
    repeat split; try reflexivity; discriminate. }
  split; [exact N|]. split.
  - exact (proj2 (auth_returns_iff (rt := sample_runtime) unauthenticated)
             (mkFetchResponse true 200 "{}") 5%N "{}" "tok" (Number_of_Z 3600)
             N eq_refl eq_refl eq_refl eq_refl).
  - split; intros H.
    + apply (proj1 (proj1 (auth_returns_iff (rt := eternal_runtime)
                             unauthenticated))) in H.
      destruct H as (r & l & p & tk & sc & x & F & _ & _ & _ & _ & E & _ & _
                     & D & _).
      inversion F. subst. inversion E. subst. lazy in D. discriminate D.
    + apply (proj1 (proj1 (auth_returns_iff (rt := fleeting_runtime)
                             unauthenticated))) in H.
      destruct H as (r & l & p & tk & sc & x & F & _ & _ & _ & _ & E & _ & _
                     & D & L).
      inversion F. subst. inversion E. subst. lazy in D. inversion D.
      subst. revert L. apply Z.lt_irrefl.
Defined.

Lemma auth_leaves_header_iff_returns_witness :
  (exists h,
     authSessionHeader (snd (auth (rt := sample_runtime) unauthenticated)) =
       Some h) /\
  (_authSession (snd (auth (rt := stingy_runtime) unauthenticated)) = None \/
   exists st b s,
     AuthError "No auth session header" 200 "{}" =
       AuthError "No auth session header" st b /\
     _authSession (snd (auth (rt := stingy_runtime) unauthenticated)) =
       Some s /\
     (expires s = None \/
      exists t,
        expires s = Some t /\
        t <= now (snd (auth (rt := stingy_runtime) unauthenticated)))).
Proof.
  split.
  - apply (proj1 (proj1 (auth_leaves_header_iff_returns (rt := sample_runtime)
                           unauthenticated eq_refl))).
    reflexivity.
  - apply (proj2 (auth_leaves_header_iff_returns (rt := stingy_runtime)
                    unauthenticated eq_refl)
             (AuthError "No auth session header" 200 "{}")).
    reflexivity.
Defined.

Lemma request_propagates_auth_failure_witness :
  fst (request (rt := failing_runtime) GET "api/session" default_opts
         unauthenticated) =
    Throw (AuthError "Response not ok" 500 "oops") /\
  sent_since unauthenticated
    (snd (request (rt := failing_runtime) GET "api/session" default_opts
            unauthenticated)) = [AuthFetch].
Proof.
  destruct (request_propagates_auth_failure (rt := failing_runtime) GET
              "api/session" default_opts unauthenticated
              (AuthError "Response not ok" 500 "oops") eq_refl eq_refl)
    as (T & S & _).
  split; [exact T | exact S].
Defined.

Lemma sessionAlive_never_throws_witness :
  exists b, fst (sessionAlive (rt := failing_runtime) unauthenticated) = Normal b.
Proof.
  destruct (sessionAlive_never_throws (rt := failing_runtime) unauthenticated)
    as (b & N & _).
  exists b. exact N.
Defined.

Lemma request_reuses_token_witness :
  _authSession
    (snd (request (rt := sample_runtime) GET "api/session" default_opts
            authenticated)) = _authSession authenticated /\
  exists s,
    _authSession
      (snd (request (rt := sample_runtime) GET "api/session" default_opts
              unauthenticated)) = Some s.
Proof.
  split.
  - apply (proj1 (request_reuses_token (rt := sample_runtime) GET
                    "api/session" default_opts authenticated)
             [("Authorization", "Bearer old")]).
    reflexivity.
  - destruct (proj2 (request_reuses_token (rt := sample_runtime) GET
                       "api/session" default_opts unauthenticated)
                (mkResponse (rt := sample_runtime) true 200 "{}" "{}") eq_refl)
      as (s & S & _).
    exists s. exact S.
Defined.

Lemma non_ok_reply_always_throws_witness :
  fst (request (rt := failing_runtime) POST "api/mini/enable"
         (form_opts "A1") authenticated) =
    Throw (Error "Request failed: oops") /\
  fst (request (rt := failing_runtime) POST "api/mini/enable"
         (form_opts "A1") expired) =
    Throw (AuthError "Response not ok" 500 "oops").
Proof.
  assert (forall (t : Z) (i : FetchInit),
            exists latency,
              fetch (Runtime := failing_runtime) t i =
                Resolves (mkFetchResponse false 500 "oops") latency) as Hf
    by (intros t i; exists 5%N; reflexivity).
  split.
  - apply (proj1 (non_ok_reply_always_throws (rt := failing_runtime)
                    (mkFetchResponse false 500 "oops") POST "api/mini/enable"
                    (form_opts "A1") authenticated Hf eq_refl)
             [("Authorization", "Bearer old")]).
    reflexivity.
  - apply (proj2 (non_ok_reply_always_throws (rt := failing_runtime)
                    (mkFetchResponse false 500 "oops") POST "api/mini/enable"
                    (form_opts "A1") expired Hf eq_refl)).
    reflexivity.
Defined.

Lemma body_parsed_only_when_expected_witness :
  fst (request (rt := garbled_runtime) GET "api/session/alive"
         (mkRequestOpts false [] None) authenticated) =
    Normal (mkResponse (rt := garbled_runtime) true 200 "{}" "<html>") /\
  fst (request (rt := garbled_runtime) GET "api/session" default_opts
         authenticated) =
    Throw (Error "Response not JSON: <html>").
Proof.
  assert (forall (t : Z) (i : FetchInit),
            exists latency,
              fetch (Runtime := garbled_runtime) t i =
                Resolves (mkFetchResponse true 200 "<html>") latency) as Hf
    by (intros t i; exists 5%N; reflexivity).
  split.
  - apply (proj1 (body_parsed_only_when_expected (rt := garbled_runtime)
                    (mkFetchResponse true 200 "<html>") GET
                    "api/session/alive" (mkRequestOpts false [] None)
                    authenticated Hf eq_refl eq_refl)
             [("Authorization", "Bearer old")]).
    reflexivity.
  - apply (proj1 (body_parsed_only_when_expected (rt := garbled_runtime)
                    (mkFetchResponse true 200 "<html>") GET "api/session"
                    default_opts authenticated Hf eq_refl eq_refl)
             [("Authorization", "Bearer old")]).
    reflexivity.
Defined.

Lemma miniStatus_accepts_2xx_witness :
  fst (miniStatus (rt := sample_runtime) sample_status "A1" authenticated) =
    Normal tt /\
  fst (miniStatus (rt := sample_runtime) hub_down_status "A1" authenticated) =
    Throw (Error "HUB not connected (503)").
Proof.
  split.
  - apply (proj1 (miniStatus_accepts_2xx (rt := sample_runtime) sample_status
                    "A1" authenticated)).
    exists (mkResponse (rt := sample_runtime) true 200 "{}" "{}").
    repeat split.
  - apply (proj1 (proj2 (miniStatus_accepts_2xx (rt := sample_runtime)
                           hub_down_status "A1" authenticated))
             (mkResponse (rt := sample_runtime) true 200 "{}" "{}")).
    + reflexivity.
    + reflexivity.
Defined.

End ApiMoreFacts.

(* ===================================================================== *)
(** * More facts about the accessory                                      *)
(* ===================================================================== *)

Module AccessoryMoreFacts.
Import Accessory AccessoryMore ListFacts AccessoryFacts.
Import Characteristic.

Ltac case_if :=
  match goal with
  | |- context [if ?c then _ else _] => destruct c
  end.

(** ** Reconciliation *)

Lemma updateState_ignored svc k v skip w :
  v = get k (states w) ->
  updateState svc k v skip false w = emit (Log debug "Ignoring update") w.
Proof.
  intros E. unfold updateState. rewrite <- E, strict_eq_refl. reflexivity.
Qed.

Lemma updateState_session svc k v skip forced w :
  session (updateState svc k v skip forced w) = session w.
Proof. apply (updateState_frame svc k v skip forced w). Qed.

Lemma updateState_sessionAlive svc k v skip forced w :
  sessionAlive (updateState svc k v skip forced w) = sessionAlive w.
Proof. apply (updateState_frame svc k v skip forced w). Qed.

Lemma updateState_device svc k v skip forced w :
  device (updateState svc k v skip forced w) = device w.
Proof. apply (updateState_frame svc k v skip forced w). Qed.

Lemma computeContactSensorState_log_frame w :
  device (computeContactSensorState_log w) = device w /\
  session (computeContactSensorState_log w) = session w /\
  sessionAlive (computeContactSensorState_log w) = sessionAlive w.
Proof.
  unfold computeContactSensorState_log.
  destruct (sessionAlive w) eqn:E; simpl; auto.
Qed.

Lemma computeAll_On w :
  get On (states (computeAll w)) = computeOutletOn w.
Proof.
  unfold computeAll. cbv zeta.
  rewrite updateState_get_other by discriminate.
  rewrite computeContactSensorState_log_states.
  rewrite updateState_get_same.
  unfold computeOutletOn. rewrite !updateState_session. reflexivity.
Qed.

Lemma computeAll_ContactSensorState w :
  get ContactSensorState (states (computeAll w)) = computeContactSensorState w.
Proof.
  unfold computeAll. cbv zeta.
  rewrite updateState_get_same.
  unfold computeContactSensorState.
  rewrite (proj2 (proj2 (computeContactSensorState_log_frame _))).
  rewrite !updateState_sessionAlive. reflexivity.
Qed.

Lemma computeAll_session w : session (computeAll w) = session w.
Proof.
  unfold computeAll. cbv zeta. rewrite updateState_session.
  rewrite (proj1 (proj2 (computeContactSensorState_log_frame _))).
  rewrite !updateState_session. reflexivity.
Qed.

Lemma computeAll_sessionAlive w : sessionAlive (computeAll w) = sessionAlive w.
Proof.
  unfold computeAll. cbv zeta. rewrite updateState_sessionAlive.
  rewrite (proj2 (proj2 (computeContactSensorState_log_frame _))).
  rewrite !updateState_sessionAlive. reflexivity.
Qed.

(** X9: right after a reconciliation pass, [On] is [true] exactly when a
    session is known and it is not paused, and the contact sensor reads
    CONTACT_DETECTED exactly when the session is alive, and
    CONTACT_NOT_DETECTED otherwise. *)
Theorem computeAll_outlet_and_contact (w : World) :
  let w' := computeAll w in
  (get On (states w') = VBool true <->
   exists s, session w = Some s /\ IsPaused s = false) /\
  (get On (states w') = VBool false <->
   session w = None \/ exists s, session w = Some s /\ IsPaused s = true) /\
  (get ContactSensorState (states w') =
     VNum ContactSensorState.CONTACT_DETECTED <-> sessionAlive w = true) /\
  (get ContactSensorState (states w') =
     VNum ContactSensorState.CONTACT_NOT_DETECTED <-> sessionAlive w = false).
Proof.
  cbv zeta. rewrite computeAll_On, computeAll_ContactSensorState.
  unfold computeOutletOn, computeContactSensorState.
  split; [|split; [|split]].
  - destruct (session w) as [[p]|]; simpl.
    + destruct p; simpl; split.
      * discriminate.
      * intros (s & E & P). inversion E. subst. discriminate.
      * intros _. eexists. split; reflexivity.
      * reflexivity.
    + split; [discriminate|]. intros (s & E & _). discriminate.
  - destruct (session w) as [[p]|]; simpl.
    + destruct p; simpl; split.
      * intros _. right. eexists. split; reflexivity.
      * reflexivity.
      * discriminate.
      * intros [E | (s & E & P)]; [discriminate|].
        inversion E. subst. discriminate.
    + split; [auto | reflexivity].
  - destruct (sessionAlive w); split; try reflexivity; discriminate.
  - destruct (sessionAlive w); split; try reflexivity; discriminate.
Qed.

Lemma computeAll_outlet_and_contact_witness :
  get On (states (computeAll connected)) = VBool false /\
  get ContactSensorState (states (computeAll connected)) =
    VNum ContactSensorState.CONTACT_DETECTED.
Proof.
  split.
  - apply (proj2 (proj1 (proj2 (computeAll_outlet_and_contact connected)))).
    right. exists paused. split; reflexivity.
  - apply (proj2 (proj1 (proj2 (proj2
                                  (computeAll_outlet_and_contact connected))))).
    reflexivity.
Defined.

(** A pass over states that already hold the computed values. *)
Lemma computeAll_when_settled w :
  get LockCurrentState (states w) = computeLockCurrentState w ->
  get LockTargetState (states w) = computeLockCurrentState w ->
  get On (states w) = computeOutletOn w ->
  get ContactSensorState (states w) = computeContactSensorState w ->
  states (computeAll w) = states w /\
  trace (computeAll w) =
    (trace w ++
     [Log debug "Computing all"; Log debug "Ignoring update";
      Log debug "Ignoring update"; Log debug "Ignoring update";
      Log debug (if sessionAlive w then "Contact detected"
                 else "Contact NOT detected");
      Log debug "Ignoring update"])%list.
Proof.
  intros H1 H2 H3 H4. unfold computeAll. cbv zeta.
  rewrite (updateState_ignored lock LockCurrentState _ false
             (emit (Log debug "Computing all") w))
    by (symmetry; exact H1).
  rewrite (updateState_ignored lock LockTargetState _ true _)
    by (symmetry; exact H2).
  rewrite (updateState_ignored outlet On _ false _) by (symmetry; exact H3).
  unfold computeContactSensorState_log. simpl sessionAlive.
  destruct (sessionAlive w) eqn:A.
  - rewrite (updateState_ignored contactSensor ContactSensorState _ false _)
      by (unfold computeContactSensorState in *; simpl; rewrite A in *;
          symmetry; exact H4).
    split; [reflexivity|]. simpl. rewrite <- !app_assoc. reflexivity.
  - rewrite (updateState_ignored contactSensor ContactSensorState _ false _)
      by (unfold computeContactSensorState in *; simpl; rewrite A in *;
          symmetry; exact H4).
    split; [reflexivity|]. simpl. rewrite <- !app_assoc. reflexivity.
Qed.

Lemma computeAll_reaches_fixpoint w :
  let w1 := computeAll w in
  get LockCurrentState (states w1) = computeLockCurrentState w1 /\
  get LockTargetState (states w1) = computeLockCurrentState w1 /\
  get On (states w1) = computeOutletOn w1 /\
  get ContactSensorState (states w1) = computeContactSensorState w1.
Proof.
  cbv zeta.
  rewrite computeAll_LockCurrentState, computeAll_LockTargetState,
    computeAll_On, computeAll_ContactSensorState.
  unfold computeLockCurrentState, computeOutletOn, computeContactSensorState.
  rewrite computeAll_device, computeAll_session, computeAll_sessionAlive.
  repeat split.
Qed.

(** X10: reconciliation is idempotent.  A second pass right after a first
    one changes no state and tells the host nothing: every one of its four
    updates is ignored. *)
Theorem computeAll_twice_is_silent (w : World) :
  let w1 := computeAll w in
  let w2 := computeAll w1 in
  states w2 = states w1 /\
  emissions (added w1 w2) = [] /\
  added w1 w2 =
    [Log debug "Computing all"; Log debug "Ignoring update";
     Log debug "Ignoring update"; Log debug "Ignoring update";
     Log debug (if sessionAlive w then "Contact detected"
                else "Contact NOT detected");
     Log debug "Ignoring update"].
Proof.
  cbv zeta.
  destruct (computeAll_reaches_fixpoint w) as (H1 & H2 & H3 & H4).
  destruct (computeAll_when_settled (computeAll w) H1 H2 H3 H4) as [S T].
  rewrite computeAll_sessionAlive in T.
  split; [exact S|].
  rewrite (added_of_trace _ _ _ T). split; reflexivity.
Qed.

(** ** The session check *)

Lemma checkSession_idle w :
  queue w = mkPQueue None [] ->
  checkSession w =
    set_queue (mkPQueue (Some (AwaitSession (List.length (calls w)))) [])
      (set_inTask false
         (emit (ApiCall (List.length (calls w)) Client.session true)
            (set_calls (calls w ++ [(Client.session, Pending)])%list
               (set_inTask true (emit (Log debug "Check session") w))))).
Proof.
  intros Hq. unfold checkSession, queue_add. simpl queue. rewrite Hq.
  reflexivity.
Qed.

Lemma session_answer_ok w body :
  queue w = mkPQueue None [] ->
  settle (List.length (calls w)) (RequestOk body) (checkSession w) =
    set_queue (mkPQueue (Some (AwaitSessionAlive (S (List.length (calls w))))) [])
      (set_inTask false
         (emit (ApiCall (S (List.length (calls w))) Client.sessionAlive true)
            (set_calls
               (calls w ++ [(Client.session, Settled (RequestOk body));
                            (Client.sessionAlive, Pending)])%list
               (set_session body
                  (set_inTask true
                     (emit (ApiSettled (List.length (calls w)) true)
                        (set_inTask false
                           (emit (ApiCall (List.length (calls w))
                                    Client.session true)
                              (set_inTask true
                                 (emit (Log debug "Check session") w)))))))))).
Proof.
  intros Hq. rewrite (checkSession_idle w Hq).
  unfold settle. simpl calls. rewrite nth_error_snoc. cbv zeta.
  unfold resume. simpl queue. simpl running. simpl waiting. cbv beta iota.
  rewrite Nat.eqb_refl. unfold invoke. cbv zeta. simpl calls.
  rewrite replace_snoc, length_app, <- app_assoc. simpl.
  rewrite Nat.add_1_r. reflexivity.
Qed.

Lemma silent_refl w : silent w w.
Proof. exists []. rewrite app_nil_r. auto. Qed.

Lemma silent_trans w1 w2 w3 : silent w1 w2 -> silent w2 w3 -> silent w1 w3.
Proof.
  intros (l1 & T1 & A1 & R1) (l2 & T2 & A2 & R2). exists (l1 ++ l2)%list.
  split; [rewrite T2, T1, app_assoc; reflexivity|].
  unfold api_calls, rejections in *.
  rewrite !filter_app, A1, A2, R1, R2. auto.
Qed.

Lemma silent_emit e w :
  is_ApiCall e = false -> is_rejection e = false -> silent w (emit e w).
Proof.
  intros A R. exists [e]. split; [reflexivity|].
  unfold api_calls, rejections. simpl. rewrite A, R. auto.
Qed.

Lemma silent_updateState svc k v skip forced w :
  silent w (updateState svc k v skip forced w).
Proof.
  eexists. split; [apply updateState_trace|].
  repeat case_if; auto.
Qed.

Lemma silent_computeAll w : silent w (computeAll w).
Proof.
  unfold computeAll. cbv zeta.
  eapply silent_trans; [|apply silent_updateState].
  eapply silent_trans;
    [|unfold computeContactSensorState_log; case_if;
      apply silent_emit; reflexivity].
  eapply silent_trans; [|apply silent_updateState].
  eapply silent_trans; [|apply silent_updateState].
  eapply silent_trans; [|apply silent_updateState].
  apply silent_emit; reflexivity.
Qed.

Lemma silent_added w w' :
  silent w w' -> api_calls (added w w') = [] /\ rejections (added w w') = [].
Proof.
  intros (l & T & A & R). rewrite (added_of_trace _ _ _ T). auto.
Qed.

Lemma session_answer_alive w body o :
  queue w = mkPQueue None [] ->
  exists x,
    settle (S (List.length (calls w))) o
      (settle (List.length (calls w)) (RequestOk body) (checkSession w)) =
      set_queue (mkPQueue None [])
        (emit (TaskSettled false)
           (set_inTask false (computeAll (set_sessionAlive (is_ok o) x)))) /\
    session x = body /\ device x = device w /\
    trace x =
      (trace w ++
       [Log debug "Check session";
        ApiCall (List.length (calls w)) Client.session true;
        ApiSettled (List.length (calls w)) true;
        ApiCall (S (List.length (calls w))) Client.sessionAlive true;
        ApiSettled (S (List.length (calls w))) (is_ok o)])%list.
Proof.
  intros Hq. rewrite (session_answer_ok w body Hq).
  unfold settle. simpl calls. rewrite nth_error_snoc2. cbv zeta.
  unfold resume. simpl queue. simpl running. simpl waiting. cbv beta iota.
  rewrite Nat.eqb_refl. simpl start_next.
  unfold as_task, session_completion.
  eexists. split; [reflexivity|]. split; [reflexivity|].
  split; [reflexivity|].
  simpl trace. rewrite <- !app_assoc. reflexivity.
Qed.

(** X11: a session check on an idle queue.  It asks for the session
    inside its queue task; only when that request has answered does it ask
    whether the session is alive; when that has answered too, the session
    and the alive flag are stored, every characteristic holds the value
    computed from them and from the device record, no task has rejected and
    the queue is idle again. *)
Theorem session_check_round_trip (w : World)
  (body : option ResponseSession) (o : RequestOutcome) :
  queue w = mkPQueue None [] ->
  let n := List.length (calls w) in
  let w1 := checkSession w in
  let w2 := settle n (RequestOk body) w1 in
  let w3 := settle (S n) o w2 in
  api_calls (added w w1) = [ApiCall n Client.session true] /\
  api_calls (added w1 w2) = [ApiCall (S n) Client.sessionAlive true] /\
  api_calls (added w2 w3) = [] /\
  rejections (added w w3) = [] /\
  session w3 = body /\
  sessionAlive w3 = is_ok o /\
  get LockCurrentState (states w3) = computeLockCurrentState w /\
  get LockTargetState (states w3) = computeLockCurrentState w /\
  get On (states w3) =
    VBool (match body with Some s => negb (IsPaused s) | None => false end) /\
  get ContactSensorState (states w3) =
    VNum (if is_ok o then ContactSensorState.CONTACT_DETECTED
          else ContactSensorState.CONTACT_NOT_DETECTED) /\
  queue w3 = mkPQueue None [].
Proof.
  intros Hq. cbv zeta.
  destruct (session_answer_alive w body o Hq) as (x & E & Sx & Dx & Tx).
  rewrite E.
  pose proof (session_answer_ok w body Hq) as E2.
  pose proof (checkSession_idle w Hq) as E1.
  destruct (silent_computeAll (set_sessionAlive (is_ok o) x))
    as (l & T & A & R).
  simpl trace in T. rewrite Tx in T.
  split; [rewrite E1; erewrite added_of_trace
                         by (simpl trace; rewrite <- !app_assoc; reflexivity);
          reflexivity|].
  split; [rewrite E2, E1; erewrite added_of_trace
                             by (simpl trace; rewrite <- !app_assoc;
                                 reflexivity);
          reflexivity|].
  split.
  { rewrite E2.
    erewrite added_of_trace
      by (simpl trace; rewrite T, <- !app_assoc; simpl; reflexivity).
    unfold api_calls in *. simpl. rewrite filter_app, A. reflexivity. }
  split.
  { erewrite added_of_trace
      by (simpl trace; rewrite T, <- !app_assoc; simpl; reflexivity).
    unfold rejections in *. simpl. rewrite filter_app, R. reflexivity. }
  simpl session. simpl sessionAlive. simpl states. simpl queue.
  rewrite computeAll_session, computeAll_sessionAlive,
    computeAll_LockCurrentState, computeAll_LockTargetState, computeAll_On,
    computeAll_ContactSensorState.
  unfold computeLockCurrentState, computeOutletOn, computeContactSensorState.
  simpl. rewrite Sx, Dx.
  repeat split.
  - destruct body; reflexivity.
  - destruct (is_ok o); reflexivity.
Qed.

(** X12: when the request for the session fails, the task of the session
    check rejects there and then: the states, the stored session and the
    alive flag are what they were, [sessionAlive] is never asked, no error
    is logged, and the queue is idle again. *)
Theorem session_check_failure_changes_nothing (w : World) :
  queue w = mkPQueue None [] ->
  let n := List.length (calls w) in
  let w1 := checkSession w in
  let w2 := settle n RequestFailed w1 in
  added w1 w2 = [ApiSettled n false; TaskSettled true] /\
  states w2 = states w /\ session w2 = session w /\
  sessionAlive w2 = sessionAlive w /\ device w2 = device w /\
  in_flight w2 = in_flight w /\
  queue w2 = mkPQueue None [].
Proof.
  intros Hq. cbv zeta. rewrite (checkSession_idle w Hq).
  unfold settle. simpl calls. rewrite nth_error_snoc. cbv zeta.
  unfold resume. simpl queue. simpl running. simpl waiting. cbv beta iota.
  rewrite Nat.eqb_refl. simpl start_next.
  split; [erewrite added_of_trace
            by (simpl trace; rewrite <- !app_assoc; reflexivity);
          reflexivity|].
  repeat split.
  unfold in_flight. simpl calls. rewrite replace_snoc.
  rewrite filter_app, map_app. simpl. rewrite app_nil_r. reflexivity.
Qed.

Lemma session_check_failure_changes_nothing_witness :
  states (settle 2 RequestFailed (checkSession connected)) = states connected /\
  added (checkSession connected)
    (settle 2 RequestFailed (checkSession connected)) =
    [ApiSettled 2 false; TaskSettled true].
Proof.
  destruct (session_check_failure_changes_nothing connected eq_refl)
    as (A & S & _).
  split; [exact S | exact A].
Defined.

Lemma session_check_round_trip_witness :
  get On (states
            (settle 3 (RequestOk None)
               (settle 2 (RequestOk (Some (mkResponseSession false)))
                  (checkSession connected)))) = VBool true /\
  queue (settle 3 (RequestOk None)
           (settle 2 (RequestOk (Some (mkResponseSession false)))
              (checkSession connected))) = mkPQueue None [].
Proof.
  destruct (session_check_round_trip connected
              (Some (mkResponseSession false)) (RequestOk None) eq_refl)
    as (_ & _ & _ & _ & _ & _ & _ & _ & O & _ & Q).
  split; [exact O | exact Q].
Defined.

(** ** Polling *)

Lemma updateState_polling_view svc k v skip forced w :
  polling_view (updateState svc k v skip forced w) = polling_view w.
Proof.
  unfold polling_view.
  destruct (updateState_frame svc k v skip forced w)
    as (D & _ & _ & L & _ & C & _).
  rewrite D, L, C. reflexivity.
Qed.

Lemma computeAll_polling_view w : polling_view (computeAll w) = polling_view w.
Proof.
  unfold computeAll. cbv zeta.
  rewrite updateState_polling_view.
  unfold computeContactSensorState_log.
  case_if; change (polling_view (emit ?e ?x)) with (polling_view x);
    rewrite !updateState_polling_view; reflexivity.
Qed.

Lemma as_task_polling_view body w :
  (forall x, polling_view (body x) = polling_view x) ->
  polling_view (emit (TaskSettled false) (as_task body w)) = polling_view w.
Proof.
  intros H.
  change (polling_view (emit (TaskSettled false) (as_task body w)))
    with (polling_view (body (set_inTask true w))).
  rewrite H. reflexivity.
Qed.

Lemma lock_completion_polling_view b v x :
  polling_view (lock_completion b v x) = polling_view x.
Proof.
  unfold lock_completion. destruct b; rewrite updateState_polling_view;
    reflexivity.
Qed.

Lemma outlet_completion_polling_view b x :
  polling_view (outlet_completion b x) = polling_view x.
Proof. destruct b; reflexivity. Qed.

Lemma session_completion_polling_view b x :
  polling_view (session_completion b x) = polling_view x.
Proof.
  unfold session_completion. rewrite computeAll_polling_view. reflexivity.
Qed.

Lemma start_next_polling_view tasks :
  forall w, polling_view (start_next tasks w) = polling_view w.
Proof.
  induction tasks as [|t rest IH]; intros w; simpl; auto.
  destruct t as [|p v|p]; simpl; auto.
  - destruct (status_of p w); simpl; auto.
    rewrite IH. apply as_task_polling_view. intros x.
    apply lock_completion_polling_view.
  - destruct (status_of p w); simpl; auto.
    rewrite IH. apply as_task_polling_view. intros x.
    apply outlet_completion_polling_view.
Qed.

Lemma queue_add_polling_view t w :
  polling_view (queue_add t w) = polling_view w.
Proof.
  unfold queue_add. destruct (running (queue w)); simpl; auto.
  apply start_next_polling_view.
Qed.

Lemma setLockTargetState_polling_view v w :
  polling_view (setLockTargetState v w) = polling_view w.
Proof.
  unfold setLockTargetState.
  case_if; [reflexivity|].
  case_if; [|case_if]; unfold doEnableOrDisable, invoke; cbv zeta.
  - rewrite queue_add_polling_view.
    exact (updateState_polling_view _ _ _ _ _ _).
  - rewrite queue_add_polling_view.
    exact (updateState_polling_view _ _ _ _ _ _).
  - exact (updateState_polling_view _ _ _ _ _ _).
Qed.

Lemma setOutletOn_polling_view v w :
  polling_view (setOutletOn v w) = polling_view w.
Proof.
  unfold setOutletOn.
  case_if; [case_if; reflexivity|].
  case_if; [reflexivity|].
  case_if; [|case_if]; unfold doPauseOrUnpause, invoke; cbv zeta.
  - rewrite queue_add_polling_view.
    exact (updateState_polling_view _ _ _ _ _ _).
  - rewrite queue_add_polling_view.
    exact (updateState_polling_view _ _ _ _ _ _).
  - exact (updateState_polling_view _ _ _ _ _ _).
Qed.


Lemma resume_polling_view id o w :
  polling_view (resume id o w) = polling_view w.
Proof.
  unfold resume.
  destruct (running (queue w)) as [[c|c|p v|p]|]; auto;
    case_if; auto; try rewrite start_next_polling_view.
  - destruct o; simpl; auto. rewrite start_next_polling_view. reflexivity.
  - apply as_task_polling_view. intros x.
    apply session_completion_polling_view.
  - apply as_task_polling_view. intros x. apply lock_completion_polling_view.
  - apply as_task_polling_view. intros x.
    apply outlet_completion_polling_view.
Qed.

Lemma settle_polling_view id o w :
  polling_view (settle id o w) = polling_view w.
Proof.
  unfold settle.
  destruct (nth_error (calls w) id) as [[c [|o']]|]; auto.
  cbv zeta. rewrite resume_polling_view.
  destruct c, (is_ok o); reflexivity.
Qed.

Lemma timeout_callback_polling_view w :
  polling_view (timeout_callback w) = polling_view w.
Proof.
  unfold timeout_callback, setValue_On. cbv zeta.
  rewrite setOutletOn_polling_view.
  exact (updateState_polling_view _ _ _ _ _ _).
Qed.

(** A tick that finds the context seen does nothing, or logs that it
    skips. *)
Lemma interval_when_seen now w :
  context_seen w ->
  interval_callback now w = w \/
  interval_callback now w =
    emit (Log debug "Skipping update (queue is not empty)") w.
Proof.
  unfold context_seen. intros H. unfold interval_callback.
  case_if; [right; reflexivity|].
  assert ((snd (context w) <=? lastUpdated w) = true) as ->
    by (apply Z.leb_le; exact H).
  left. reflexivity.
Qed.

Lemma step_polling_view w e :
  context_seen w -> is_refresh e = false ->
  polling_view (step w e) = polling_view w.
Proof.
  intros H R. destruct e as [v|v|now| |id o|d t]; simpl.
  - apply setLockTargetState_polling_view.
  - apply setOutletOn_polling_view.
  - destruct (interval_when_seen now w H) as [-> | ->]; reflexivity.
  - destruct (timeouts w); [reflexivity|].
    rewrite timeout_callback_polling_view. reflexivity.
  - apply settle_polling_view.
  - discriminate.
Qed.

Lemma polling_view_seen w w' :
  polling_view w' = polling_view w -> context_seen w -> context_seen w'.
Proof.
  unfold polling_view, context_seen. intros E H.
  inversion E as [[L C D]]. rewrite L, C. exact H.
Qed.

Lemma run_polling_view es :
  forall w, context_seen w -> forallb (fun e => negb (is_refresh e)) es = true ->
            polling_view (run es w) = polling_view w.
Proof.
  induction es as [|e es IH]; intros w H N; simpl; auto.
  simpl in N. apply andb_prop in N. destruct N as [Ne Nes].
  apply negb_true_iff in Ne.
  pose proof (step_polling_view w e H Ne) as P.
  unfold run in IH. rewrite IH; auto.
  apply (polling_view_seen w); assumption.
Qed.

(** X13: polling is driven by the platform alone.  After the constructor
    (given a context not dated after it), whatever the user does and
    whatever the network answers, as long as [accessory.context] is not
    refreshed no tick of the interval makes a client call or queues a task,
    and the accessory keeps the device record it was built with. *)
Theorem no_refresh_no_polling (d : ResponseMini) (t now tick : Z)
  (es : list Event) :
  t <= now ->
  forallb (fun e => negb (is_refresh e)) es = true ->
  let w := run es (new_ChargerAccessory d t now) in
  api_calls (added w (step w (IntervalTick tick))) = [] /\
  calls (step w (IntervalTick tick)) = calls w /\
  queue (step w (IntervalTick tick)) = queue w /\
  device w = d.
Proof.
  intros Ht N. cbv zeta.
  assert (context_seen (new_ChargerAccessory d t now)) as S0 by exact Ht.
  pose proof (run_polling_view es _ S0 N) as P.
  assert (context_seen (run es (new_ChargerAccessory d t now))) as S
    by (apply (polling_view_seen (new_ChargerAccessory d t now)); assumption).
  assert (device (run es (new_ChargerAccessory d t now)) = d) as D.
  { exact (f_equal snd P). }
  simpl step.
  destruct (interval_when_seen tick _ S) as [-> | ->].
  - unfold added. rewrite skipn_all. auto.
  - erewrite added_of_trace by (simpl trace; reflexivity). auto.
Qed.

Lemma no_refresh_no_polling_witness :
  api_calls (added connected (step connected (IntervalTick 5000))) = [] /\
  device connected = A1.
Proof.
  destruct (no_refresh_no_polling A1 100 200 5000
              [RequestEnds 0 (RequestOk (Some paused));
               RequestEnds 1 (RequestOk None)])
    as (A & _ & _ & D).
  - lia.
  - reflexivity.
  - split; [exact A | exact D].
Defined.

(** ** The queue never idles over waiting tasks *)

Lemma idle_means_empty_same_queue w w' :
  queue w' = queue w -> idle_means_empty w -> idle_means_empty w'.
Proof.
  unfold idle_means_empty. intros E H. rewrite E. exact H.
Qed.

Lemma start_next_idle_means_empty tasks :
  forall w, idle_means_empty (start_next tasks w).
Proof.
  induction tasks as [|t rest IH]; intros w; simpl.
  - intros _. reflexivity.
  - destruct t as [|p v|p]; simpl.
    + intros H. discriminate.
    + destruct (status_of p w); [intros H; discriminate | apply IH].
    + destruct (status_of p w); [intros H; discriminate | apply IH].
Qed.

Lemma queue_add_idle_means_empty t w : idle_means_empty (queue_add t w).
Proof.
  unfold queue_add. destruct (running (queue w)).
  - intros H. discriminate.
  - apply start_next_idle_means_empty.
Qed.

Lemma updateState_queue svc k v skip forced w :
  queue (updateState svc k v skip forced w) = queue w.
Proof. apply (updateState_frame svc k v skip forced w). Qed.

Lemma setLockTargetState_idle_means_empty v w :
  idle_means_empty w -> idle_means_empty (setLockTargetState v w).
Proof.
  intros H. unfold setLockTargetState.
  case_if; [exact H|].
  case_if; [|case_if]; unfold doEnableOrDisable, invoke; cbv zeta;
    try apply queue_add_idle_means_empty.
  apply (idle_means_empty_same_queue w); [|exact H].
  exact (updateState_queue _ _ _ _ _ _).
Qed.

Lemma setOutletOn_idle_means_empty v w :
  idle_means_empty w -> idle_means_empty (setOutletOn v w).
Proof.
  intros H. unfold setOutletOn.
  case_if; [case_if; exact H|].
  case_if; [exact H|].
  case_if; [|case_if]; unfold doPauseOrUnpause, invoke; cbv zeta;
    try apply queue_add_idle_means_empty.
  apply (idle_means_empty_same_queue w); [|exact H].
  exact (updateState_queue _ _ _ _ _ _).
Qed.

Lemma resume_idle_means_empty id o w :
  idle_means_empty w -> idle_means_empty (resume id o w).
Proof.
  intros H. unfold resume.
  destruct (running (queue w)) as [[c|c|p v|p]|] eqn:R; auto;
    case_if; auto; try apply start_next_idle_means_empty.
  destruct o; [intros X; discriminate | apply start_next_idle_means_empty].
Qed.

Lemma settle_idle_means_empty id o w :
  idle_means_empty w -> idle_means_empty (settle id o w).
Proof.
  intros H. unfold settle.
  destruct (nth_error (calls w) id) as [[c [|o']]|]; auto.
  cbv zeta. apply resume_idle_means_empty.
  destruct c, (is_ok o); exact H.
Qed.

Lemma step_idle_means_empty w e :
  idle_means_empty w -> idle_means_empty (step w e).
Proof.
  intros H. destruct e as [v|v|now| |id o|d t]; simpl.
  - apply setLockTargetState_idle_means_empty. exact H.
  - apply setOutletOn_idle_means_empty. exact H.
  - unfold interval_callback. case_if; [exact H|].
    case_if; [exact H|]. unfold checkSession.
    apply queue_add_idle_means_empty.
  - destruct (timeouts w); [exact H|].
    unfold timeout_callback, setValue_On. cbv zeta.
    apply setOutletOn_idle_means_empty.
    apply (idle_means_empty_same_queue w); [|exact H].
    exact (updateState_queue _ _ _ _ _ _).
  - apply settle_idle_means_empty. exact H.
  - exact H.
Qed.

Lemma run_idle_means_empty es d t now :
  idle_means_empty (run es (new_ChargerAccessory d t now)).
Proof.
  assert (idle_means_empty (new_ChargerAccessory d t now)) as H0
    by (intros X; discriminate).
  revert H0. generalize (new_ChargerAccessory d t now).
  induction es as [|e es IH]; intros w H0; simpl; auto.
  apply IH. apply step_idle_means_empty. exact H0.
Qed.

(** X14: the queue is work-conserving.  In every state the accessory can
    reach, tasks wait in the queue only while a task is running: the queue
    is never idle with work left in it. *)
Theorem queue_never_idles_over_work (d : ResponseMini) (t now : Z)
  (es : list Event) :
  let w := run es (new_ChargerAccessory d t now) in
  (running (queue w) = None -> waiting (queue w) = []) /\
  (waiting (queue w) <> [] -> exists s, running (queue w) = Some s).
Proof.
  cbv zeta.
  pose proof (run_idle_means_empty es d t now) as H.
  split; [exact H|].
  intros N. destruct (running (queue _)) as [s|] eqn:R; [eauto|].
  elim N. apply H. exact R.
Qed.

Lemma queue_never_idles_over_work_witness :
  waiting (queue (run [RequestEnds 0 RequestFailed]
                    (new_ChargerAccessory A1 100 200))) = [].
Proof.
  apply (proj1 (queue_never_idles_over_work A1 100 200
                  [RequestEnds 0 RequestFailed])).
  reflexivity.
Defined.

(** ** The outlet *)

Lemma setOutletOn_same_value v w :
  sessionAlive w = true -> v = get On (states w) ->
  setOutletOn v w = emit (Log debug "Ignoring setOutletOn") w.
Proof.
  intros HA E. unfold setOutletOn. rewrite HA, <- E, strict_eq_refl.
  reflexivity.
Qed.

(** X15: with a session alive, [setOutletOn] ignores the value [On]
    already holds; a new boolean is stored and notified at once, and
    switching on calls [sessionUnpause], switching off calls
    [sessionPause]; a new value that is no boolean is stored and notified
    all the same, an error is logged and nothing is called or queued. *)
Theorem setOutletOn_with_session_alive (w : World) :
  sessionAlive w = true ->
  (forall v, v = get On (states w) ->
     setOutletOn v w = emit (Log debug "Ignoring setOutletOn") w) /\
  (forall b, VBool b <> get On (states w) ->
     exists l,
       added w (setOutletOn (VBool b) w) =
         ([LogState On (get On (states w)) (VBool b);
           UpdateCharacteristic outlet On (VBool b);
           Log info "Attempt to";
           ApiCall (List.length (calls w))
             (if b then Client.sessionUnpause else Client.sessionPause)
             (inTask w)] ++ l)%list) /\
  (forall v, (forall b, v <> VBool b) -> v <> get On (states w) ->
     get On (states (setOutletOn v w)) = v /\
     added w (setOutletOn v w) =
       [LogState On (get On (states w)) v;
        UpdateCharacteristic outlet On v; Log error "Unknown On"] /\
     calls (setOutletOn v w) = calls w /\
     queue (setOutletOn v w) = queue w).
Proof.
  intros HA. split; [|split].
  - intros v E. apply setOutletOn_same_value; assumption.
  - intros b N.
    pose proof (updateState_trace outlet On (VBool b) false false w) as T.
    rewrite (strict_eq_neq _ _ N) in T. simpl in T.
    pose proof (updateState_frame outlet On (VBool b) false false w) as F.
    cbv zeta in F.
    destruct F as (_ & _ & _ & _ & _ & _ & _ & _ & Fc & Fi).
    unfold setOutletOn. rewrite HA, (strict_eq_neq _ _ N). simpl negb.
    cbv iota.
    destruct b; simpl strict_eq; cbv iota;
      unfold doPauseOrUnpause, invoke; cbv zeta;
      simpl calls; simpl inTask; rewrite Fc, Fi;
      match goal with |- context [queue_add ?t ?x] =>
        destruct (queue_add_extends t x) as [l Hl] end;
      simpl trace in Hl; rewrite T, <- !app_assoc in Hl; simpl app in Hl;
      exists l; rewrite (added_of_trace _ _ _ Hl); reflexivity.
  - intros v Nb N.
    pose proof (updateState_trace outlet On v false false w) as T.
    rewrite (strict_eq_neq _ _ N) in T. simpl in T.
    pose proof (updateState_frame outlet On v false false w) as F.
    cbv zeta in F.
    destruct F as (_ & _ & _ & _ & _ & _ & Fq & _ & Fc & _).
    assert (setOutletOn v w =
            emit (Log error "Unknown On")
              (updateState outlet On v false false w)) as E.
    { unfold setOutletOn. rewrite HA, (strict_eq_neq _ _ N).
      rewrite (strict_eq_neq v (VBool false)) by apply Nb.
      rewrite (strict_eq_neq v (VBool true)) by apply Nb.
      reflexivity. }
    rewrite E. split; [apply updateState_get_same|].
    split; [|split; [exact Fc | exact Fq]].
    erewrite added_of_trace
      by (simpl trace; rewrite T, <- app_assoc; reflexivity).
    reflexivity.
Qed.

Lemma setOutletOn_with_session_alive_witness :
  setOutletOn (VBool false) connected =
    emit (Log debug "Ignoring setOutletOn") connected /\
  exists l,
    added connected (setOutletOn (VBool true) connected) =
      ([LogState On (VBool false) (VBool true);
        UpdateCharacteristic outlet On (VBool true);
        Log info "Attempt to";
        ApiCall 2 Client.sessionUnpause false] ++ l)%list.
Proof.
  destruct (setOutletOn_with_session_alive connected eq_refl)
    as (I & P & _).
  split.
  - apply (I (VBool false)). reflexivity.
  - destruct (P true) as [l Hl].
    + vm_compute. discriminate.
    + exists l. vm_compute in Hl |- *. exact Hl.
Defined.

(** X16: the revert that the timeout of [setOutletOn] performs never
    calls the client and never queues a task, in whatever state it fires:
    afterwards [On] is stored as [false]; with a session alive at that time
    the guard [resettingOutletOff] is left as it was. *)
Theorem timeout_callback_calls_nothing (w : World) :
  let w' := timeout_callback w in
  get On (states w') = VBool false /\
  api_calls (added w w') = [] /\
  calls w' = calls w /\
  queue w' = queue w /\
  In (SetValue outlet On (VBool false)) (added w w') /\
  (sessionAlive w = true -> resettingOutletOff w' = resettingOutletOff w).
Proof.
  cbv zeta. unfold timeout_callback, setValue_On. cbv zeta.
  pose proof (updateState_frame outlet On (VBool false) true false w) as F.
  cbv zeta in F.
  destruct F as (_ & _ & FA & _ & FG & _ & Fq & FT & Fc & _).
  pose proof (updateState_get_same outlet On (VBool false) true false w) as G.
  destruct (silent_updateState outlet On (VBool false) true false w)
    as (l & T & A & _).
  revert FA FG Fq FT Fc G T.
  generalize (updateState outlet On (VBool false) true false w).
  intros y FA FG Fq FT Fc G T.
  set (x := emit (SetValue outlet On (VBool false)) y).
  assert (trace x = (trace w ++ (l ++ [SetValue outlet On (VBool false)]))%list)
    as Tx by (unfold x; simpl trace; rewrite T, <- app_assoc; reflexivity).
  assert (api_calls (l ++ [SetValue outlet On (VBool false)]) = []) as Ax
    by (unfold api_calls in *; rewrite filter_app, A; reflexivity).
  assert (In (SetValue outlet On (VBool false))
            (l ++ [SetValue outlet On (VBool false)])) as Ix
    by (apply in_or_app; right; simpl; auto).
  assert (sessionAlive x = sessionAlive w) as FAx by exact FA.
  assert (resettingOutletOff x = resettingOutletOff w) as FGx by exact FG.
  assert (queue x = queue w) as Fqx by exact Fq.
  assert (calls x = calls w) as Fcx by exact Fc.
  assert (get On (states x) = VBool false) as Gx by exact G.
  clearbody x. clear y FA FG Fq FT Fc G T.
  destruct (sessionAlive w) eqn:HA.
  - rewrite (setOutletOn_same_value (VBool false) x) by auto.
    split; [exact Gx|].
    erewrite added_of_trace
      by (simpl trace; rewrite Tx, <- app_assoc; reflexivity).
    split; [unfold api_calls in *; rewrite filter_app, Ax; reflexivity|].
    split; [exact Fcx|]. split; [exact Fqx|].
    split; [apply in_or_app; left; exact Ix|].
    intros _. exact FGx.
  - rewrite (setOutletOn_when_not_alive (VBool false) x) by auto.
    destruct (resettingOutletOff x).
    + split; [exact Gx|].
      erewrite added_of_trace by (simpl trace; exact Tx).
      split; [exact Ax|]. split; [exact Fcx|]. split; [exact Fqx|].
      split; [exact Ix | discriminate].
    + split; [exact Gx|].
      erewrite added_of_trace
        by (simpl trace; rewrite Tx, <- app_assoc; reflexivity).
      split; [unfold api_calls in *; rewrite filter_app, Ax; reflexivity|].
      split; [exact Fcx|]. split; [exact Fqx|].
      split; [apply in_or_app; left; exact Ix | discriminate].
Qed.

Lemma timeout_callback_calls_nothing_witness :
  resettingOutletOff (timeout_callback connected) =
    resettingOutletOff connected.
Proof.
  apply (timeout_callback_calls_nothing connected). reflexivity.
Defined.

(** X17: a value stored with [skipCharacteristicUpdate] set is lost to
    the host: a plain update with the same value that follows is ignored,
    so the two updates together notify nothing although the state holds the
    value. *)
Theorem skipped_update_is_never_notified (svc svc' : ServiceName)
  (k : StateKey) (v : CharacteristicValue) (forced : bool) (w : World) :
  let w1 := updateState svc k v true forced w in
  let w2 := updateState svc' k v false false w1 in
  get k (states w2) = v /\
  notifications (added w w2) = [] /\
  added w1 w2 = [Log debug "Ignoring update"].
Proof.
  cbv zeta.
  set (w1 := updateState svc k v true forced w).
  assert (get k (states w1) = v) as G by apply updateState_get_same.
  pose proof (updateState_trace svc k v true forced w) as T1. fold w1 in T1.
  rewrite (updateState_ignored svc' k v false w1) by (symmetry; exact G).
  split; [exact G|]. split.
  - erewrite added_of_trace
      by (simpl trace; rewrite T1, <- app_assoc; reflexivity).
    unfold notifications. rewrite filter_app. case_if; reflexivity.
  - erewrite added_of_trace by (simpl trace; reflexivity). reflexivity.
Qed.

(** ** The lock, command after command *)

(** A new command changes the stored target and nothing else of the
    states, when the queue is in order. *)
Lemma lock_command_states v w :
  idle_means_empty w ->
  v = VNum LockTargetState.SECURED \/ v = VNum LockTargetState.UNSECURED ->
  v <> get LockTargetState (states w) ->
  v <> get LockCurrentState (states w) ->
  states (setLockTargetState v w) = set LockTargetState v (states w).
Proof.
  intros HI Hv Nt Nc.
  destruct (lock_command_issue v w Hv Nt Nc) as [c E]. rewrite E.
  pose proof (updateState_states lock LockTargetState v false false w) as S.
  rewrite (strict_eq_neq _ _ Nt) in S. simpl in S.
  pose proof (updateState_frame lock LockTargetState v false false w) as F.
  cbv zeta in F.
  destruct F as (_ & _ & _ & _ & _ & _ & Fq & _ & Fc & _).
  revert S Fq Fc.
  generalize (updateState lock LockTargetState v false false w).
  intros y S Fq Fc.
  unfold queue_add, invoke. cbv zeta. simpl snd. simpl queue. rewrite Fq.
  destruct (running (queue w)) as [s|] eqn:R.
  - exact S.
  - rewrite (HI R). simpl app. unfold start_next, status_of. simpl calls.
    rewrite Fc, nth_error_snoc. exact S.
Qed.

(** X18: one lock command at a time.  In a state the accessory can reach
    where the current lock state is SECURED or UNSECURED, once a command
    for the other value has been accepted every further command, SECURED or
    UNSECURED, is ignored (it equals the new target or the current state):
    the user can neither repeat nor take back the command, as long as no
    completion or reconciliation changes the states. *)
Theorem lock_commands_ignored_while_in_flight (d : ResponseMini)
  (t now : Z) (es : list Event) (v v' : CharacteristicValue) :
  let w := run es (new_ChargerAccessory d t now) in
  v = VNum LockTargetState.SECURED \/ v = VNum LockTargetState.UNSECURED ->
  getLockCurrentState w = VNum LockCurrentState.SECURED \/
  getLockCurrentState w = VNum LockCurrentState.UNSECURED ->
  v <> getLockTargetState w ->
  v <> getLockCurrentState w ->
  v' = VNum LockTargetState.SECURED \/ v' = VNum LockTargetState.UNSECURED ->
  let w1 := setLockTargetState v w in
  setLockTargetState v' w1 =
    emit (Log debug "Ignoring setLockTargetState") w1.
Proof.
  cbv zeta. unfold getLockCurrentState, getLockTargetState.
  pose proof (run_idle_means_empty es d t now) as HI.
  generalize dependent (run es (new_ChargerAccessory d t now)).
  intros w HI Hv Hc Nt Nc Hv'.
  apply setLockTargetState_ignored.
  rewrite (lock_command_states v w HI Hv Nt Nc).
  rewrite get_set_same, get_set_other by discriminate.
  destruct Hv as [-> | ->], Hv' as [-> | ->]; auto;
    destruct Hc as [Hc | Hc]; rewrite Hc in *; auto;
    exfalso; apply Nc; reflexivity.
Qed.

Lemma lock_commands_ignored_while_in_flight_witness :
  setLockTargetState (VNum LockTargetState.UNSECURED)
    (setLockTargetState (VNum LockTargetState.SECURED) connected) =
    emit (Log debug "Ignoring setLockTargetState")
      (setLockTargetState (VNum LockTargetState.SECURED) connected).
Proof.
  pose proof (lock_commands_ignored_while_in_flight A1 100 200
                [RequestEnds 0 (RequestOk (Some paused));
                 RequestEnds 1 (RequestOk None)]
                (VNum LockTargetState.SECURED)
                (VNum LockTargetState.UNSECURED)) as H.
  cbv zeta in H.
  assert (VNum LockTargetState.SECURED <>
          getLockTargetState
            (run [RequestEnds 0 (RequestOk (Some paused));
                  RequestEnds 1 (RequestOk None)]
               (new_ChargerAccessory A1 100 200))) as Nt
    by (vm_compute; discriminate).
  assert (VNum LockTargetState.SECURED <>
          getLockCurrentState
            (run [RequestEnds 0 (RequestOk (Some paused));
                  RequestEnds 1 (RequestOk None)]
               (new_ChargerAccessory A1 100 200))) as Nc
    by (vm_compute; discriminate).
  exact (H (or_introl eq_refl) (or_intror eq_refl) Nt Nc (or_intror eq_refl)).
Defined.

(** A command on an idle queue, once its request has ended. *)
Lemma lock_command_settled v w o :
  queue w = mkPQueue None [] ->
  v = VNum LockTargetState.SECURED \/ v = VNum LockTargetState.UNSECURED ->
  v <> get LockTargetState (states w) ->
  v <> get LockCurrentState (states w) ->
  let w2 := settle (List.length (calls w)) o (setLockTargetState v w) in
  get LockTargetState (states w2) = v /\
  get LockCurrentState (states w2) =
    (if is_ok o then v else VNum LockCurrentState.UNKNOWN) /\
  queue w2 = mkPQueue None [].
Proof.
  intros Hq Hv Nt Nc. cbv zeta.
  destruct (lock_command_issue v w Hv Nt Nc) as [c E]. rewrite E.
  pose proof (updateState_get_same lock LockTargetState v false false w) as G.
  pose proof (updateState_frame lock LockTargetState v false false w) as F.
  cbv zeta in F.
  destruct F as (_ & _ & _ & _ & _ & _ & Fq & _ & Fc & _).
  revert G Fq Fc.
  generalize (updateState lock LockTargetState v false false w).
  intros y G Fq Fc.
  unfold queue_add, invoke. cbv zeta. simpl snd. simpl queue.
  rewrite Fq, Hq. simpl running. simpl waiting. simpl app.
  unfold start_next, status_of. simpl calls. rewrite Fc, nth_error_snoc.
  unfold settle. simpl calls. rewrite nth_error_snoc. cbv zeta.
  assert (forall x : World,
            running (queue x) =
              Some (AwaitLockPromise (List.length (calls w)) v) ->
            waiting (queue x) = [] ->
            get LockTargetState (states x) = v ->
            get LockTargetState
              (states (resume (List.length (calls w)) o x)) = v /\
            get LockCurrentState
              (states (resume (List.length (calls w)) o x)) =
              (if is_ok o then v else VNum LockCurrentState.UNKNOWN) /\
            queue (resume (List.length (calls w)) o x) = mkPQueue None [])
    as R.
  { intros x Hr Hw Gx. unfold resume. rewrite Hr, Hw, Nat.eqb_refl.
    simpl start_next. simpl states. simpl queue.
    split; [|split; [|reflexivity]].
    - rewrite (lock_completion_target (is_ok o) v (set_inTask true x)).
      exact Gx.
    - apply lock_completion_current. }
  apply R; destruct c, (is_ok o); try reflexivity; exact G.
Qed.

(** X19: after a lock command on an idle queue has ended, the same value
    is ignored whether the request succeeded or failed: after a failure the
    current state is UNKNOWN, yet the command cannot be retried as it
    equals the stored target; the opposite command is accepted and issues
    a client call. *)
Theorem lock_command_cannot_be_retried (v v' : CharacteristicValue)
  (w : World) (o : RequestOutcome) :
  queue w = mkPQueue None [] ->
  v = VNum LockTargetState.SECURED \/ v = VNum LockTargetState.UNSECURED ->
  v <> getLockTargetState w ->
  v <> getLockCurrentState w ->
  let w2 := settle (List.length (calls w)) o (setLockTargetState v w) in
  setLockTargetState v w2 =
    emit (Log debug "Ignoring setLockTargetState") w2 /\
  (is_ok o = false ->
   v' = VNum LockTargetState.SECURED \/ v' = VNum LockTargetState.UNSECURED ->
   v' <> v ->
   getLockCurrentState w2 = VNum LockCurrentState.UNKNOWN /\
   exists c,
     In (ApiCall (List.length (calls w2)) c (inTask w2))
       (added w2 (setLockTargetState v' w2))).
Proof.
  unfold getLockTargetState, getLockCurrentState.
  intros Hq Hv Nt Nc. cbv zeta.
  destruct (lock_command_settled v w o Hq Hv Nt Nc) as (Gt & Gc & _).
  revert Gt Gc.
  generalize (settle (List.length (calls w)) o (setLockTargetState v w)).
  intros w2 Gt Gc. split.
  - apply setLockTargetState_ignored. left. symmetry. exact Gt.
  - intros F Hv' N. rewrite F in Gc. split; [exact Gc|].
    assert (v' <> get LockTargetState (states w2)) as Nt'
      by (rewrite Gt; exact N).
    assert (v' <> get LockCurrentState (states w2)) as Nc'
      by (rewrite Gc; destruct Hv' as [-> | ->]; discriminate).
    destruct (setLockTargetState_proceeds v' w2 Nt' Nc')
      as (T1 & _ & Hs & Hu & _).
    destruct Hv' as [E | E];
      [destruct (Hs E) as [l Hl] | destruct (Hu E) as [l Hl]];
      eexists;
      rewrite (added_of_trace _ _ _ (trace_trans _ _ _ _ _ T1 Hl));
      simpl; auto.
Qed.

Lemma lock_command_cannot_be_retried_witness :
  setLockTargetState (VNum LockTargetState.SECURED) after_failed_disable =
    emit (Log debug "Ignoring setLockTargetState") after_failed_disable.
Proof.
  pose proof (proj1 (lock_command_cannot_be_retried
                       (VNum LockTargetState.SECURED)
                       (VNum LockTargetState.UNSECURED) connected
                       RequestFailed eq_refl (or_introl eq_refl)
                       ltac:(vm_compute; discriminate)
                       ltac:(vm_compute; discriminate))) as H.
  vm_compute in H |- *. exact H.
Defined.

(** ** The constructor *)

(** X20: a new accessory reports UNSECURED, UNSECURED, off and
    CONTACT_NOT_DETECTED whatever its device record says, and starts one
    client call, [session], inside a queue task.  When that request fails
    the states stay so, also for a charger whose record says it is
    disabled, for which a reconciliation pass would store SECURED. *)
Theorem new_accessory_ignores_device_record (d : ResponseMini) (t now : Z) :
  let w := new_ChargerAccessory d t now in
  let w' := settle 0 RequestFailed w in
  states w =
    mkStates (VNum LockCurrentState.UNSECURED) (VNum LockTargetState.UNSECURED)
      (VBool false) (VNum ContactSensorState.CONTACT_NOT_DETECTED) /\
  api_calls (trace w) = [ApiCall 0 Client.session true] /\
  in_flight w = [Client.session] /\
  states w' = states w /\
  in_flight w' = [] /\
  queue w' = mkPQueue None [] /\
  (isDisabled d = 1 ->
   getLockCurrentState w' <> getLockCurrentState (computeAll w')).
Proof.
  cbv zeta. repeat split.
  intros D. unfold getLockCurrentState.
  rewrite computeAll_LockCurrentState.
  unfold computeLockCurrentState. simpl device. rewrite D. simpl.
  discriminate.
Qed.

Lemma new_accessory_ignores_device_record_witness :
  getLockCurrentState (settle 0 RequestFailed constructed_disabled) <>
    getLockCurrentState
      (computeAll (settle 0 RequestFailed constructed_disabled)).
Proof.
  apply (new_accessory_ignores_device_record A2 100 200). reflexivity.
Defined.

End AccessoryMoreFacts.








(* ===================================================================== *)
(** * Facts about the platform ([platform.ts])                            *)
(* ===================================================================== *)

Module PlatformFacts.
Import Accessory Platform ListFacts.

Lemma map_get_set_same {V} (k : string) (v : V) (m : list (string * V)) :
  map_get k (map_set k v m) = Some v.
Proof.
  induction m as [|[k' v'] m IH]; simpl.
  - rewrite String.eqb_refl. reflexivity.
  - destruct (String.eqb k' k) eqn:E; simpl; rewrite E; auto.
Qed.

Lemma map_get_set_other {V} (k k' : string) (v : V) (m : list (string * V)) :
  k <> k' -> map_get k (map_set k' v m) = map_get k m.
Proof.
  intros N. induction m as [|[k0 v0] m IH]; simpl.
  - destruct (String.eqb k' k) eqn:E; auto.
    apply String.eqb_eq in E. congruence.
  - destruct (String.eqb k0 k') eqn:E; simpl.
    + apply String.eqb_eq in E. subst k0.
      destruct (String.eqb k' k) eqn:E'; auto.
      apply String.eqb_eq in E'. congruence.
    + destruct (String.eqb k0 k); auto.
Qed.

(** Replacing the value of a key that is there keeps the keys and their
    order. *)
Lemma map_set_keys {V} (k : string) (v v' : V) (m : list (string * V)) :
  map_get k m = Some v -> map fst (map_set k v' m) = map fst m.
Proof.
  induction m as [|[k0 v0] m IH]; simpl; [discriminate|].
  destruct (String.eqb k0 k); simpl; intros H; auto.
  rewrite IH; auto.
Qed.

(** Entries under other keys are not touched by [map_set]. *)
Lemma map_set_filter {V} (f : string -> bool) (k : string) (v : V)
  (m : list (string * V)) :
  f k = true ->
  filter (fun e => negb (f (fst e))) (map_set k v m) =
  filter (fun e => negb (f (fst e))) m.
Proof.
  intros F. induction m as [|[k0 v0] m IH]; simpl.
  - rewrite F. reflexivity.
  - destruct (String.eqb k0 k) eqn:E; simpl.
    + apply String.eqb_eq in E. subst k0. rewrite F. reflexivity.
    + rewrite IH. reflexivity.
Qed.

Lemma includes_app (x : string) (l l' : list string) :
  includes x (l ++ l')%list = includes x l || includes x l'.
Proof. unfold includes. apply existsb_app. Qed.

Lemma made_app (p q : Platform) (l : list HostCall) :
  host q = (host p ++ l)%list -> made p q = l.
Proof. unfold made. intros ->. apply skipn_length_app. Qed.

Lemma unregistered_app (l l' : list HostCall) :
  unregistered (l ++ l')%list = (unregistered l ++ unregistered l')%list.
Proof. unfold unregistered. apply flat_map_app. Qed.

Section WithHost.

Variable generate : string -> string.

(** ** One turn of the first loop *)

Lemma discover_one_keys (p : Platform) (d : ResponseMini * Z) :
  map fst (accessories (discover_one generate p d)) = map fst (accessories p).
Proof.
  destruct d as [device now]. unfold discover_one. simpl accessories.
  destruct (map_get (generate (address device)) (accessories p)) eqn:E;
    simpl; auto.
  eapply map_set_keys; eauto.
Qed.

Lemma discover_one_devices (p : Platform) (d : ResponseMini * Z) :
  devices (discover_one generate p d) =
  map_set (address (fst d)) (generate (address (fst d))) (devices p).
Proof.
  destruct d as [device now]. unfold discover_one. simpl accessories.
  destruct (map_get (generate (address device)) (accessories p)); reflexivity.
Qed.

Lemma discover_one_uuids (p : Platform) (d : ResponseMini * Z) :
  discoveredCacheUUIDs (discover_one generate p d) =
  (discoveredCacheUUIDs p ++ [generate (address (fst d))])%list.
Proof.
  destruct d as [device now]. unfold discover_one. simpl accessories.
  destruct (map_get (generate (address device)) (accessories p)); reflexivity.
Qed.

Lemma discover_one_timeout (p : Platform) (d : ResponseMini * Z) :
  timeout (discover_one generate p d) = timeout p.
Proof.
  destruct d as [device now]. unfold discover_one. simpl accessories.
  destruct (map_get (generate (address device)) (accessories p)); reflexivity.
Qed.

(** A turn of the first loop unregisters nothing, and touches no entry
    whose key is not the identifier of its device. *)
Lemma discover_one_host (p : Platform) (d : ResponseMini * Z) :
  exists l, host (discover_one generate p d) = (host p ++ l)%list /\
            unregistered l = [].
Proof.
  destruct d as [device now]. unfold discover_one. simpl accessories.
  destruct (map_get (generate (address device)) (accessories p)); simpl;
    rewrite <- !app_assoc; eexists; split; try reflexivity; reflexivity.
Qed.

Lemma discover_one_others (f : string -> bool) (p : Platform)
  (d : ResponseMini * Z) :
  f (generate (address (fst d))) = true ->
  filter (fun e => negb (f (fst e))) (accessories (discover_one generate p d)) =
  filter (fun e => negb (f (fst e))) (accessories p).
Proof.
  destruct d as [device now]. unfold discover_one. simpl accessories.
  simpl fst. intros F.
  destruct (map_get (generate (address device)) (accessories p)); simpl; auto.
  apply map_set_filter; auto.
Qed.

(** What a new device is turned into. *)
Lemma discover_one_new (p : Platform) (device : ResponseMini) (now : Z) :
  map_get (generate (address device)) (accessories p) = None ->
  In (registerPlatformAccessories
        (mkPlatformAccessory (generate (address device)) (address device)
           (Some device) (Some now)))
     (made p (discover_one generate p (device, now))).
Proof.
  intros E. unfold discover_one. simpl accessories. rewrite E. simpl.
  erewrite made_app.
  2:{ simpl. rewrite <- !app_assoc. reflexivity. }
  simpl. auto.
Qed.

(** ** The first loop *)

Lemma discover_loop_keys (listed : list (ResponseMini * Z)) (p : Platform) :
  map fst (accessories (fold_left (discover_one generate) listed p)) =
  map fst (accessories p).
Proof.
  revert p. induction listed as [|d l IH]; intros p; simpl; auto.
  rewrite IH. apply discover_one_keys.
Qed.

Lemma discover_loop_devices (listed : list (ResponseMini * Z)) (p : Platform)
  (k : string) :
  map_get k (devices (fold_left (discover_one generate) listed p)) =
  if existsb (fun d => String.eqb (address (fst d)) k) listed
  then Some (generate k) else map_get k (devices p).
Proof.
  revert p. induction listed as [|d l IH]; intros p; simpl; auto.
  rewrite IH, discover_one_devices.
  destruct (existsb (fun d0 => String.eqb (address (fst d0)) k) l);
    [rewrite orb_true_r; reflexivity|rewrite orb_false_r].
  destruct (String.eqb (address (fst d)) k) eqn:E.
  - apply String.eqb_eq in E. subst k. apply map_get_set_same.
  - apply map_get_set_other. intros ->. rewrite String.eqb_refl in E.
    discriminate.
Qed.

Lemma discover_loop_uuids (listed : list (ResponseMini * Z)) (p : Platform) :
  discoveredCacheUUIDs (fold_left (discover_one generate) listed p) =
  (discoveredCacheUUIDs p ++ uuids generate listed)%list.
Proof.
  revert p. induction listed as [|d l IH]; intros p; simpl.
  - rewrite app_nil_r. reflexivity.
  - rewrite IH, discover_one_uuids, <- app_assoc. reflexivity.
Qed.

Lemma discover_loop_timeout (listed : list (ResponseMini * Z)) (p : Platform) :
  timeout (fold_left (discover_one generate) listed p) = timeout p.
Proof.
  revert p. induction listed as [|d l IH]; intros p; simpl; auto.
  rewrite IH. apply discover_one_timeout.
Qed.

Lemma discover_loop_host (listed : list (ResponseMini * Z)) (p : Platform) :
  exists l, host (fold_left (discover_one generate) listed p) =
              (host p ++ l)%list /\
            unregistered l = [].
Proof.
  revert p. induction listed as [|d l IH]; intros p; simpl.
  - exists []. rewrite app_nil_r. auto.
  - destruct (IH (discover_one generate p d)) as (l2 & H2 & U2).
    destruct (discover_one_host p d) as (l1 & H1 & U1).
    exists (l1 ++ l2)%list. split.
    + rewrite H2, H1, app_assoc. reflexivity.
    + rewrite unregistered_app, U1, U2. reflexivity.
Qed.

Lemma discover_loop_others (f : string -> bool)
  (listed : list (ResponseMini * Z)) (p : Platform) :
  (forall u, In u (uuids generate listed) -> f u = true) ->
  filter (fun e => negb (f (fst e)))
    (accessories (fold_left (discover_one generate) listed p)) =
  filter (fun e => negb (f (fst e))) (accessories p).
Proof.
  revert p. induction listed as [|d l IH]; intros p F; simpl; auto.
  rewrite IH.
  - apply discover_one_others. apply F. simpl. auto.
  - intros u Hu. apply F. simpl. auto.
Qed.

Lemma discover_loop_new (listed : list (ResponseMini * Z)) (p : Platform)
  (device : ResponseMini) (now : Z) :
  accessories p = [] ->
  In (device, now) listed ->
  exists l,
    host (fold_left (discover_one generate) listed p) = (host p ++ l)%list /\
    In (registerPlatformAccessories
          (mkPlatformAccessory (generate (address device)) (address device)
             (Some device) (Some now))) l.
Proof.
  revert p. induction listed as [|d l IH]; intros p A I; simpl; [destruct I|].
  assert (A1 : accessories (discover_one generate p d) = []).
  { apply map_eq_nil with (f := fst).
    rewrite discover_one_keys, A. reflexivity. }
  destruct (discover_one_host p d) as (l1 & H1 & _).
  destruct I as [-> | I].
  - destruct (discover_loop_host l (discover_one generate p (device, now)))
      as (l2 & H2 & _).
    exists (l1 ++ l2)%list. split.
    + rewrite H2, H1, app_assoc. reflexivity.
    + apply in_or_app. left.
      assert (N : map_get (generate (address device)) (accessories p) = None)
        by (rewrite A; reflexivity).
      pose proof (discover_one_new p device now N) as R.
      rewrite (made_app _ _ _ H1) in R. exact R.
  - destruct (IH _ A1 I) as (l2 & H2 & R).
    exists (l1 ++ l2)%list. split.
    + rewrite H2, H1, app_assoc. reflexivity.
    + apply in_or_app. right. exact R.
Qed.

(** ** The second loop *)

Lemma unregister_unseen_frame (p : Platform) (e : string * PlatformAccessory) :
  accessories (unregister_unseen p e) = accessories p /\
  devices (unregister_unseen p e) = devices p /\
  discoveredCacheUUIDs (unregister_unseen p e) = discoveredCacheUUIDs p /\
  timeout (unregister_unseen p e) = timeout p.
Proof.
  destruct e as [uuid a]. unfold unregister_unseen.
  destruct (negb (includes uuid (discoveredCacheUUIDs p))); simpl; auto.
Qed.

Lemma unregister_loop_frame (m : list (string * PlatformAccessory))
  (p : Platform) :
  accessories (fold_left unregister_unseen m p) = accessories p /\
  devices (fold_left unregister_unseen m p) = devices p /\
  discoveredCacheUUIDs (fold_left unregister_unseen m p) =
    discoveredCacheUUIDs p /\
  timeout (fold_left unregister_unseen m p) = timeout p.
Proof.
  revert p. induction m as [|e m IH]; intros p; simpl; auto.
  destruct (IH (unregister_unseen p e)) as (A & D & U & T).
  destruct (unregister_unseen_frame p e) as (A' & D' & U' & T').
  rewrite A, D, U, T. auto.
Qed.

Lemma unregister_loop_host (m : list (string * PlatformAccessory))
  (p : Platform) :
  exists l, host (fold_left unregister_unseen m p) = (host p ++ l)%list /\
            unregistered l =
            map snd (filter (fun e => negb (includes (fst e)
                                              (discoveredCacheUUIDs p))) m).
Proof.
  revert p. induction m as [|[uuid a] m IH]; intros p.
  - exists []. simpl. rewrite app_nil_r. auto.
  - destruct (IH (unregister_unseen p (uuid, a))) as (l & H & U).
    destruct (unregister_unseen_frame p (uuid, a)) as (_ & _ & Eu & _).
    rewrite Eu in U.
    assert (H1 : exists l1,
               host (unregister_unseen p (uuid, a)) = (host p ++ l1)%list /\
               unregistered l1 =
               if negb (includes uuid (discoveredCacheUUIDs p))
               then [a] else []).
    { unfold unregister_unseen.
      destruct (negb (includes uuid (discoveredCacheUUIDs p))); simpl.
      - eexists. rewrite <- app_assoc. split; reflexivity.
      - exists []. rewrite app_nil_r. auto. }
    destruct H1 as (l1 & H1 & U1).
    exists (l1 ++ l)%list. split.
    + change (fold_left unregister_unseen ((uuid, a) :: m) p)
        with (fold_left unregister_unseen m (unregister_unseen p (uuid, a))).
      rewrite H, H1, app_assoc. reflexivity.
    + rewrite unregistered_app, U1, U. cbn [filter fst].
      destruct (negb (includes uuid (discoveredCacheUUIDs p))); reflexivity.
Qed.

Lemma discoverDevices_keys (listed : list (ResponseMini * Z)) (p : Platform) :
  map fst (accessories (discoverDevices generate listed p)) =
  map fst (accessories p).
Proof.
  unfold discoverDevices. cbv zeta.
  match goal with |- context [fold_left unregister_unseen ?m ?q] =>
    destruct (unregister_loop_frame m q) as (A & _) end.
  rewrite A, discover_loop_keys. reflexivity.
Qed.

(** ** [updateDevices] *)

Lemma update_one_without_accessories (p : Platform) (d : ResponseMini * Z) :
  accessories p = [] ->
  accessories (update_one p d) = [] /\
  exists l, host (update_one p d) = (host p ++ l)%list /\
            filter is_update l = [].
Proof.
  intros A. destruct d as [device now]. unfold update_one.
  destruct (map_get (address device) (devices p)) as [uuid|].
  - destruct (String.eqb uuid "").
    + simpl. split; auto. eexists. split; reflexivity.
    + rewrite A. simpl. split; auto. eexists. split; reflexivity.
  - simpl. split; auto. eexists. split; reflexivity.
Qed.

Lemma update_loop_without_accessories (listed : list (ResponseMini * Z))
  (p : Platform) :
  accessories p = [] ->
  accessories (fold_left update_one listed p) = [] /\
  exists l, host (fold_left update_one listed p) = (host p ++ l)%list /\
            filter is_update l = [].
Proof.
  revert p. induction listed as [|d l IH]; intros p A; simpl.
  - split; auto. exists []. rewrite app_nil_r. auto.
  - destruct (update_one_without_accessories p d A) as (A1 & l1 & H1 & U1).
    destruct (IH _ A1) as (A2 & l2 & H2 & U2).
    split; auto. exists (l1 ++ l2)%list. split.
    + rewrite H2, H1, app_assoc. reflexivity.
    + rewrite filter_app, U1, U2. reflexivity.
Qed.

Lemma updateDevices_without_accessories (listed : list (ResponseMini * Z))
  (p : Platform) :
  accessories p = [] ->
  accessories (updateDevices listed p) = [] /\
  filter is_update (made p (updateDevices listed p)) = [].
Proof.
  intros A. unfold updateDevices.
  set (p1 := if timeout p then call clearInterval p else p).
  assert (A1 : accessories p1 = [])
    by (unfold p1; destruct (timeout p); simpl; auto).
  assert (H1 : exists l, host p1 = (host p ++ l)%list /\ filter is_update l = []).
  { unfold p1. destruct (timeout p); simpl.
    - eexists. split; reflexivity.
    - exists []. rewrite app_nil_r. auto. }
  destruct H1 as (l1 & H1 & U1).
  set (p2 := call (log_debug "Updating devices") p1).
  assert (A2 : accessories p2 = []) by exact A1.
  destruct (update_loop_without_accessories listed p2 A2) as (A3 & l3 & H3 & U3).
  cbv zeta. simpl accessories. split; auto.
  erewrite made_app.
  2:{ simpl host. rewrite H3. unfold p2. simpl host. rewrite H1.
      rewrite <- !app_assoc. reflexivity. }
  rewrite !filter_app, U1, U3. reflexivity.
Qed.

(** ** Properties of [discoverDevices] and [updateDevices] *)

(** X21: After [discoverDevices], the [devices] map holds exactly the
    addresses of the listing, each mapped to the identifier generated
    from it: what an earlier run had put there is gone. *)
Theorem discoverDevices_devices_map (listed : list (ResponseMini * Z))
  (p : Platform) (k : string) :
  map_get k (devices (discoverDevices generate listed p)) =
  if existsb (fun d => String.eqb (address (fst d)) k) listed
  then Some (generate k) else None.
Proof.
  unfold discoverDevices.
  destruct (unregister_loop_frame
              (accessories (fold_left (discover_one generate) listed
                 (mkPlatform (accessories p) [] (discoveredCacheUUIDs p)
                    (timeout p) (host p))))
              (fold_left (discover_one generate) listed
                 (mkPlatform (accessories p) [] (discoveredCacheUUIDs p)
                    (timeout p) (host p)))) as (_ & D & _).
  cbv zeta. rewrite D, discover_loop_devices. reflexivity.
Qed.

(** X22: [discoverDevices] never adds to or removes from the platform's
    [accessories] map: its keys are the same before and after, also for a
    device that was registered as a new accessory and for an accessory
    that was unregistered. *)
Theorem discoverDevices_keeps_accessory_keys
  (listed : list (ResponseMini * Z)) (p : Platform) :
  map fst (accessories (discoverDevices generate listed p)) =
  map fst (accessories p).
Proof. apply discoverDevices_keys. Qed.

(** X23: [discoverDevices] unregisters exactly the cached accessories
    whose key is neither the identifier of a listed device nor among the
    identifiers recorded by earlier runs ([discoveredCacheUUIDs] is never
    cleared), in the order of the map and as they were cached. *)
Theorem discoverDevices_unregisters_unlisted
  (listed : list (ResponseMini * Z)) (p : Platform) :
  unregistered (made p (discoverDevices generate listed p)) =
  map snd
    (filter
       (fun e => negb (includes (fst e)
                         (discoveredCacheUUIDs p ++ uuids generate listed)%list))
       (accessories p)).
Proof.
  unfold discoverDevices. cbv zeta.
  set (p0 := mkPlatform (accessories p) [] (discoveredCacheUUIDs p)
               (timeout p) (host p)).
  destruct (discover_loop_host listed p0) as (l1 & H1 & U1).
  destruct (unregister_loop_host
              (accessories (fold_left (discover_one generate) listed p0))
              (fold_left (discover_one generate) listed p0))
    as (l2 & H2 & U2).
  erewrite made_app.
  2:{ rewrite H2, H1. unfold p0. simpl host. rewrite <- app_assoc.
      reflexivity. }
  rewrite unregistered_app, U1, U2. simpl.
  rewrite discover_loop_uuids. unfold p0 at 1. simpl discoveredCacheUUIDs.
  rewrite (discover_loop_others
             (fun u => includes u (discoveredCacheUUIDs p
                                   ++ uuids generate listed)%list)).
  - reflexivity.
  - intros u Hu. rewrite includes_app. apply orb_true_iff. right.
    unfold includes. apply existsb_exists. exists u. split; auto.
    apply String.eqb_refl.
Qed.

(** X24: On a platform without cached accessories, [discoverDevices]
    registers a new accessory for every listed device, and yet a later
    [updateDevices] refreshes none of them: the new accessories are not
    in the [accessories] map, so it makes no [updatePlatformAccessories]
    call whatever is listed. *)
Theorem new_devices_are_never_refreshed
  (listed listed' : list (ResponseMini * Z)) (p : Platform) :
  accessories p = [] ->
  let q := discoverDevices generate listed p in
  (forall device now, In (device, now) listed ->
     In (registerPlatformAccessories
           (mkPlatformAccessory (generate (address device)) (address device)
              (Some device) (Some now)))
        (made p q)) /\
  accessories (updateDevices listed' q) = [] /\
  filter is_update (made q (updateDevices listed' q)) = [].
Proof.
  intros A. cbv zeta. split.
  - intros device now I. unfold discoverDevices. cbv zeta.
    set (p0 := mkPlatform (accessories p) [] (discoveredCacheUUIDs p)
                 (timeout p) (host p)).
    destruct (discover_loop_new listed p0 device now A I) as (l1 & H1 & R).
    destruct (unregister_loop_host
                (accessories (fold_left (discover_one generate) listed p0))
                (fold_left (discover_one generate) listed p0))
      as (l2 & H2 & _).
    erewrite made_app.
    2:{ rewrite H2, H1. unfold p0. simpl host. rewrite <- app_assoc.
        reflexivity. }
    apply in_or_app. left. exact R.
  - apply updateDevices_without_accessories.
    apply map_eq_nil with (f := fst).
    rewrite discoverDevices_keys, A. reflexivity.
Qed.

End WithHost.

Lemma new_devices_are_never_refreshed_witness :
  accessories fresh_platform = [] /\
  filter is_update
    (made (discoverDevices sample_generate sample_listing fresh_platform)
       (updateDevices sample_listing
          (discoverDevices sample_generate sample_listing fresh_platform))) =
  [].
Proof.
  split; [reflexivity|].
  apply (new_devices_are_never_refreshed sample_generate sample_listing
           sample_listing fresh_platform).
  reflexivity.
Defined.

End PlatformFacts.
